(** * strategicRadar: the record-normalisation core

    A shallow embedding of the two applications of the repository:
    the event clock ([src/index.tsx], module [EventClock]) and the
    strategic radar ([src/unnamed/part_000], module [Radar]).

    Modelling conventions.
    - A JavaScript string is a sequence of code units; this development
      covers the strings whose code units are below 256 (the ISO-8859-1
      repertoire, which holds the accented letters of the month table).
      Such a code unit is an [ascii] whose number is the code unit, so
      [toLowerCase], the regular-expression classes [\d], [\s], [\w] and
      [\b] are written out on that range exactly as ECMAScript defines
      them there.
    - A [Date] is its time value: the number of milliseconds since the
      epoch, read in local civil time.  The local zone is taken to have a
      fixed offset from UTC (no daylight-saving jumps), so the offset
      cancels in every comparison and difference and is left out; time
      values are unbounded integers (ECMAScript clips at 10^8 days from
      the epoch, some 270000 years away).
    - [new Date()] is an input: the clock reading [now] is a parameter of
      every function that reads it, constant during one computation.
    - A [Map] is an association list in insertion order: [Map.set] on a
      present key keeps the key's position, [Map.values()] lists the
      values in insertion order.
    - [Array.prototype.sort] is a stable sort; for the comparators used
      here (differences of integers) its result is the unique stable
      sorted arrangement, computed below by insertion.
    - The state of a component is a record, and a handler is a function
      from the state it reads to the state it writes ([Handlers.View]);
      the copy written to [localStorage] is the history the handler
      sets and is not kept apart.
    - A number added to a string becomes its decimal digits
      ([Calendar.numberToString]).
    - The exported file is modelled from its first character after the
      byte order mark U+FEFF, which is not a code unit below 256. *)

From Stdlib Require Import ZArith List String Ascii Bool Lia.
From Stdlib Require Import Sorted Permutation.
Import ListNotations.

Local Open Scope string_scope.
Local Open Scope list_scope.
Local Open Scope Z_scope.

Set Implicit Arguments.

(* ================================================================= *)
(** ** JavaScript strings *)

Module JsString.

Definition code (c : ascii) : Z := Z.of_N (N_of_ascii c).

Definition chr (z : Z) : ascii := ascii_of_N (Z.to_N z).

Definition inRange (lo hi : Z) (c : ascii) : bool :=
  (lo <=? code c) && (code c <=? hi).

(** [\d] *)
Definition isDigit (c : ascii) : bool := inRange 48 57 c.

Definition isUpperAZ (c : ascii) : bool := inRange 65 90 c.

Definition isLowerAZ (c : ascii) : bool := inRange 97 122 c.

(** [\w], which also decides [\b] *)
Definition isWord (c : ascii) : bool :=
  isDigit c || isUpperAZ c || isLowerAZ c || (code c =? 95).

(** [\s] on code units below 256: TAB, LF, VT, FF, CR, SP, NBSP *)
Definition isSpace (c : ascii) : bool :=
  inRange 9 13 c || (code c =? 32) || (code c =? 160).

(** The class [[a-z0-9]] of the signature functions. *)
Definition isLowerAlnum (c : ascii) : bool := isLowerAZ c || isDigit c.

(** [[A-Za-z0-9]] *)
Definition isAlnum (c : ascii) : bool :=
  isUpperAZ c || isLowerAZ c || isDigit c.

(** [String.prototype.toLowerCase] on one code unit below 256: the
    letters A-Z, and U+00C0..U+00DE but the multiplication sign
    U+00D7, move up by 32; every other code unit is its own lower
    case. *)
Definition toLowerChar (c : ascii) : ascii :=
  if isUpperAZ c then chr (code c + 32)
  else if inRange 192 222 c && negb (code c =? 215) then chr (code c + 32)
  else c.

Fixpoint smap (f : ascii -> ascii) (s : string) : string :=
  match s with
  | EmptyString => EmptyString
  | String c s' => String (f c) (smap f s')
  end.

Fixpoint sfilter (p : ascii -> bool) (s : string) : string :=
  match s with
  | EmptyString => EmptyString
  | String c s' => if p c then String c (sfilter p s') else sfilter p s'
  end.

Definition toLowerCase (s : string) : string := smap toLowerChar s.

(** [s.replace(/[^a-z0-9]/g, "")] *)
Definition stripNonAlnum (s : string) : string := sfilter isLowerAlnum s.

(** [s.startsWith(p)] as a prefix test. *)
Fixpoint startsWith (p s : string) : bool :=
  match p, s with
  | EmptyString, _ => true
  | String _ _, EmptyString => false
  | String a p', String b s' => Ascii.eqb a b && startsWith p' s'
  end.

(** [s.includes(p)] *)
Fixpoint includes (s p : string) : bool :=
  startsWith p s ||
  match s with
  | EmptyString => false
  | String _ s' => includes s' p
  end.

(** [parseInt] on a run of decimal digits: [acc] is the value read so
    far. *)
Fixpoint digitsValue (acc : Z) (s : string) : Z :=
  match s with
  | EmptyString => acc
  | String c s' => digitsValue (10 * acc + (code c - 48)) s'
  end.

Definition parseInt (s : string) : Z := digitsValue 0 s.

End JsString.

Import JsString.

(** Two texts that differ only in letter case and in characters other
    than letters and digits: such characters may be dropped on either
    side, and two characters with the same lower case are exchangeable. *)
Inductive sameUpToCaseAndPunct : string -> string -> Prop :=
| sucp_nil : sameUpToCaseAndPunct "" ""
| sucp_drop_l c s t :
    isAlnum c = false ->
    sameUpToCaseAndPunct s t -> sameUpToCaseAndPunct (String c s) t
| sucp_drop_r c s t :
    isAlnum c = false ->
    sameUpToCaseAndPunct s t -> sameUpToCaseAndPunct s (String c t)
| sucp_char c d s t :
    toLowerChar c = toLowerChar d ->
    sameUpToCaseAndPunct s t ->
    sameUpToCaseAndPunct (String c s) (String d t).

(* ================================================================= *)
(** ** Records with a signature and a user-state flag *)

(** The interface the two record types share: [EventItem] with
    [getEventSignature] and [addedToCalendar], [NewsItem] with
    [getNewsSignature] and [read].  The flag is an optional boolean
    property ([None] is JavaScript's [undefined]); [setFlag b x] is the
    object spread [{ ...x, flag: b }]. *)
Class Flagged (Item : Type) := {
  signature : Item -> string;
  flagOf : Item -> option bool;
  setFlag : option bool -> Item -> Item;
  signature_setFlag : forall b x, signature (setFlag b x) = signature x;
  flagOf_setFlag : forall b x, flagOf (setFlag b x) = b;
  setFlag_setFlag : forall b b' x, setFlag b (setFlag b' x) = setFlag b x;
  setFlag_flagOf : forall x, setFlag (flagOf x) x = x
}.

(** Truthiness of an optional boolean. *)
Definition truthy (b : option bool) : bool :=
  match b with Some true => true | _ => false end.

(** JavaScript's [a || b] on optional booleans. *)
Definition jsOr (a b : option bool) : option bool :=
  if truthy a then a else b.

(** A scan session; its record list is the field [events] of the event
    clock and [items] of the radar. *)
Record Session (Item : Type) := mkSession {
  id : Z;
  dateStr : string;
  records : list Item
}.

Arguments mkSession {Item} _ _ _.
Arguments id {Item} _.
Arguments dateStr {Item} _.
Arguments records {Item} _.

(* ================================================================= *)
(** ** Maps in insertion order and stable sorting *)

Section InsertionOrderedMap.
Variable V : Type.

(** [Map<string, V>] *)
Definition UMap := list (string * V).

(** [m.get(k)] *)
Fixpoint mapGet (k : string) (m : UMap) : option V :=
  match m with
  | [] => None
  | (k', v) :: m' => if String.eqb k k' then Some v else mapGet k m'
  end.

(** [m.has(k)] *)
Definition mapHas (k : string) (m : UMap) : bool :=
  match mapGet k m with Some _ => true | None => false end.

(** [m.set(k, v)]: a present key keeps its place, a new key goes to
    the end. *)
Fixpoint mapSet (k : string) (v : V) (m : UMap) : UMap :=
  match m with
  | [] => [(k, v)]
  | (k', v') :: m' =>
      if String.eqb k k' then (k, v) :: m' else (k', v') :: mapSet k v m'
  end.

(** [Array.from(m.values())] *)
Definition mapValues (m : UMap) : list V := map snd m.

Definition mapKeys (m : UMap) : list string := map fst m.
End InsertionOrderedMap.

Section StableSort.
Variable A : Type.
(** A comparator in the JavaScript convention: negative when its
    first argument goes first. *)
Variable cmp : A -> A -> Z.

(** [x] passes the elements that go strictly before it and stops at
    the first that does not, so equal elements keep their order. *)
Fixpoint insertSorted (x : A) (l : list A) : list A :=
  match l with
  | [] => [x]
  | y :: l' => if cmp y x <? 0 then y :: insertSorted x l' else x :: l
  end.

(** [[...l].sort(cmp)] *)
Fixpoint sortBy (l : list A) : list A :=
  match l with
  | [] => []
  | x :: l' => insertSorted x (sortBy l')
  end.
End StableSort.


(* ================================================================= *)
(** ** The two merges and the targeted flag update, over any record type *)

Section Merge.
Context {Item : Type} `{Flagged Item}.

(** The records of a history, session after session. *)
Definition allRecords (h : list (Session Item)) : list Item :=
  flat_map records h.

(** [[...history].sort((a, b) => a.id - b.id)] *)
Definition oldestFirst (h : list (Session Item)) : list (Session Item) :=
  sortBy (fun a b => id a - id b) h.

(** [[...history].sort((a, b) => b.id - a.id)] *)
Definition newestFirst (h : list (Session Item)) : list (Session Item) :=
  sortBy (fun a b => id b - id a) h.

(** The body of the inner [forEach] of [masterEvents]: a record seen
    again replaces the stored one and inherits a truthy flag. *)
Definition mergeOverwrite (m : UMap Item) (evt : Item) : UMap Item :=
  let sig := signature evt in
  match mapGet sig m with
  | Some existing =>
      mapSet sig (setFlag (jsOr (flagOf existing) (flagOf evt)) evt) m
  | None => mapSet sig evt m
  end.

(** The body of the inner [forEach] of [masterItems]: the stored
    record stays, and turns read when an older copy was. *)
Definition mergeKeepFirst (m : UMap Item) (item : Item) : UMap Item :=
  let sig := signature item in
  if negb (mapHas sig m) then mapSet sig item m
  else
    match mapGet sig m with
    | Some existing =>
        if truthy (flagOf item) && negb (truthy (flagOf existing))
        then mapSet sig (setFlag (Some true) existing) m
        else m
    | None => m
    end.

(** The two nested [forEach] loops, from the empty map. *)
Definition foldSessions (step : UMap Item -> Item -> UMap Item)
    (h : list (Session Item)) : UMap Item :=
  fold_left (fun m s => fold_left step (records s) m) h [].

(** [uniqueMap] of [masterEvents] after the loops. *)
Definition uniqueMapOverwrite (h : list (Session Item)) : UMap Item :=
  foldSessions mergeOverwrite (oldestFirst h).

(** [uniqueMap] of [masterItems] after the loops. *)
Definition uniqueMapKeepFirst (h : list (Session Item)) : UMap Item :=
  foldSessions mergeKeepFirst (newestFirst h).

(** [session.records.some(e => signature(e) === sig)] *)
Definition hasMatch (sig : string) (s : Session Item) : bool :=
  existsb (fun e => String.eqb (signature e) sig) (records s).

(** [updateEventGlobal] and [updateItemGlobal]: the history that is
    stored ([setHistory] and [localStorage.setItem]). *)
Definition updateGlobal (h : list (Session Item)) (item : Item)
    (value : bool) : list (Session Item) :=
  let sig := signature item in
  map (fun session =>
         if negb (hasMatch sig session) then session
         else
           let newRecords :=
             map (fun e => if String.eqb (signature e) sig
                           then setFlag (Some value) e else e)
                 (records session) in
           mkSession (id session) (dateStr session) newRecords)
      h.

(** Equal in every field but the flag. *)
Definition sameContent (a b : Item) : Prop := setFlag None a = setFlag None b.

(** The logical OR of the flag over the records of signature [sig]. *)
Definition flagAnywhere (sig : string) (h : list (Session Item)) : bool :=
  existsb (fun r => String.eqb (signature r) sig && truthy (flagOf r))
          (allRecords h).

(** Some record of the history has signature [sig]. *)
Definition occursIn (sig : string) (h : list (Session Item)) : Prop :=
  exists r, In r (allRecords h) /\ signature r = sig.

(** The record has signature [g]. *)
Definition hasSig (g : string) (r : Item) : bool :=
  String.eqb (signature r) g.

(** The record's flag is true. *)
Definition flagSet (r : Item) : bool := truthy (flagOf r).

(** No session of the list that holds a record of signature [g] is
    newer than [s]. *)
Definition newestHolding (g : string) (S : list (Session Item))
    (s : Session Item) : Prop :=
  forall s' r', In s' S -> In r' (records s') -> hasSig g r' = true ->
                id s' <= id s.

(** What the consolidated view is to hold under signature [g]: the copy
    of a newest session that holds the signature, up to the flag, and
    as flag the OR of the flags of all copies. *)
Definition mergedEntry (g : string) (h : list (Session Item)) (e : Item)
    : Prop :=
  signature e = g
  /\ flagSet e = flagAnywhere g h
  /\ exists s r, In s h /\ In r (records s) /\ signature r = g
                 /\ sameContent e r /\ newestHolding g h s.
End Merge.

(* ================================================================= *)
(** ** JavaScript dates *)

Module JsDate.

Definition msPerSecond : Z := 1000.
Definition msPerMinute : Z := 60000.
Definition msPerHour : Z := 3600000.
Definition msPerDay : Z := 86400000.

(** ECMAScript's [Day(t)] and [TimeWithinDay(t)]. *)
Definition Day (t : Z) : Z := t / msPerDay.
Definition TimeWithinDay (t : Z) : Z := t mod msPerDay.

(** [DayFromYear(y)]: the day number of the first of January. *)
Definition DayFromYear (y : Z) : Z :=
  365 * (y - 1970) + (y - 1969) / 4 - (y - 1901) / 100 + (y - 1601) / 400.

Definition InLeapYear (y : Z) : bool :=
  ((y mod 4 =? 0) && negb (y mod 100 =? 0)) || (y mod 400 =? 0).

Definition leapDay (y : Z) : Z := if InLeapYear y then 1 else 0.

(** The year of a day number, by cycles of 400 years (146097 days)
    from the first of January 1601, centuries of 36524 days, groups
    of four years (1461 days) and years of 365 days; the leap day
    closes its group, century and cycle.  [YearFromDay_spec] below
    shows it is ECMAScript's [YearFromTime]: the largest year whose
    first day is not after the day. *)
Definition YearFromDay (d : Z) : Z :=
  let r := d + 134774 in
  let cycle := r / 146097 in
  let doc := r mod 146097 in
  let century := Z.min (doc / 36524) 3 in
  let dcen := doc - century * 36524 in
  let group := dcen / 1461 in
  let dgrp := dcen mod 1461 in
  let yr := Z.min (dgrp / 365) 3 in
  1601 + 400 * cycle + 100 * century + 4 * group + yr.

Definition DayWithinYear (d : Z) : Z := d - DayFromYear (YearFromDay d).

(** The day within the year on which month [m] (0 to 11) starts, with
    [l] the leap day of the year: ECMAScript's month table. *)
Definition monthStart (m l : Z) : Z :=
  if m =? 0 then 0
  else if m =? 1 then 31
  else if m =? 2 then 59 + l
  else if m =? 3 then 90 + l
  else if m =? 4 then 120 + l
  else if m =? 5 then 151 + l
  else if m =? 6 then 181 + l
  else if m =? 7 then 212 + l
  else if m =? 8 then 243 + l
  else if m =? 9 then 273 + l
  else if m =? 10 then 304 + l
  else 334 + l.

(** The number of days of month [m] (0 to 11) in a year with leap day [l]. *)
Definition monthLength (m l : Z) : Z :=
  if m =? 1 then 28 + l
  else if (m =? 3) || (m =? 5) || (m =? 8) || (m =? 10) then 30
  else 31.

(** [MonthFromTime] *)
Definition MonthFromDay (d : Z) : Z :=
  let l := leapDay (YearFromDay d) in
  let n := DayWithinYear d in
  if n <? 31 then 0
  else if n <? 59 + l then 1
  else if n <? 90 + l then 2
  else if n <? 120 + l then 3
  else if n <? 151 + l then 4
  else if n <? 181 + l then 5
  else if n <? 212 + l then 6
  else if n <? 243 + l then 7
  else if n <? 273 + l then 8
  else if n <? 304 + l then 9
  else if n <? 334 + l then 10
  else 11.

(** [DateFromTime] *)
Definition DateFromDay (d : Z) : Z :=
  DayWithinYear d
  - monthStart (MonthFromDay d) (leapDay (YearFromDay d)) + 1.

(** [MakeTime], [MakeDay], [MakeDate] *)
Definition MakeTime (hour min sec ms : Z) : Z :=
  hour * msPerHour + min * msPerMinute + sec * msPerSecond + ms.

Definition MakeDay (year month date : Z) : Z :=
  let ym := year + month / 12 in
  let mn := month mod 12 in
  DayFromYear ym + monthStart mn (leapDay ym) + date - 1.

Definition MakeDate (day time : Z) : Z := day * msPerDay + time.

(** [new Date(year, month, date, hours, minutes, seconds)]; a year
    from 0 to 99 stands for 1900 + year. *)
Definition newDate (year month date hours minutes seconds : Z) : Z :=
  let yr := if (0 <=? year) && (year <=? 99) then 1900 + year else year in
  MakeDate (MakeDay yr month date) (MakeTime hours minutes seconds 0).

Definition getFullYear (t : Z) : Z := YearFromDay (Day t).
Definition getMonth (t : Z) : Z := MonthFromDay (Day t).
Definition getDate (t : Z) : Z := DateFromDay (Day t).
Definition getHours (t : Z) : Z := (t / msPerHour) mod 24.
Definition getMinutes (t : Z) : Z := (t / msPerMinute) mod 60.
Definition getSeconds (t : Z) : Z := (t / msPerSecond) mod 60.
Definition getMilliseconds (t : Z) : Z := t mod msPerSecond.

(** [d.setHours(hour, min, sec, ms)]; with three arguments [ms] is
    [getMilliseconds d]. *)
Definition setHours (t hour min sec ms : Z) : Z :=
  MakeDate (Day t) (MakeTime hour min sec ms).

(** [d.setDate(date)] *)
Definition setDate (t date : Z) : Z :=
  MakeDate (MakeDay (getFullYear t) (getMonth t) date) (TimeWithinDay t).

End JsDate.

Import JsDate.

(* ================================================================= *)
(** ** The event clock ([src/index.tsx]) *)

Module EventClock.

(** [interface EventItem] *)
Record EventItem := mkEvent {
  title : string;
  date : string;
  location : string;
  price : string;
  description : string;
  url : string;
  tags : list string;
  addedToCalendar : option bool
}.

(** [{ ...e, addedToCalendar: b }] *)
Definition withAdded (b : option bool) (e : EventItem) : EventItem :=
  mkEvent (title e) (date e) (location e) (price e) (description e)
          (url e) (tags e) b.

(** Equal in every field but [addedToCalendar]. *)
Definition sameButFlag (a b : EventItem) : Prop :=
  title a = title b /\ date a = date b /\ location a = location b /\
  price a = price b /\ description a = description b /\
  url a = url b /\ tags a = tags b.

(** [getEventSignature] *)
Definition getEventSignature (event : EventItem) : string :=
  let cleanTitle := stripNonAlnum (toLowerCase (title event)) in
  let cleanDate := stripNonAlnum (toLowerCase (date event)) in
  (cleanTitle ++ "_" ++ cleanDate)%string.

#[global] Instance EventItem_Flagged : Flagged EventItem.
Proof.
  refine {| signature := getEventSignature;
            flagOf := addedToCalendar;
            setFlag := withAdded |}.
  - intros b x; reflexivity.
  - intros b x; reflexivity.
  - intros b b' x; reflexivity.
  - intros [t d l p ds u tg a]; reflexivity.
Defined.

(** [interface ScanSession], with [events] for the record list. *)
Definition ScanSession := Session EventItem.
Definition events (s : ScanSession) : list EventItem := records s.

(* --------------------------------------------------------------- *)
(** *** [parseEventDateInfo] *)

Definition e_acute : ascii := chr 233.
Definition u_circumflex : ascii := chr 251.

(** The table [months], in the order [Object.entries] lists it. *)
Definition months : list (string * Z) :=
  [ ("jan", 0);
    (String "f" (String e_acute "v"), 1);
    ("fev", 1); ("mar", 2); ("avr", 3); ("mai", 4); ("juin", 5);
    ("juil", 6);
    (String "a" (String "o" (String u_circumflex "")), 7);
    ("aout", 7); ("sep", 8); ("oct", 9); ("nov", 10);
    (String "d" (String e_acute "c"), 11);
    ("dec", 11) ].

(** The loop over the table: the first entry whose name the text
    includes, [None] when none does. *)
Fixpoint detectMonth (table : list (string * Z)) (cleanStr : string)
    : option Z :=
  match table with
  | [] => None
  | (mName, mIdx) :: rest =>
      if includes cleanStr mName then Some mIdx
      else detectMonth rest cleanStr
  end.

Fixpoint skipSpaces (s : string) : string :=
  match s with
  | String c s' => if isSpace c then skipSpaces s' else s
  | EmptyString => s
  end.

(** At most [n] leading digits: the digits and what follows them. *)
Fixpoint takeDigits (n : nat) (s : string) : string * string :=
  match n, s with
  | S n', String c s' =>
      if isDigit c
      then let (ds, rest) := takeDigits n' s' in (String c ds, rest)
      else (EmptyString, s)
  | _, _ => (EmptyString, s)
  end.

(** [(?:h|:)] under the flag [i]. *)
Definition isTimeSep (c : ascii) : bool :=
  Ascii.eqb c "h" || Ascii.eqb c "H" || Ascii.eqb c ":".

(** [\s*(?:h|:)\s*(\d{0,2})] at the head of [s]: the minute digits
    and the rest.  Each star is greedy and never has to give back: a
    white space is not a separator, and the last group may be empty. *)
Definition timeTail (s : string) : option (string * string) :=
  match skipSpaces s with
  | String c s' =>
      if isTimeSep c then Some (takeDigits 2 (skipSpaces s')) else None
  | EmptyString => None
  end.

(** [/(\d{1,2})\s*(?:h|:)\s*(\d{0,2})/] at the head of [s]: the two
    groups and the rest; two hour digits are tried before one. *)
Definition timeAt (s : string) : option (string * string * string) :=
  let try (n : nat) :=
    match takeDigits n s with
    | (EmptyString, _) => None
    | (hh, rest) =>
        match timeTail rest with
        | Some (mm, rest') => Some (hh, mm, rest')
        | None => None
        end
    end in
  match try 2%nat with
  | Some r => Some r
  | None => try 1%nat
  end.

(** The global scans below walk the text once; after a match at a
    position the characters of the match are passed over, [skip]
    counting how many are left to pass. *)
Definition matchLength (s rest : string) : nat :=
  (String.length s - String.length rest)%nat.

(** [[...cleanStr.matchAll(timeRegex)]], each match as its two groups. *)
Fixpoint timeMatchesFrom (skip : nat) (s : string)
    : list (string * string) :=
  match s with
  | EmptyString => []
  | String _ s' =>
      match skip with
      | S k => timeMatchesFrom k s'
      | O =>
          match timeAt s with
          | Some (hh, mm, rest) =>
              (hh, mm) :: timeMatchesFrom (matchLength s rest - 1) s'
          | None => timeMatchesFrom 0 s'
          end
      end
  end.

Definition timeMatches (cleanStr : string) : list (string * string) :=
  timeMatchesFrom 0 cleanStr.

(** [cleanStr.replace(timeRegex, "TIME")] *)
Fixpoint maskTimesFrom (skip : nat) (s : string) : string :=
  match s with
  | EmptyString => EmptyString
  | String c s' =>
      match skip with
      | S k => maskTimesFrom k s'
      | O =>
          match timeAt s with
          | Some (_, _, rest) =>
              ("TIME" ++ maskTimesFrom (matchLength s rest - 1) s')%string
          | None => String c (maskTimesFrom 0 s')
          end
      end
  end.

Definition maskTimes (cleanStr : string) : string :=
  maskTimesFrom 0 cleanStr.

(** [\b] between a character that is a word character or not
    ([prevWord]; false at the start) and the head of [s]. *)
Definition wordBoundary (prevWord : bool) (s : string) : bool :=
  xorb prevWord
       match s with String c _ => isWord c | EmptyString => false end.

(** [([1-3][0-9]|[1-9])\b] at the head of [s]: the matched digits. *)
Definition dayAt (s : string) : option string :=
  let two :=
    match s with
    | String a (String b rest) =>
        if inRange 49 51 a && isDigit b && wordBoundary (isWord b) rest
        then Some (String a (String b EmptyString)) else None
    | _ => None
    end in
  match two with
  | Some d => Some d
  | None =>
      match s with
      | String a rest =>
          if inRange 49 57 a && wordBoundary (isWord a) rest
          then Some (String a EmptyString) else None
      | EmptyString => None
      end
  end.

(** [s.match(/\b([1-3][0-9]|[1-9])\b/)]: the first match. *)
Fixpoint dayMatchFrom (prevWord : bool) (s : string) : option string :=
  match (if wordBoundary prevWord s then dayAt s else None) with
  | Some d => Some d
  | None =>
      match s with
      | String c s' => dayMatchFrom (isWord c) s'
      | EmptyString => None
      end
  end.

Definition dayMatches (strWithoutTimes : string) : option string :=
  dayMatchFrom false strWithoutTimes.

(** The local variables of [parseEventDateInfo] before the two dates
    are built; [endHour] is [-1] when no second time was found. *)
Record Fields := mkFields {
  day : Z;
  month : Z;
  year : Z;
  startHour : Z;
  startMin : Z;
  endHour : Z;
  endMin : Z
}.

(** [minStr ? parseInt(minStr) : 0] *)
Definition minutesOf (minStr : string) : Z :=
  match minStr with
  | EmptyString => 0
  | _ => parseInt minStr
  end.

Definition parseFields (now : Z) (dateStr : string) : Fields :=
  let currentYear := getFullYear now in
  let cleanStr := toLowerCase dateStr in
  let month :=
    match detectMonth months cleanStr with
    | Some mIdx => mIdx
    | None => getMonth now
    end in
  let strWithoutTimes := maskTimes cleanStr in
  let day :=
    match dayMatches strWithoutTimes with
    | Some d => parseInt d
    | None => getDate now + 1
    end in
  let year :=
    if month <? getMonth now then currentYear + 1 else currentYear in
  match timeMatches cleanStr with
  | [] => mkFields day month year 9 0 (-1) 0
  | (h0, m0) :: [] =>
      mkFields day month year (parseInt h0) (minutesOf m0) (-1) 0
  | (h0, m0) :: (h1, m1) :: _ =>
      mkFields day month year (parseInt h0) (minutesOf m0)
               (parseInt h1) (minutesOf m1)
  end.

(** The result [{ start, end }]. *)
Record DateInfo := mkDateInfo { start : Z; end_ : Z }.

(** The end date before the overnight test: midnight of the day,
    then [setHours(endHour, endMin, 0)]. *)
Definition endSameDay (f : Fields) : Z :=
  let endDate := newDate (year f) (month f) (day f) 0 0 0 in
  setHours endDate (endHour f) (endMin f) 0 (getMilliseconds endDate).

Definition buildDates (f : Fields) : DateInfo :=
  let startDate :=
    newDate (year f) (month f) (day f) (startHour f) (startMin f) 0 in
  let endDate := newDate (year f) (month f) (day f) 0 0 0 in
  if negb (endHour f =? -1) then
    let endDate := endSameDay f in
    if endDate <? startDate
    then mkDateInfo startDate (setDate endDate (getDate endDate + 1))
    else mkDateInfo startDate endDate
  else
    mkDateInfo startDate
      (setHours endDate (getHours startDate + 2) (getMinutes startDate) 0
                (getMilliseconds endDate)).

Definition parseEventDateInfo (now : Z) (dateStr : string) : DateInfo :=
  buildDates (parseFields now dateStr).

(* --------------------------------------------------------------- *)
(** *** [masterEvents] and [updateEventGlobal] *)

(** The comparator of [allEvents.sort]. *)
Definition byStart (now : Z) (a b : EventItem) : Z :=
  start (parseEventDateInfo now (date a))
  - start (parseEventDateInfo now (date b)).

(** [now.setHours(0,0,0,0); now.setDate(now.getDate() - 1)] *)
Definition yesterdayMidnight (now : Z) : Z :=
  let t := setHours now 0 0 0 0 in
  setDate t (getDate t - 1).

Definition masterEvents (now : Z) (hidePastEvents : bool)
    (history : list ScanSession) : list EventItem :=
  let uniqueMap := uniqueMapOverwrite history in
  let allEvents := sortBy (byStart now) (mapValues uniqueMap) in
  if hidePastEvents then
    filter (fun e =>
              yesterdayMidnight now <=? start (parseEventDateInfo now (date e)))
           allEvents
  else allEvents.

Definition updateEventGlobal (history : list ScanSession)
    (event : EventItem) (added : bool) : list ScanSession :=
  updateGlobal history event added.

End EventClock.

(* ================================================================= *)
(** ** The strategic radar ([src/unnamed/part_000]) *)

Module Radar.

Inductive CriticalityLevel := HIGH | MEDIUM | LOW.
Inductive CategoryType := FRANCE_ADMIN | WORLD_MACRO | TECH_INNOVATION.

(** [interface NewsItem] *)
Record NewsItem := mkNews {
  headline : string;
  date : string;
  category : CategoryType;
  criticality : CriticalityLevel;
  impact_analysis : string;
  suggested_action : string;
  source : string;
  url : string;
  read : option bool
}.

(** [{ ...item, read: b }] *)
Definition withRead (b : option bool) (i : NewsItem) : NewsItem :=
  mkNews (headline i) (date i) (category i) (criticality i)
         (impact_analysis i) (suggested_action i) (source i) (url i) b.

(** Equal in every field but [read]. *)
Definition sameButFlag (a b : NewsItem) : Prop :=
  headline a = headline b /\ date a = date b /\
  category a = category b /\ criticality a = criticality b /\
  impact_analysis a = impact_analysis b /\
  suggested_action a = suggested_action b /\
  source a = source b /\ url a = url b.

(** [getNewsSignature] *)
Definition getNewsSignature (item : NewsItem) : string :=
  stripNonAlnum (toLowerCase (headline item)).

#[global] Instance NewsItem_Flagged : Flagged NewsItem.
Proof.
  refine {| signature := getNewsSignature;
            flagOf := read;
            setFlag := withRead |}.
  - intros b x; reflexivity.
  - intros b x; reflexivity.
  - intros b b' x; reflexivity.
  - intros [h d c k i a s u r]; reflexivity.
Defined.

(** [interface ScanSession], with [items] for the record list. *)
Definition ScanSession := Session NewsItem.
Definition items (s : ScanSession) : list NewsItem := records s.

Definition isHigh (i : NewsItem) : bool :=
  match criticality i with HIGH => true | _ => false end.

Definition masterItems (onlyHighPriority : bool)
    (history : list ScanSession) : list NewsItem :=
  let uniqueMap := uniqueMapKeepFirst history in
  let allItems := mapValues uniqueMap in
  if onlyHighPriority then filter isHigh allItems else allItems.

Definition updateItemGlobal (history : list ScanSession)
    (item : NewsItem) (read : bool) : list ScanSession :=
  updateGlobal history item read.

End Radar.

(* ================================================================= *)
(** ** One scan ([scanEvents], [scanRadar]) *)

Module Scan.

Local Unset Elimination Schemes.

(** A value [JSON.parse] returns; a number is kept as its literal. *)
Inductive json :=
| JNull
| JBool (b : bool)
| JNumber (literal : string)
| JString (s : string)
| JArray (elements : list json)
| JObject (members : list (string * json)).

Local Set Elimination Schemes.

(** A session as it is stored: [events] (or [items]) is whatever the
    parse returned. *)
Record StoredSession := mkStored {
  sid : Z;
  sdateStr : string;
  srecords : json
}.

(** What [catch (err)] receives. *)
Inductive ScanError :=
| GeneratorError (message : string)
| SyntaxError
| TypeError
| InvalidFormat
| NothingFound.

(** The state the scan writes: the list on screen ([setEvents],
    [setNewsItems]), the error ([setError]) and the history
    ([setHistory] with [localStorage.setItem]). *)
Record AppState := mkApp {
  current : json;
  error : option ScanError;
  history : list StoredSession
}.

(** What [await ai.models.generateContent(...)] does: throw, or
    return a response whose [text] may be undefined. *)
Inductive Generated :=
| Thrown (message : string)
| Response (text : option string).

Definition newline : ascii := chr 10.

(** The first occurrence of [p] in [s]: the text before it and the
    text after it. *)
Fixpoint splitAtFirst (p s : string) : option (string * string) :=
  if startsWith p s
  then Some (EmptyString, String.substring (String.length p)
                                           (String.length s) s)
  else
    match s with
    | EmptyString => None
    | String c s' =>
        match splitAtFirst p s' with
        | Some (before, after) => Some (String c before, after)
        | None => None
        end
    end.

(** [text.match(/open([\s\S]*?)close/)]: group 1 of the leftmost
    match, the shortest text between the first [open] and the first
    [close] after it. *)
Definition between (open close text : string) : option string :=
  match splitAtFirst open text with
  | Some (_, after) =>
      match splitAtFirst close after with
      | Some (inner, _) => Some inner
      | None => None
      end
  | None => None
  end.

Definition fence : string := "```".

(** [jsonMatch]: the block fenced with the tag [json] on lines of
    their own, else any fenced block. *)
Definition jsonMatch (textResponse : string) : option string :=
  match between (fence ++ "json" ++ String newline "")%string
                (String newline fence) textResponse with
  | Some inner => Some inner
  | None => between fence fence textResponse
  end.

(** [s.indexOf(c)] and [s.lastIndexOf(c)] for one character. *)
Fixpoint indexOf (c : ascii) (s : string) : option nat :=
  match s with
  | EmptyString => None
  | String d s' =>
      if Ascii.eqb c d then Some O
      else match indexOf c s' with Some n => Some (S n) | None => None end
  end.

Fixpoint lastIndexOf (c : ascii) (s : string) : option nat :=
  match s with
  | EmptyString => None
  | String d s' =>
      match lastIndexOf c s' with
      | Some n => Some (S n)
      | None => if Ascii.eqb c d then Some O else None
      end
  end.

(** [s.substring(a, b)], which swaps its arguments when [a > b]. *)
Definition jsSubstring (a b : nat) (s : string) : string :=
  String.substring (Nat.min a b) (Nat.max a b - Nat.min a b) s.

Section WithPlatform.
(** [JSON.parse]: [None] when it throws. *)
Variable JSON_parse : string -> option json.
(** [o.length > 0] for an object [o] that [JSON.parse] built, which
    depends on the conversion of its member [length] to a number. *)
Variable objectLengthPositive : list (string * json) -> bool.

(** [parsed.length > 0]: reading a property of [null] throws, a
    boolean or a number has no [length]. *)
Definition lengthPositive (parsed : json) : ScanError + bool :=
  match parsed with
  | JNull => inl TypeError
  | JBool _ | JNumber _ => inr false
  | JString s => inr (Nat.ltb 0 (String.length s))
  | JArray l => inr (Nat.ltb 0 (List.length l))
  | JObject o => inr (objectLengthPositive o)
  end.

(** The first strategy: parse the fenced block, or the whole text
    when there is none. *)
Definition parseFenced (textResponse : string) : option json :=
  let jsonString :=
    match jsonMatch textResponse with
    | Some inner => inner
    | None => textResponse
    end in
  JSON_parse jsonString.

(** The second strategy, the [catch] of the first: parse from the
    first bracket to the last one. *)
Definition parseBrackets (textResponse : string) : ScanError + json :=
  match indexOf "[" textResponse, lastIndexOf "]" textResponse with
  | Some arrayStart, Some arrayEnd =>
      match JSON_parse (jsSubstring arrayStart (arrayEnd + 1)
                                    textResponse) with
      | Some v => inr v
      | None => inl SyntaxError
      end
  | _, _ => inl InvalidFormat
  end.

Definition parseResponse (textResponse : string) : ScanError + json :=
  match parseFenced textResponse with
  | Some v => inr v
  | None => parseBrackets textResponse
  end.

(** [saveScanToHistory]; [now] is [now.getTime()] and [label] the
    text [now.toLocaleString(...)]. *)
Definition saveScanToHistory (now : Z) (label : string) (parsed : json)
    (h : list StoredSession) : list StoredSession :=
  mkStored now label parsed :: h.

(** The [try] block after the call, on the state that
    [setEvents([])] and [setError(null)] left. *)
Definition afterResponse (now : Z) (label : string)
    (textResponse : string) (st : AppState) : AppState :=
  let failed (e : ScanError) :=
    mkApp (current st) (Some e) (history st) in
  match parseResponse textResponse with
  | inl e => failed e
  | inr parsed =>
      match lengthPositive parsed with
      | inl e => failed e
      | inr true =>
          mkApp parsed (error st)
                (saveScanToHistory now label parsed (history st))
      | inr false => failed NothingFound
      end
  end.

(** [scanEvents] and [scanRadar]. *)
Definition scan (now : Z) (label : string) (g : Generated)
    (st : AppState) : AppState :=
  let st0 := mkApp (JArray []) None (history st) in
  match g with
  | Thrown message => mkApp (current st0) (Some (GeneratorError message))
                            (history st0)
  | Response text =>
      let textResponse :=
        match text with
        | Some t => t
        | None => ""
        end in
      afterResponse now label textResponse st0
  end.

(** The two applications run the same scan. *)
Definition scanEvents := scan.
Definition scanRadar := scan.

(** The claim's side: a parse result that is a non-empty array. *)
Definition isNonEmptyArray (v : json) : bool :=
  match v with
  | JArray (_ :: _) => true
  | _ => false
  end.

(** A text that either strategy turns into a non-empty array. *)
Definition coercible (textResponse : string) : bool :=
  match parseFenced textResponse with
  | Some v => isNonEmptyArray v
  | None => false
  end
  ||
  match parseBrackets textResponse with
  | inr v => isNonEmptyArray v
  | inl _ => false
  end.

(** The generator failed, or its text is not coercible. *)
Definition scanShouldFail (g : Generated) : bool :=
  match g with
  | Thrown _ => true
  | Response (Some t) => negb (coercible t)
  | Response None => negb (coercible "")
  end.
End WithPlatform.

End Scan.

(* ================================================================= *)
(** ** The session list and its handlers, over any record type *)

Module Handlers.

Section HistoryHandlers.
Context {Item : Type} `{Flagged Item}.

(** An element of the list on screen ([events], [newsItems]): a record,
    an object that has only the flag (what [{ ...undefined, flag }]
    builds), or nothing. *)
Inductive Slot :=
| Filled (e : Item)
| FlagOnly (flag : option bool)
| Missing.

(** [{ ...slot, flag: added }] *)
Definition spreadFlag (added : bool) (slot : Slot) : Slot :=
  match slot with
  | Filled e => Filled (setFlag (Some added) e)
  | FlagOnly _ | Missing => FlagOnly (Some added)
  end.

(** [updated[index] = f(updated[index])] on a copy of the array; a
    write past the end makes the array longer. *)
Fixpoint writeSlot (index : nat) (f : Slot -> Slot) (l : list Slot)
    : list Slot :=
  match index, l with
  | O, [] => [f Missing]
  | O, x :: l' => f x :: l'
  | S n, [] => Missing :: writeSlot n f []
  | S n, x :: l' => x :: writeSlot n f l'
  end.

(** [if (newEvents[index]) newEvents[index] = f(newEvents[index])] on a
    copy of a session's records. *)
Fixpoint writeIfPresent (index : nat) (f : Item -> Item) (l : list Item)
    : list Item :=
  match index, l with
  | O, x :: l' => f x :: l'
  | S n, x :: l' => x :: writeIfPresent n f l'
  | _, [] => []
  end.

(** The state the handlers read and write. *)
Record View := mkView {
  onScreen : list Slot;
  history : list (Session Item);
  selectedHistoryId : option Z
}.

(** [isCurrentScan && history.length > 0 ? history[0].id
                                          : selectedHistoryId] *)
Definition targetHistoryId (st : View) (isCurrentScan : bool) : option Z :=
  if isCurrentScan && Nat.ltb 0 (List.length (history st))
  then match history st with
       | s :: _ => Some (id s)
       | [] => None
       end
  else selectedHistoryId st.

(** [if (targetHistoryId)]: an identifier that is neither null nor 0. *)
Definition truthyId (target : option Z) : bool :=
  match target with
  | Some z => negb (z =? 0)
  | None => false
  end.

(** [session.id === targetHistoryId] *)
Definition isTarget (target : option Z) (session : Session Item) : bool :=
  match target with
  | Some z => id session =? z
  | None => false
  end.

(** [updateEventInHistory] and [updateItemInHistory] *)
Definition updateInHistory (st : View) (index : nat) (value : bool)
    (isCurrentScan : bool) : View :=
  let onScreen' :=
    if isCurrentScan then writeSlot index (spreadFlag value) (onScreen st)
    else onScreen st in
  let target := targetHistoryId st isCurrentScan in
  if truthyId target then
    let updatedHistory :=
      map (fun session =>
             if isTarget target session then
               mkSession (id session) (dateStr session)
                 (writeIfPresent index (setFlag (Some value))
                                 (records session))
             else session)
          (history st) in
    mkView onScreen' updatedHistory (selectedHistoryId st)
  else mkView onScreen' (history st) (selectedHistoryId st).

(** [deleteHistoryItem] *)
Definition deleteHistoryItem (st : View) (id0 : Z) : View :=
  let updatedHistory :=
    filter (fun item => negb (id item =? id0)) (history st) in
  let selected :=
    match selectedHistoryId st with
    | Some z =>
        if z =? id0
        then match updatedHistory with
             | s :: _ => Some (id s)
             | [] => None
             end
        else Some z
    | None => None
    end in
  mkView (onScreen st) updatedHistory selected.

(** [clearHistory]; [confirmed] is the answer to [window.confirm]. *)
Definition clearHistory (st : View) (confirmed : bool) : View :=
  if confirmed then mkView (onScreen st) [] None else st.

(** [saveScanToHistory]; [now] is [now.getTime()] and [label] the
    text [now.toLocaleString(...)]. *)
Definition saveScanToHistory (st : View) (now : Z) (label : string)
    (newRecords : list Item) : View :=
  mkView (onScreen st)
         (mkSession now label newRecords :: history st)
         (selectedHistoryId st).

(** The end of a successful scan: [setEvents(parsed)] and
    [saveScanToHistory(parsed)]. *)
Definition commitScan (st : View) (now : Z) (label : string)
    (parsed : list Item) : View :=
  saveScanToHistory (mkView (map Filled parsed) (history st)
                            (selectedHistoryId st))
                    now label parsed.

(** The effect that loads the history when the application starts:
    [savedHistory] is [None] when nothing is stored, [Some None] when
    the stored text does not parse, [Some (Some h)] when it parses to
    the sessions [h]. *)
Definition loadHistory (savedHistory : option (option (list (Session Item))))
    : View :=
  match savedHistory with
  | Some (Some parsed) =>
      mkView [] parsed
             (match parsed with
              | s :: _ => Some (id s)
              | [] => None
              end)
  | _ => mkView [] [] None
  end.

(** A click on a session of the list: [setSelectedHistoryId(session.id)]. *)
Definition selectSession (st : View) (session : Session Item) : View :=
  mkView (onScreen st) (history st) (Some (id session)).

(** [history.find(h => h.id === selectedHistoryId)]: the session the
    history tab shows. *)
Definition selectedSession (st : View) : option (Session Item) :=
  match selectedHistoryId st with
  | Some z => find (fun h => id h =? z) (history st)
  | None => None
  end.

(** The selection is null or the identifier of a stored session. *)
Definition selectionValid (st : View) : Prop :=
  match selectedHistoryId st with
  | Some z => exists s, In s (history st) /\ id s = z
  | None => True
  end.

(** What is on screen is the record list of the first stored session,
    and that session is the one a toggle from the scanner reaches. *)
Definition screenIsFirstSession (st : View) : Prop :=
  exists s rest,
    history st = s :: rest /\ id s <> 0
    /\ onScreen st = map Filled (records s).

End HistoryHandlers.

Arguments Slot Item : clear implicits.
Arguments View Item : clear implicits.

End Handlers.

(* ================================================================= *)
(** ** The calendar link ([openGoogleCalendar], [src/index.tsx]) *)

Module Calendar.

(** The decimal digits of [n], the last one first, put in front of
    [acc]; [fuel] bounds their number. *)
Fixpoint digitsOf (fuel : nat) (n : Z) (acc : string) : string :=
  match fuel with
  | O => acc
  | S k =>
      let acc' := String (chr (48 + n mod 10)) acc in
      if n <? 10 then acc' else digitsOf k (n / 10) acc'
  end.

(** The string a number becomes when it is added to a string, for an
    integer of at most 21 digits (a longer one is written with an
    exponent). *)
Definition numberToString (n : Z) : string :=
  if n <? 0 then String "-" (digitsOf 21 (- n) "") else digitsOf 21 n "".

(** [pad]: ['0' + n] below 10, else [n], which the concatenation
    that follows turns into its string. *)
Definition pad (n : Z) : string :=
  if n <? 10 then String "0" (numberToString n) else numberToString n.

(** [formatLocal] *)
Definition formatLocal (d : Z) : string :=
  ("" ++ numberToString (getFullYear d)
      ++ pad (getMonth d + 1)
      ++ pad (getDate d) ++ "T"
      ++ pad (getHours d)
      ++ pad (getMinutes d) ++ "00")%string.

(** [datesParam] *)
Definition datesParam (now : Z) (event : EventClock.EventItem) : string :=
  let d := EventClock.parseEventDateInfo now (EventClock.date event) in
  (formatLocal (EventClock.start d) ++ "/"
     ++ formatLocal (EventClock.end_ d))%string.

(** The object given to [URLSearchParams], in the order of its keys. *)
Definition calendarParams (now : Z) (event : EventClock.EventItem)
    : list (string * string) :=
  let blank := String Scan.newline (String Scan.newline "") in
  [ ("action", "TEMPLATE");
    ("text", "[Event Clock] " ++ EventClock.title event);
    ("details",
     EventClock.description event ++ blank ++ "Lien original: "
       ++ EventClock.url event ++ blank ++ "Prix: "
       ++ EventClock.price event);
    ("location", EventClock.location event);
    ("dates", datesParam now event);
    ("ctz", "Europe/Paris") ]%string.

End Calendar.

(* ================================================================= *)
(** ** The export to a file ([downloadCSV], both sources) *)

Module Csv.

Definition quote : ascii := chr 34.

(** [str.replace] of every double quote by two of them. *)
Fixpoint doubleQuotes (str : string) : string :=
  match str with
  | EmptyString => EmptyString
  | String c rest =>
      if Ascii.eqb c quote
      then String quote (String quote (doubleQuotes rest))
      else String c (doubleQuotes rest)
  end.

(** [escape]: the text between two double quotes, its own double
    quotes doubled; the default for a missing text is the empty text,
    which is what an empty text is already. *)
Definition escape (str : string) : string :=
  String quote (doubleQuotes str ++ String quote "").

(** [l.join(sep)] *)
Fixpoint join (sep : string) (l : list string) : string :=
  match l with
  | [] => EmptyString
  | [x] => x
  | x :: rest => (x ++ sep ++ join sep rest)%string
  end.

Definition separator : string := ";".

Definition lineBreak : string := String Scan.newline "".

(** [[headers.join(separator), ...rows].join(lineBreak)]: the
    content of the file after the byte order mark U+FEFF that the code
    puts in front of it. *)
Definition csvContent (headers rows : list string) : string :=
  join lineBreak (join separator headers :: rows).

(** The event clock: the headers, the fields of a row and the row. *)
Definition eventHeaders : list string :=
  [ "Date"; "Titre"; "Lieu"; "Prix";
    ("Cat" ++ String EventClock.e_acute "gorie")%string;
    "Description"; "URL" ].

Definition eventFields (e : EventClock.EventItem) : list string :=
  [ EventClock.date e; EventClock.title e; EventClock.location e;
    EventClock.price e; join " - " (EventClock.tags e);
    EventClock.description e; EventClock.url e ].

Definition eventRow (e : EventClock.EventItem) : string :=
  join separator (map escape (eventFields e)).

(** [downloadCSV] of the event clock: [None] when nothing is written. *)
Definition downloadEventsCSV (eventsToExport : list EventClock.EventItem)
    : option string :=
  match eventsToExport with
  | [] => None
  | _ => Some (csvContent eventHeaders (map eventRow eventsToExport))
  end.

(** The radar: the two enumerations are their own names. *)
Definition categoryText (c : Radar.CategoryType) : string :=
  match c with
  | Radar.FRANCE_ADMIN => "FRANCE_ADMIN"
  | Radar.WORLD_MACRO => "WORLD_MACRO"
  | Radar.TECH_INNOVATION => "TECH_INNOVATION"
  end.

Definition criticalityText (c : Radar.CriticalityLevel) : string :=
  match c with
  | Radar.HIGH => "HIGH"
  | Radar.MEDIUM => "MEDIUM"
  | Radar.LOW => "LOW"
  end.

Definition newsHeaders : list string :=
  [ "Date"; ("Cat" ++ String EventClock.e_acute "gorie")%string;
    ("Criticit" ++ String EventClock.e_acute "")%string;
    "Titre"; "Impact (So What?)";
    ("Action Sugg" ++ String EventClock.e_acute "r"
       ++ String EventClock.e_acute "e")%string;
    "Source"; "URL" ].

Definition newsFields (e : Radar.NewsItem) : list string :=
  [ Radar.date e; categoryText (Radar.category e);
    criticalityText (Radar.criticality e); Radar.headline e;
    Radar.impact_analysis e; Radar.suggested_action e;
    Radar.source e; Radar.url e ].

Definition newsRow (e : Radar.NewsItem) : string :=
  join separator (map escape (newsFields e)).

(** [downloadCSV] of the radar. *)
Definition downloadItemsCSV (itemsToExport : list Radar.NewsItem)
    : option string :=
  match itemsToExport with
  | [] => None
  | _ => Some (csvContent newsHeaders (map newsRow itemsToExport))
  end.

End Csv.

(* ================================================================= *)
(** ** Vocabulary of the properties *)

(** The text a signature keeps of a field. *)
Definition clean (s : string) : string := stripNonAlnum (toLowerCase s).

Fixpoint allDigits (s : string) : bool :=
  match s with
  | EmptyString => true
  | String c s' => isDigit c && allDigits s'
  end.

Definition digitPair (p : string * string) : Prop :=
  allDigits (fst p) = true /\ allDigits (snd p) = true.

(** A generator whose text always parses to an array when it parses. *)
Definition parsesArraysOnly (JSON_parse : string -> option Scan.json) : Prop :=
  forall s v, JSON_parse s = Some v -> exists l, v = Scan.JArray l.

Section MergeVocabulary.
Context {Item : Type} `{Flagged Item}.

(** What a list of records of one signature, newest first, merges to:
    the newest record, with a true flag when an older copy has one. *)
Definition mergedNewestFirst (M : list Item) : option Item :=
  match M with
  | [] => None
  | r :: older =>
      Some (setFlag (if existsb flagSet older then Some true else flagOf r) r)
  end.

(** [mergeOverwrite] seen from one key. *)
Definition stepOverwrite (g : string) (cur : option Item) (r : Item)
    : option Item :=
  if hasSig g r then
    match cur with
    | Some existing => Some (setFlag (jsOr (flagOf existing) (flagOf r)) r)
    | None => Some r
    end
  else cur.

(** [mergeKeepFirst] seen from one key. *)
Definition stepKeepFirst (g : string) (cur : option Item) (r : Item)
    : option Item :=
  if hasSig g r then
    match cur with
    | Some existing =>
        if flagSet r && negb (flagSet existing)
        then Some (setFlag (Some true) existing) else cur
    | None => Some r
    end
  else cur.

(** The records a map entry is merged from: those of the key's
    signature, in any arrangement [M] of them. *)
Definition copiesOf (g : string) (h : list (Session Item)) (M : list Item)
    : Prop :=
  forall x, In x M <-> In x (allRecords h) /\ hasSig g x = true.

(** A map whose entries sit under their own signature. *)
Definition keyedBySignature (m : UMap Item) : Prop :=
  forall k e, mapGet k m = Some e -> signature e = k.

(** What the targeted update does to one record. *)
Definition retarget (x : Item) (value : bool) (e : Item) : Item :=
  if String.eqb (signature e) (signature x) then setFlag (Some value) e else e.
End MergeVocabulary.

(* ================================================================= *)
(** ** Sample inputs *)

(** Noon of the first of October 2025. *)
Definition sampleNow : Z := newDate 2025 9 1 12 0 0.

Definition eventOld : EventClock.EventItem :=
  EventClock.mkEvent "Pitch Night!!" "24 oct, 18h30" "Station F" "Gratuit"
    "Ancienne description" "https://old.example" ["Business"] (Some true).

Definition eventNew : EventClock.EventItem :=
  EventClock.mkEvent "pitch night" "24 Oct 18h30" "Station F, Paris 13"
    "Gratuit" "Nouvelle description" "https://new.example"
    ["Business"; "Tech"] None.

Definition eventOther : EventClock.EventItem :=
  EventClock.mkEvent "Salon Tech" "15 nov" "Paris" "Payant"
    "Salon" "https://salon.example" ["Tech"] None.

Definition eventSessionOld : EventClock.ScanSession :=
  mkSession 1000 "mercredi 1 octobre 2025" [eventOld; eventOther].

Definition eventSessionNew : EventClock.ScanSession :=
  mkSession 2000 "jeudi 2 octobre 2025" [eventNew].

(** A history as [saveScanToHistory] builds it: newest session first. *)
Definition eventHistory2 : list EventClock.ScanSession :=
  [eventSessionNew; eventSessionOld].

Definition newsOld : Radar.NewsItem :=
  Radar.mkNews "Pitch Night!!" "25 oct" Radar.TECH_INNOVATION Radar.HIGH
    "Ancienne analyse" "Attendre" "Le Monde" "https://old.example"
    (Some true).

Definition newsNew : Radar.NewsItem :=
  Radar.mkNews "pitch night" "24 oct" Radar.TECH_INNOVATION Radar.MEDIUM
    "Nouvelle analyse" "Tester" "Les Echos" "https://new.example" None.

Definition newsOther : Radar.NewsItem :=
  Radar.mkNews "Bourses CROUS" "23 oct" Radar.FRANCE_ADMIN Radar.HIGH
    "Budget" "Faire la demande" "CROUS" "https://crous.example" None.

Definition newsSessionOld : Radar.ScanSession :=
  mkSession 1000 "mercredi 1 octobre 2025" [newsOld; newsOther].

Definition newsSessionNew : Radar.ScanSession :=
  mkSession 2000 "jeudi 2 octobre 2025" [newsNew].

Definition newsHistory2 : list Radar.ScanSession :=
  [newsSessionNew; newsSessionOld].

(** One session that holds two records of one signature. *)
Definition newsHistoryTwice : list Radar.ScanSession :=
  [mkSession 1000 "mercredi 1 octobre 2025" [newsOld; newsNew]].

(** Two sessions with the same identifier. *)
Definition newsHistoryTied : list Radar.ScanSession :=
  [mkSession 1000 "mercredi 1 octobre 2025" [newsNew];
   mkSession 1000 "mercredi 1 octobre 2025" [newsOld]].

Definition pitchNightLoud : EventClock.EventItem :=
  EventClock.mkEvent "Pitch Night!!" "Jeudi 24 Oct, 18h30" "Station F"
                     "Gratuit" "Soir" "https://a.example" ["Business"] None.

Definition pitchNightQuiet : EventClock.EventItem :=
  EventClock.mkEvent "pitch night" "Jeudi 24 Oct, 18h30" "Paris 13"
                     "Inconnu" "Matin" "https://b.example" [] (Some true).

Definition pitchNewsLoud : Radar.NewsItem :=
  Radar.mkNews "Pitch Night!!" "24 Oct" Radar.TECH_INNOVATION Radar.HIGH
               "a" "b" "c" "https://a.example" None.

Definition pitchNewsQuiet : Radar.NewsItem :=
  Radar.mkNews "pitch night" "25 Oct" Radar.WORLD_MACRO Radar.LOW
               "d" "e" "f" "https://b.example" (Some true).

(** The text of three letters between double quotes: a JSON string. *)
Definition quotedText : string :=
  String (chr 34) ("abc" ++ String (chr 34) "")%string.

(** A parser that knows this one text. *)
Definition parseQuotedOnly (s : string) : option Scan.json :=
  if String.eqb s quotedText then Some (Scan.JString "abc") else None.

Definition emptyApp : Scan.AppState := Scan.mkApp (Scan.JArray []) None [].

(* ================================================================= *)
(** ** Vocabulary of the further properties *)

(** A reader of separated values, as a spreadsheet reads the file: a
    field that opens with a double quote runs to the next double quote
    that is not doubled, and may hold separators and line breaks; any
    other field runs to the next separator or line break. *)
Module CsvReader.

Inductive Mode := FieldStart | Unquoted | Quoted | QuoteInQuoted.

Record Reader := mkReader {
  mode : Mode;
  field : string;
  row : list string;
  rows : list (list string)
}.

Definition start : Reader := mkReader FieldStart "" [] [].

Definition endField (r : Reader) : Reader :=
  mkReader FieldStart "" (row r ++ [field r]) (rows r).

Definition endRow (r : Reader) : Reader :=
  mkReader FieldStart "" [] (rows r ++ [row r ++ [field r]]).

Definition addChar (m : Mode) (c : ascii) (r : Reader) : Reader :=
  mkReader m (field r ++ String c "") (row r) (rows r).

Definition step (r : Reader) (c : ascii) : Reader :=
  let isSep := Ascii.eqb c ";" in
  let isBreak := Ascii.eqb c Scan.newline in
  let isQuote := Ascii.eqb c Csv.quote in
  match mode r with
  | FieldStart =>
      if isQuote then mkReader Quoted "" (row r) (rows r)
      else if isSep then endField r
      else if isBreak then endRow r
      else addChar Unquoted c r
  | Unquoted =>
      if isSep then endField r
      else if isBreak then endRow r
      else addChar Unquoted c r
  | Quoted =>
      if isQuote then mkReader QuoteInQuoted (field r) (row r) (rows r)
      else addChar Quoted c r
  | QuoteInQuoted =>
      if isQuote then addChar Quoted c r
      else if isSep then endField r
      else if isBreak then endRow r
      else addChar Unquoted c r
  end.

Fixpoint run (r : Reader) (text : string) : Reader :=
  match text with
  | EmptyString => r
  | String c rest => run (step r c) rest
  end.

(** The rows read when the text ends; a text that ends with a line
    break has no further row. *)
Definition finish (r : Reader) : list (list string) :=
  match mode r, row r with
  | FieldStart, [] => rows r
  | _, _ => rows r ++ [row r ++ [field r]]
  end.

Definition readCsv (text : string) : list (list string) :=
  finish (run start text).

End CsvReader.

(** The first instant of the month of [t]: [d.setDate(1)] and
    [d.setHours(0, 0, 0, 0)]. *)
Definition startOfMonth (t : Z) : Z := setHours (setDate t 1) 0 0 0 0.

(** A pair of groups of the time pattern has at most two digits each. *)
Definition shortPair (p : string * string) : Prop :=
  (String.length (fst p) <= 2)%nat /\ (String.length (snd p) <= 2)%nat.

(* ================================================================= *)
(** ** Further sample inputs *)

(** The history tab with the newer session selected, the scanner
    showing that session. *)
Definition eventViewSelected : Handlers.View EventClock.EventItem :=
  Handlers.mkView (map Handlers.Filled (records eventSessionNew))
                  eventHistory2 (Some 2000).

(** A parser that answers as [JSON.parse] does on the two texts used
    here, the quoted letters and the empty array, and throws on any
    other. *)
Definition parseKnownTexts (s : string) : option Scan.json :=
  if String.eqb s quotedText then Some (Scan.JString "abc")
  else if String.eqb s "[]" then Some (Scan.JArray [])
  else None.

(* ================================================================= *)
(** * Properties *)

(** ** Signatures *)

Section SignatureFacts.

Lemma lower_keeps_class (c : ascii) :
  isLowerAlnum (toLowerChar c) = isAlnum c.
Proof.
  destruct c as [[] [] [] [] [] [] [] []]; reflexivity.
Qed.

Lemma clean_cons (c : ascii) (s : string) :
  clean (String c s)
  = if isAlnum c then String (toLowerChar c) (clean s) else clean s.
Proof.
  unfold clean, stripNonAlnum, toLowerCase; simpl.
  now rewrite lower_keeps_class.
Qed.

Lemma sameUpToCaseAndPunct_clean (s t : string) :
  sameUpToCaseAndPunct s t -> clean s = clean t.
Proof.
  induction 1 as [ | c s t Hc _ IH | c s t Hc _ IH | c d s t Hcd _ IH ].
  - reflexivity.
  - now rewrite clean_cons, Hc.
  - now rewrite clean_cons, Hc.
  - rewrite !clean_cons, <- !lower_keeps_class, Hcd, IH.
    reflexivity.
Qed.

Lemma sameUpToCaseAndPunct_refl (s : string) : sameUpToCaseAndPunct s s.
Proof.
  induction s as [ | c s IH ]; [ constructor | now apply sucp_char ].
Qed.

Lemma sameUpToCaseAndPunct_sym (s t : string) :
  sameUpToCaseAndPunct s t -> sameUpToCaseAndPunct t s.
Proof.
  induction 1; [ constructor | now apply sucp_drop_r
               | now apply sucp_drop_l | now apply sucp_char ].
Qed.

End SignatureFacts.

(** C9.  The signature is a function of the record's defining texts
    only (title and date of an event, headline of a news item), and it
    is the same for two records whose defining texts differ only in
    letter case and in characters that are neither letters nor digits. *)
Theorem signature_invariant_under_case_and_punctuation
    (a b : EventClock.EventItem) (x y : Radar.NewsItem) :
  sameUpToCaseAndPunct (EventClock.title a) (EventClock.title b) ->
  sameUpToCaseAndPunct (EventClock.date a) (EventClock.date b) ->
  sameUpToCaseAndPunct (Radar.headline x) (Radar.headline y) ->
  EventClock.getEventSignature a = EventClock.getEventSignature b
  /\ Radar.getNewsSignature x = Radar.getNewsSignature y.
Proof.
  intros Ht Hd Hh.
  unfold EventClock.getEventSignature, Radar.getNewsSignature.
  apply sameUpToCaseAndPunct_clean in Ht, Hd, Hh.
  unfold clean in Ht, Hd, Hh.
  now rewrite Ht, Hd, Hh.
Qed.

Lemma pitch_night_texts : sameUpToCaseAndPunct "Pitch Night!!" "pitch night".
Proof.
  repeat first
    [ apply sucp_nil
    | apply sucp_char; [ reflexivity | ]
    | apply sucp_drop_l; [ reflexivity | ] ].
Qed.

Lemma signature_pitch_night :
  EventClock.getEventSignature pitchNightLoud
  = EventClock.getEventSignature pitchNightQuiet
  /\ Radar.getNewsSignature pitchNewsLoud
     = Radar.getNewsSignature pitchNewsQuiet.
Proof.
  apply signature_invariant_under_case_and_punctuation.
  - exact pitch_night_texts.
  - apply sameUpToCaseAndPunct_refl.
  - exact pitch_night_texts.
Defined.

(* ================================================================= *)
(** ** Maps in insertion order *)

Section MapFacts.
Variable V : Type.
Implicit Types (m : UMap V) (k : string) (v : V).

Lemma mapGet_mapSet_same k v m : mapGet k (mapSet k v m) = Some v.
Proof.
  induction m as [ | [k' v'] m IH ]; simpl.
  - now rewrite String.eqb_refl.
  - destruct (String.eqb k k') eqn:E; simpl.
    + now rewrite String.eqb_refl.
    + now rewrite E.
Qed.

Lemma mapGet_mapSet_other k k' v m :
  k <> k' -> mapGet k (mapSet k' v m) = mapGet k m.
Proof.
  intros Hk. apply String.eqb_neq in Hk.
  induction m as [ | [k0 v0] m IH ]; simpl.
  - now rewrite Hk.
  - destruct (String.eqb k' k0) eqn:E; simpl.
    + apply String.eqb_eq in E; subst k0. now rewrite Hk.
    + now rewrite IH.
Qed.

Lemma mapHas_In k m : mapHas k m = true <-> In k (mapKeys m).
Proof.
  unfold mapHas.
  induction m as [ | [k' v'] m IH ]; simpl.
  - split; [ discriminate | tauto ].
  - destruct (String.eqb k k') eqn:E.
    + apply String.eqb_eq in E. split; auto.
    + apply String.eqb_neq in E. rewrite IH.
      split; [ auto | intros [?|?]; congruence ].
Qed.

Lemma mapKeys_mapSet k v m :
  mapKeys (mapSet k v m)
  = if mapHas k m then mapKeys m else mapKeys m ++ [k].
Proof.
  unfold mapHas.
  induction m as [ | [k' v'] m IH ]; simpl; [ reflexivity | ].
  destruct (String.eqb k k') eqn:E; simpl.
  - apply String.eqb_eq in E. now subst.
  - rewrite IH. now destruct (mapGet k m).
Qed.

Lemma NoDup_mapSet k v m :
  NoDup (mapKeys m) -> NoDup (mapKeys (mapSet k v m)).
Proof.
  intros Hm. rewrite mapKeys_mapSet.
  destruct (mapHas k m) eqn:E; [ assumption | ].
  apply NoDup_app; [ assumption | repeat constructor; simpl; tauto | ].
  intros x Hx [<- | []].
  apply mapHas_In in Hx. congruence.
Qed.

Lemma mapGet_In k v m : mapGet k m = Some v -> In (k, v) m.
Proof.
  induction m as [ | [k' v'] m IH ]; simpl; [ discriminate | ].
  destruct (String.eqb k k') eqn:E.
  - apply String.eqb_eq in E. intros [= ->]. left. now subst.
  - auto.
Qed.

Lemma In_mapGet k v m : NoDup (mapKeys m) -> In (k, v) m -> mapGet k m = Some v.
Proof.
  induction m as [ | [k' v'] m IH ]; simpl; [ tauto | ].
  intros Hnd [Heq | Hin].
  - injection Heq as -> ->. now rewrite String.eqb_refl.
  - inversion Hnd as [ | ? ? Hk' Hm ]; subst.
    destruct (String.eqb k k') eqn:E; [ | auto ].
    apply String.eqb_eq in E; subst k'.
    exfalso. apply Hk'. exact (in_map fst _ _ Hin).
Qed.

Lemma mapValues_get v m :
  NoDup (mapKeys m) ->
  (In v (mapValues m) <-> exists k, mapGet k m = Some v).
Proof.
  intros Hnd. unfold mapValues. rewrite in_map_iff. split.
  - intros [[k v'] [Hv Hin]]. simpl in Hv. subst v'.
    exists k. now apply In_mapGet.
  - intros [k Hk]. exists (k, v). split; [ reflexivity | ].
    now apply mapGet_In.
Qed.

End MapFacts.

(* ================================================================= *)
(** ** Stable sorting *)

Section SortFacts.
Variables (A : Type) (cmp : A -> A -> Z) (key : A -> Z).
Hypothesis cmp_key : forall a b, (cmp a b <? 0) = (key a <? key b).

Let keyLe (a b : A) : Prop := key a <= key b.

Lemma insertSorted_perm x l : Permutation (x :: l) (insertSorted cmp x l).
Proof.
  induction l as [ | y l IH ]; simpl; [ reflexivity | ].
  destruct (cmp y x <? 0); [ | reflexivity ].
  rewrite perm_swap. now constructor.
Qed.

Lemma sortBy_perm l : Permutation l (sortBy cmp l).
Proof.
  induction l as [ | x l IH ]; simpl; [ constructor | ].
  rewrite <- insertSorted_perm. now constructor.
Qed.

Lemma sortBy_In x l : In x (sortBy cmp l) <-> In x l.
Proof.
  split; apply Permutation_in;
    [ symmetry | ]; apply sortBy_perm.
Qed.

Lemma insertSorted_sorted x l :
  StronglySorted keyLe l -> StronglySorted keyLe (insertSorted cmp x l).
Proof.
  induction 1 as [ | y l Hl IH Hy ]; simpl.
  - repeat constructor.
  - rewrite cmp_key. destruct (key y <? key x) eqn:E.
    + apply Z.ltb_lt in E. constructor; [ exact IH | ].
      apply (Permutation_Forall (insertSorted_perm x l)).
      constructor; [ unfold keyLe; lia | exact Hy ].
    + apply Z.ltb_ge in E. constructor; [ now constructor | ].
      constructor; [ exact E | ].
      eapply Forall_impl; [ | exact Hy ].
      unfold keyLe; intros; lia.
Qed.

Lemma sortBy_sorted l : StronglySorted keyLe (sortBy cmp l).
Proof.
  induction l as [ | x l IH ]; simpl;
    [ constructor | now apply insertSorted_sorted ].
Qed.

End SortFacts.


(* ================================================================= *)
(** ** The merges, one signature at a time *)

Section MergeFacts.
Context {Item : Type} `{Flagged Item}.
Implicit Types (m : UMap Item) (r e : Item) (g : string)
               (h : list (Session Item)) (L M : list Item).

Lemma truthy_true b : truthy b = true -> b = Some true.
Proof. destruct b as [[]|]; simpl; congruence. Qed.

Lemma truthy_jsOr a b : truthy (jsOr a b) = truthy a || truthy b.
Proof. unfold jsOr. destruct (truthy a) eqn:E; simpl; congruence. Qed.

Lemma mapGet_mergeOverwrite g m r :
  mapGet g (mergeOverwrite m r) = stepOverwrite g (mapGet g m) r.
Proof.
  unfold mergeOverwrite, stepOverwrite, hasSig.
  destruct (String.eqb (signature r) g) eqn:E.
  - apply String.eqb_eq in E; subst g.
    destruct (mapGet (signature r) m); now rewrite mapGet_mapSet_same.
  - apply String.eqb_neq in E.
    destruct (mapGet (signature r) m);
      rewrite mapGet_mapSet_other; congruence.
Qed.

Lemma mapGet_mergeKeepFirst g m r :
  mapGet g (mergeKeepFirst m r) = stepKeepFirst g (mapGet g m) r.
Proof.
  unfold mergeKeepFirst, stepKeepFirst, hasSig, mapHas, flagSet.
  destruct (String.eqb (signature r) g) eqn:E.
  - apply String.eqb_eq in E; subst g.
    destruct (mapGet (signature r) m) as [existing|] eqn:G; simpl.
    + destruct (truthy (flagOf r) && negb (truthy (flagOf existing)));
        [ now rewrite mapGet_mapSet_same | exact G ].
    + now rewrite mapGet_mapSet_same.
  - apply String.eqb_neq in E.
    destruct (mapGet (signature r) m) as [existing|] eqn:G; simpl.
    + destruct (truthy (flagOf r) && negb (truthy (flagOf existing)));
        [ rewrite mapGet_mapSet_other; congruence | reflexivity ].
    + rewrite mapGet_mapSet_other; congruence.
Qed.

Lemma foldSessions_flat (step : UMap Item -> Item -> UMap Item) h m :
  fold_left (fun m s => fold_left step (records s) m) h m
  = fold_left step (allRecords h) m.
Proof.
  revert m. induction h as [ | s h IH ]; intros m; simpl; [ reflexivity | ].
  unfold allRecords in *; simpl. now rewrite fold_left_app, IH.
Qed.

Lemma mapGet_fold (step : UMap Item -> Item -> UMap Item)
    (step1 : string -> option Item -> Item -> option Item) g :
  (forall m r, mapGet g (step m r) = step1 g (mapGet g m) r) ->
  forall L m,
    mapGet g (fold_left step L m) = fold_left (step1 g) L (mapGet g m).
Proof.
  intros Hstep. induction L as [ | r L IH ]; intros m; simpl;
    [ reflexivity | now rewrite IH, Hstep ].
Qed.

(** The overwriting fold ends on the newest copy, flagged when any copy
    is. *)
Lemma fold_stepOverwrite g L :
  fold_left (stepOverwrite g) L None
  = mergedNewestFirst (rev (filter (hasSig g) L)).
Proof.
  induction L as [ | r L IH ] using rev_ind; [ reflexivity | ].
  rewrite fold_left_app, filter_app, rev_app_distr, IH. simpl.
  unfold stepOverwrite. destruct (hasSig g r); simpl; [ | reflexivity ].
  destruct (rev (filter (hasSig g) L)) as [ | r0 older ]; simpl.
  - now rewrite setFlag_flagOf.
  - f_equal. f_equal. rewrite flagOf_setFlag.
    generalize (existsb flagSet older) as any; intros any.
    unfold jsOr, flagSet.
    destruct any; simpl.
    + now rewrite orb_true_r.
    + rewrite orb_false_r. destruct (truthy (flagOf r0)) eqn:E;
        [ now apply truthy_true | reflexivity ].
Qed.

(** The keeping fold stays on the first copy, flagged when any copy is. *)
Lemma fold_stepKeepFirst_from g L M :
  fold_left (stepKeepFirst g) L (mergedNewestFirst M)
  = mergedNewestFirst (M ++ filter (hasSig g) L).
Proof.
  revert M. induction L as [ | r L IH ]; intros M; simpl.
  - now rewrite app_nil_r.
  - unfold stepKeepFirst at 2. destruct (hasSig g r) eqn:E; [ | apply IH ].
    replace (M ++ r :: filter (hasSig g) L)
      with ((M ++ [r]) ++ filter (hasSig g) L)
      by now rewrite <- app_assoc.
    rewrite <- IH. f_equal.
    destruct M as [ | r0 older ]; simpl.
    + now rewrite setFlag_flagOf.
    + rewrite existsb_app. simpl. rewrite orb_false_r.
      generalize (existsb flagSet older) as any; intros any.
      unfold flagSet. rewrite flagOf_setFlag.
      destruct (truthy (flagOf r)) eqn:Er; simpl.
      * rewrite orb_true_r.
        destruct any; simpl; [ reflexivity | ].
        destruct (truthy (flagOf r0)) eqn:E0; simpl.
        -- now rewrite (truthy_true _ E0).
        -- now rewrite setFlag_setFlag.
      * now rewrite orb_false_r.
Qed.

Lemma fold_stepKeepFirst g L :
  fold_left (stepKeepFirst g) L None
  = mergedNewestFirst (filter (hasSig g) L).
Proof. exact (fold_stepKeepFirst_from g L []). Qed.

(** The two maps, key by key. *)
Lemma uniqueMapOverwrite_get g h :
  mapGet g (uniqueMapOverwrite h)
  = mergedNewestFirst (rev (filter (hasSig g) (allRecords (oldestFirst h)))).
Proof.
  unfold uniqueMapOverwrite, foldSessions.
  rewrite foldSessions_flat.
  rewrite (mapGet_fold mergeOverwrite stepOverwrite g
             (mapGet_mergeOverwrite g)).
  apply fold_stepOverwrite.
Qed.

Lemma uniqueMapKeepFirst_get g h :
  mapGet g (uniqueMapKeepFirst h)
  = mergedNewestFirst (filter (hasSig g) (allRecords (newestFirst h))).
Proof.
  unfold uniqueMapKeepFirst, foldSessions.
  rewrite foldSessions_flat.
  rewrite (mapGet_fold mergeKeepFirst stepKeepFirst g
             (mapGet_mergeKeepFirst g)).
  apply fold_stepKeepFirst.
Qed.

End MergeFacts.

(* ================================================================= *)
(** ** The consolidated maps *)

Lemma StronglySorted_weaken (A : Type) (R R' : A -> A -> Prop) (l : list A) :
  (forall a b, R a b -> R' a b) -> StronglySorted R l -> StronglySorted R' l.
Proof.
  intros HR. induction 1 as [ | x l Hl IH Hx ]; constructor;
    [ exact IH | eapply Forall_impl; [ apply HR | exact Hx ] ].
Qed.

Lemma existsb_same_elements (A : Type) (f : A -> bool) (l l' : list A) :
  (forall x, In x l <-> In x l') -> existsb f l = existsb f l'.
Proof.
  intros Hl. apply eq_true_iff_eq. rewrite !existsb_exists.
  split; intros [x [Hx Hf]]; exists x; split; auto; now apply Hl.
Qed.

Lemma NoDup_map_filter (A K : Type) (key : A -> K) (keep : A -> bool)
    (xs : list A) :
  NoDup (map key xs) -> NoDup (map key (filter keep xs)).
Proof.
  induction xs as [ | x xs IH ]; simpl; [ auto | ].
  intros Hnd. inversion Hnd as [ | ? ? Hx Hxs ]; subst.
  destruct (keep x); simpl; [ | auto ].
  constructor; [ | auto ].
  intros Hin. apply Hx. apply in_map_iff in Hin.
  destruct Hin as [y [Hy Hin]]. apply filter_In in Hin.
  apply in_map_iff. exists y. tauto.
Qed.

Section ViewFacts.
Context {Item : Type} `{Flagged Item}.
Implicit Types (m : UMap Item) (r e : Item) (g : string)
               (h S : list (Session Item)) (s : Session Item)
               (L M : list Item).

Lemma oldestFirst_sorted h :
  StronglySorted (fun a b => id a <= id b) (oldestFirst h).
Proof.
  apply (sortBy_sorted (fun a b : Session Item => id a - id b) id).
  intros a b. destruct (Z.ltb_spec (id a - id b) 0), (Z.ltb_spec (id a) (id b));
    try reflexivity; lia.
Qed.

Lemma newestFirst_sorted h :
  StronglySorted (fun a b => id b <= id a) (newestFirst h).
Proof.
  apply StronglySorted_weaken with (R := fun a b => - id a <= - id b).
  - intros a b; lia.
  - apply (sortBy_sorted (fun a b : Session Item => id b - id a)
                         (fun s => - id s)).
    intros a b.
    destruct (Z.ltb_spec (id b - id a) 0), (Z.ltb_spec (- id a) (- id b));
      try reflexivity; lia.
Qed.

Lemma allRecords_In r h :
  In r (allRecords h) <-> exists s, In s h /\ In r (records s).
Proof. unfold allRecords. apply in_flat_map. Qed.

Lemma allRecords_sorted_In (cmp : Session Item -> Session Item -> Z) r h :
  In r (allRecords (sortBy cmp h)) <-> In r (allRecords h).
Proof.
  rewrite !allRecords_In.
  split; intros [s [Hs Hr]]; exists s; split; auto;
    [ now apply sortBy_In in Hs | now apply sortBy_In ].
Qed.

Lemma merged_flag M e :
  mergedNewestFirst M = Some e -> flagSet e = existsb flagSet M.
Proof.
  destruct M as [ | r older ]; simpl; [ discriminate | ].
  intros [= <-]. unfold flagSet at 1. rewrite flagOf_setFlag.
  unfold flagSet at 2.
  destruct (existsb flagSet older); simpl;
    [ now rewrite orb_true_r | now rewrite orb_false_r ].
Qed.

Lemma merged_head M e :
  mergedNewestFirst M = Some e ->
  exists r older, M = r :: older /\ sameContent e r /\ signature e = signature r.
Proof.
  destruct M as [ | r older ]; simpl; [ discriminate | ].
  intros [= <-]. exists r, older. repeat split.
  - unfold sameContent. apply setFlag_setFlag.
  - apply signature_setFlag.
Qed.

Lemma merged_some M : M <> [] -> exists e, mergedNewestFirst M = Some e.
Proof. destruct M; [ congruence | simpl; eauto ]. Qed.

Lemma copies_oldest g h :
  copiesOf g h (rev (filter (hasSig g) (allRecords (oldestFirst h)))).
Proof.
  intros x. rewrite <- in_rev, filter_In.
  unfold oldestFirst. now rewrite allRecords_sorted_In.
Qed.

Lemma copies_newest g h :
  copiesOf g h (filter (hasSig g) (allRecords (newestFirst h))).
Proof.
  intros x. rewrite filter_In.
  unfold newestFirst. now rewrite allRecords_sorted_In.
Qed.

Lemma merged_of_copies g h M e :
  copiesOf g h M -> mergedNewestFirst M = Some e ->
  signature e = g /\ flagSet e = flagAnywhere g h.
Proof.
  intros HM He. split.
  - destruct (merged_head _ He) as [r [older [-> [_ ->]]]].
    destruct (proj1 (HM r) (or_introl eq_refl)) as [_ Hr].
    now apply String.eqb_eq in Hr.
  - rewrite (merged_flag _ He). unfold flagAnywhere.
    apply eq_true_iff_eq. rewrite !existsb_exists. split.
    + intros [x [Hx Hf]]. apply HM in Hx. exists x. split; [ tauto | ].
      destruct Hx as [_ Hx]. unfold hasSig in Hx. now rewrite Hx.
    + intros [x [Hx Hf]]. apply andb_true_iff in Hf. exists x.
      split; [ apply HM | ]; tauto.
Qed.

Lemma copies_occur g h M :
  copiesOf g h M -> occursIn g h -> M <> [].
Proof.
  intros HM [r [Hr Hg]] ->.
  apply (proj2 (HM r)). split; [ exact Hr | ].
  now apply String.eqb_eq.
Qed.

(** Both folds keep the keys distinct. *)
Lemma fold_invariant (P : UMap Item -> Prop)
    (step : UMap Item -> Item -> UMap Item) L m :
  (forall m r, P m -> P (step m r)) -> P m -> P (fold_left step L m).
Proof.
  intros Hstep. revert m. induction L as [ | r L IH ]; simpl; auto.
Qed.

Lemma mergeOverwrite_keys m r :
  NoDup (mapKeys m) -> NoDup (mapKeys (mergeOverwrite m r)).
Proof.
  unfold mergeOverwrite. destruct (mapGet (signature r) m);
    apply NoDup_mapSet.
Qed.

Lemma mergeKeepFirst_keys m r :
  NoDup (mapKeys m) -> NoDup (mapKeys (mergeKeepFirst m r)).
Proof.
  unfold mergeKeepFirst. intros Hm.
  destruct (negb (mapHas (signature r) m)); [ now apply NoDup_mapSet | ].
  destruct (mapGet (signature r) m) as [existing | ]; [ | exact Hm ].
  destruct (truthy (flagOf r) && negb (truthy (flagOf existing)));
    [ now apply NoDup_mapSet | exact Hm ].
Qed.

Lemma uniqueMapOverwrite_keys h : NoDup (mapKeys (uniqueMapOverwrite h)).
Proof.
  unfold uniqueMapOverwrite, foldSessions. rewrite foldSessions_flat.
  apply fold_invariant; [ apply mergeOverwrite_keys | constructor ].
Qed.

Lemma uniqueMapKeepFirst_keys h : NoDup (mapKeys (uniqueMapKeepFirst h)).
Proof.
  unfold uniqueMapKeepFirst, foldSessions. rewrite foldSessions_flat.
  apply fold_invariant; [ apply mergeKeepFirst_keys | constructor ].
Qed.

Lemma uniqueMapOverwrite_keyed h : keyedBySignature (uniqueMapOverwrite h).
Proof.
  intros k e He. rewrite uniqueMapOverwrite_get in He.
  exact (proj1 (merged_of_copies (copies_oldest k h) He)).
Qed.

Lemma uniqueMapKeepFirst_keyed h : keyedBySignature (uniqueMapKeepFirst h).
Proof.
  intros k e He. rewrite uniqueMapKeepFirst_get in He.
  exact (proj1 (merged_of_copies (copies_newest k h) He)).
Qed.

Lemma values_by_signature m e :
  NoDup (mapKeys m) -> keyedBySignature m ->
  (In e (mapValues m) <-> mapGet (signature e) m = Some e).
Proof.
  intros Hnd Hk. rewrite (mapValues_get e m Hnd). split.
  - intros [k He]. now rewrite (Hk _ _ He).
  - eauto.
Qed.

Lemma values_signatures m :
  NoDup (mapKeys m) -> keyedBySignature m ->
  NoDup (map signature (mapValues m)).
Proof.
  intros Hnd Hk.
  replace (map signature (mapValues m)) with (mapKeys m); [ exact Hnd | ].
  unfold mapValues, mapKeys. rewrite map_map.
  apply map_ext_in. intros [k e] Hin. simpl.
  symmetry. apply Hk. now apply In_mapGet.
Qed.

End ViewFacts.

(* ================================================================= *)
(** ** Strictly sorted lists *)

Section StrictSorting.
Variables (A : Type) (key : A -> Z).

Lemma sorted_nodup_strict (l : list A) :
  StronglySorted (fun a b => key a <= key b) l ->
  NoDup (map key l) ->
  StronglySorted (fun a b => key a < key b) l.
Proof.
  induction 1 as [ | x l Hl IH Hx ]; simpl; intros Hnd; [ constructor | ].
  inversion Hnd as [ | ? ? Hnotin Hnd' ]; subst.
  constructor; [ auto | ].
  rewrite Forall_forall in *. intros y Hy.
  specialize (Hx y Hy).
  assert (key x <> key y) by (intros E; apply Hnotin; rewrite E; now apply in_map).
  lia.
Qed.

Lemma strictly_sorted_unique (l1 l2 : list A) :
  StronglySorted (fun a b => key a < key b) l1 ->
  StronglySorted (fun a b => key a < key b) l2 ->
  Permutation l1 l2 -> l1 = l2.
Proof.
  intros H1. revert l2.
  induction H1 as [ | a l1 Hl1 IH Ha ]; intros l2 H2 Hp.
  - now apply Permutation_nil in Hp.
  - destruct H2 as [ | b l2 Hl2 Hb ].
    + symmetry in Hp. now apply Permutation_nil in Hp.
    + assert (a = b) as <-.
      { rewrite Forall_forall in Ha, Hb.
        assert (Hin_a : In a (b :: l2))
          by (eapply Permutation_in; [ exact Hp | now left ]).
        assert (Hin_b : In b (a :: l1))
          by (eapply Permutation_in; [ symmetry; exact Hp | now left ]).
        destruct Hin_a as [-> | Hin_a]; [ reflexivity | ].
        destruct Hin_b as [-> | Hin_b]; [ reflexivity | ].
        specialize (Ha b Hin_b). specialize (Hb a Hin_a). lia. }
      f_equal. apply IH; [ exact Hl2 | ].
      now apply Permutation_cons_inv in Hp.
Qed.

End StrictSorting.

Lemma StronglySorted_snoc (A : Type) (R : A -> A -> Prop) (l : list A)
    (x : A) :
  StronglySorted R l -> Forall (fun y => R y x) l ->
  StronglySorted R (l ++ [x]).
Proof.
  induction 1 as [ | y l Hl IH Hy ]; simpl; intros Hx.
  - repeat constructor.
  - inversion Hx as [ | ? ? Hyx Hlx ]; subst.
    constructor; [ auto | ].
    apply Forall_app. split; [ exact Hy | now constructor ].
Qed.

Lemma StronglySorted_rev (A : Type) (R : A -> A -> Prop) (l : list A) :
  StronglySorted R l -> StronglySorted (fun a b => R b a) (rev l).
Proof.
  induction 1 as [ | x l Hl IH Hx ]; simpl; [ constructor | ].
  apply StronglySorted_snoc; [ exact IH | ].
  apply Forall_rev. exact Hx.
Qed.

(* ================================================================= *)
(** ** Which copy the merges keep *)

Section NewestFacts.
Context {Item : Type} `{Flagged Item}.
Implicit Types (r e : Item) (g : string)
               (h S : list (Session Item)) (s : Session Item).

Lemma first_copy_newest g S r rest :
  StronglySorted (fun a b => id b <= id a) S ->
  filter (hasSig g) (allRecords S) = r :: rest ->
  exists s, In s S /\ In r (records s) /\ newestHolding g S s.
Proof.
  induction 1 as [ | s0 S HS IH Hs0 ]; [ discriminate | ].
  unfold allRecords in *. simpl. rewrite filter_app.
  rewrite Forall_forall in Hs0.
  destruct (filter (hasSig g) (records s0)) as [ | r1 rest1 ] eqn:E0; simpl.
  - intros E. destruct (IH E) as [s [Hs [Hr Hmax]]].
    exists s. repeat split; [ now right | exact Hr | ].
    intros s' r' [<- | Hs'] Hr' Hg; [ | eauto ].
    assert (Hin : In r' (filter (hasSig g) (records s0)))
      by (apply filter_In; tauto).
    rewrite E0 in Hin. destruct Hin.
  - intros [= -> _].
    assert (Hin : In r (filter (hasSig g) (records s0)))
      by (rewrite E0; now left).
    apply filter_In in Hin.
    exists s0. repeat split; [ now left | tauto | ].
    intros s' r' [<- | Hs'] _ _; [ lia | now apply Hs0 ].
Qed.

Lemma last_copy_newest g S r rest :
  StronglySorted (fun a b => id a <= id b) S ->
  rev (filter (hasSig g) (allRecords S)) = r :: rest ->
  exists s, In s S /\ In r (records s) /\ newestHolding g S s.
Proof.
  intros HS. revert r rest.
  induction HS as [ | s0 S HS IH Hs0 ]; intros r rest; [ discriminate | ].
  unfold allRecords in *. simpl. rewrite filter_app, rev_app_distr.
  rewrite Forall_forall in Hs0.
  destruct (rev (filter (hasSig g) (flat_map records S)))
    as [ | r1 rest1 ] eqn:E1; simpl.
  - intros E.
    assert (Hin : In r (filter (hasSig g) (records s0)))
      by (apply in_rev; rewrite E; now left).
    apply filter_In in Hin.
    exists s0. repeat split; [ now left | tauto | ].
    intros s' r' [<- | Hs'] Hr' Hg; [ lia | ].
    assert (Hin' : In r' (rev (filter (hasSig g) (flat_map records S)))).
    { apply in_rev with (l := filter (hasSig g) (flat_map records S)).
      apply filter_In. split; [ | exact Hg ].
      apply in_flat_map. eauto. }
    rewrite E1 in Hin'. destruct Hin'.
  - intros [= -> _].
    destruct (IH _ _ eq_refl) as [s [Hs [Hr Hmax]]].
    exists s. repeat split; [ now right | exact Hr | ].
    intros s' r' [<- | Hs'] Hr' Hg; [ now apply Hs0 | eauto ].
Qed.

Lemma sameContent_trans (a b c : Item) :
  sameContent a b -> sameContent b c -> sameContent a c.
Proof. unfold sameContent. congruence. Qed.

(** The copy either merge keeps has the content of the newest session
    that holds the signature. *)
Lemma newest_content g h M e s r :
  (forall rest r0, M = r0 :: rest ->
     exists s0, In s0 h /\ In r0 (records s0) /\ hasSig g r0 = true
                /\ newestHolding g h s0) ->
  mergedNewestFirst M = Some e ->
  In s h -> In r (records s) -> signature r = g ->
  (forall s' r', In s' h -> In r' (records s') -> signature r' = g ->
                 id s' < id s \/ sameContent r' r) ->
  sameContent e r.
Proof.
  intros HM He Hs Hr Hg Hothers.
  destruct (merged_head _ He) as [r0 [older [-> [Hc _]]]].
  destruct (HM _ _ eq_refl) as [s0 [Hs0 [Hr0 [Hg0 Hmax]]]].
  apply sameContent_trans with (b := r0); [ exact Hc | ].
  assert (id s <= id s0).
  { apply (Hmax s r Hs Hr). subst g. apply String.eqb_refl. }
  apply String.eqb_eq in Hg0.
  destruct (Hothers s0 r0 Hs0 Hr0 Hg0); [ lia | assumption ].
Qed.

Lemma newest_content_overwrite h e s r :
  mapGet (signature r) (uniqueMapOverwrite h) = Some e ->
  In s h -> In r (records s) ->
  (forall s' r', In s' h -> In r' (records s') ->
                 signature r' = signature r ->
                 id s' < id s \/ sameContent r' r) ->
  sameContent e r.
Proof.
  rewrite uniqueMapOverwrite_get. intros He Hs Hr Ho.
  eapply newest_content; eauto.
  intros rest r0 E.
  destruct (@last_copy_newest _ _ _ _ (oldestFirst_sorted h) E)
    as [s0 [Hs0 [Hr0 Hmax]]].
  assert (Hin : In r0 (filter (hasSig (signature r))
                              (allRecords (oldestFirst h))))
    by (apply in_rev; rewrite E; now left).
  apply filter_In in Hin.
  exists s0. repeat split; [ now apply sortBy_In in Hs0 | exact Hr0 | tauto | ].
  intros s' r' Hs' Hr' Hg'. apply (Hmax s' r'); auto.
  now apply sortBy_In.
Qed.

Lemma newest_content_keepFirst h e s r :
  mapGet (signature r) (uniqueMapKeepFirst h) = Some e ->
  In s h -> In r (records s) ->
  (forall s' r', In s' h -> In r' (records s') ->
                 signature r' = signature r ->
                 id s' < id s \/ sameContent r' r) ->
  sameContent e r.
Proof.
  rewrite uniqueMapKeepFirst_get. intros He Hs Hr Ho.
  eapply newest_content; eauto.
  intros rest r0 E.
  destruct (@first_copy_newest _ _ _ _ (newestFirst_sorted h) E)
    as [s0 [Hs0 [Hr0 Hmax]]].
  assert (Hin : In r0 (filter (hasSig (signature r))
                              (allRecords (newestFirst h))))
    by (rewrite E; now left).
  apply filter_In in Hin.
  exists s0. repeat split; [ now apply sortBy_In in Hs0 | exact Hr0 | tauto | ].
  intros s' r' Hs' Hr' Hg'. apply (Hmax s' r'); auto.
  now apply sortBy_In.
Qed.

End NewestFacts.

(* ================================================================= *)
(** ** The two merges compared *)

Section CompareFacts.
Context {Item : Type} `{Flagged Item}.
Implicit Types (r e : Item) (g : string)
               (h S : list (Session Item)) (s : Session Item).

(** Sessions with distinct identifiers: newest first is oldest first
    read backwards. *)
Lemma newestFirst_rev h :
  NoDup (map id h) -> newestFirst h = rev (oldestFirst h).
Proof.
  intros Hnd.
  assert (Hp_old : Permutation h (oldestFirst h)) by apply sortBy_perm.
  assert (Hp_new : Permutation h (newestFirst h)) by apply sortBy_perm.
  apply strictly_sorted_unique with (key := fun s : Session Item => - id s).
  - apply StronglySorted_weaken with (R := fun a b => id b < id a);
      [ intros; lia | ].
    apply StronglySorted_weaken
      with (R := fun a b : Session Item => (- id a) < (- id b));
      [ intros; lia | ].
    apply sorted_nodup_strict.
    + apply StronglySorted_weaken with (R := fun a b => id b <= id a);
        [ intros; lia | apply newestFirst_sorted ].
    + apply NoDup_map_inv with (f := Z.opp). rewrite map_map.
      erewrite map_ext; [ | intros; apply Z.opp_involutive ].
      eapply Permutation_NoDup; [ | exact Hnd ].
      now apply Permutation_map.
  - apply StronglySorted_weaken with (R := fun a b => id b < id a);
      [ intros; lia | ].
    apply (StronglySorted_rev (R := fun a b : Session Item => id a < id b)).
    apply (sorted_nodup_strict id); [ apply oldestFirst_sorted | ].
    eapply Permutation_NoDup; [ | exact Hnd ].
    now apply Permutation_map.
  - rewrite <- Hp_new, Hp_old at 1. apply Permutation_rev.
Qed.

(** Among records of distinct signatures at most one has signature [g]. *)
Lemma filter_at_most_one g (l : list Item) :
  NoDup (map signature l) ->
  rev (filter (hasSig g) l) = filter (hasSig g) l.
Proof.
  induction l as [ | a l IH ]; simpl; [ reflexivity | ].
  intros Hnd. inversion Hnd as [ | ? ? Ha Hl ]; subst.
  destruct (hasSig g a) eqn:E; [ | auto ].
  assert (Hnone : filter (hasSig g) l = []).
  { destruct (filter (hasSig g) l) as [ | b rest ] eqn:F; [ reflexivity | ].
    exfalso. apply Ha.
    assert (Hb : In b (filter (hasSig g) l)) by (rewrite F; now left).
    apply filter_In in Hb. destruct Hb as [Hb Hg].
    apply String.eqb_eq in E, Hg. rewrite E, <- Hg. now apply in_map. }
  now rewrite Hnone.
Qed.

Lemma filter_allRecords_rev g S :
  (forall s, In s S -> NoDup (map signature (records s))) ->
  filter (hasSig g) (allRecords (rev S))
  = rev (filter (hasSig g) (allRecords S)).
Proof.
  unfold allRecords. induction S as [ | s0 S IH ]; simpl; [ reflexivity | ].
  intros Hs. rewrite flat_map_app, !filter_app, rev_app_distr. simpl.
  rewrite app_nil_r, IH by auto.
  f_equal. symmetry. apply filter_at_most_one. auto.
Qed.

Lemma merges_agree h g :
  NoDup (map id h) ->
  (forall s, In s h -> NoDup (map signature (records s))) ->
  mapGet g (uniqueMapOverwrite h) = mapGet g (uniqueMapKeepFirst h).
Proof.
  intros Hid Hsess.
  rewrite uniqueMapOverwrite_get, uniqueMapKeepFirst_get.
  rewrite (newestFirst_rev h Hid), filter_allRecords_rev; [ reflexivity | ].
  intros s Hs. apply Hsess. now apply sortBy_In in Hs.
Qed.

End CompareFacts.

(* ================================================================= *)
(** ** The targeted flag update *)

Section UpdateFacts.
Context {Item : Type} `{Flagged Item}.
Implicit Types (r e x : Item) (h : list (Session Item)) (s : Session Item).

Lemma retarget_signature x value e :
  signature (retarget x value e) = signature e.
Proof.
  unfold retarget. destruct (String.eqb (signature e) (signature x));
    [ apply signature_setFlag | reflexivity ].
Qed.

Lemma retarget_twice x value e :
  retarget x value (retarget x value e) = retarget x value e.
Proof.
  unfold retarget at 1. rewrite retarget_signature.
  unfold retarget. destruct (String.eqb (signature e) (signature x));
    [ apply setFlag_setFlag | reflexivity ].
Qed.

(** A session without a match is returned as it is, and mapping its
    records would not change them either. *)
Lemma retarget_no_match x value s :
  hasMatch (signature x) s = false ->
  map (retarget x value) (records s) = records s.
Proof.
  unfold hasMatch. intros Hno.
  rewrite <- (map_id (records s)) at 2.
  apply map_ext_in. intros e He. unfold retarget.
  destruct (String.eqb (signature e) (signature x)) eqn:E; [ | reflexivity ].
  assert (existsb (fun e => String.eqb (signature e) (signature x))
                  (records s) = true)
    by (apply existsb_exists; eauto).
  congruence.
Qed.

Lemma updateGlobal_sessions h x value :
  updateGlobal h x value
  = map (fun s => mkSession (id s) (dateStr s)
                            (map (retarget x value) (records s))) h.
Proof.
  unfold updateGlobal. apply map_ext. intros s.
  destruct (hasMatch (signature x) s) eqn:E; simpl; [ reflexivity | ].
  rewrite retarget_no_match by exact E. now destruct s.
Qed.

Lemma updateGlobal_idempotent h x value :
  updateGlobal (updateGlobal h x value) x value = updateGlobal h x value.
Proof.
  rewrite !updateGlobal_sessions, map_map. apply map_ext. intros s. simpl.
  f_equal. rewrite map_map. apply map_ext. intros e. apply retarget_twice.
Qed.

Lemma updateGlobal_shape h x value :
  List.length (updateGlobal h x value) = List.length h
  /\ map id (updateGlobal h x value) = map id h
  /\ map dateStr (updateGlobal h x value) = map dateStr h
  /\ map (fun s => List.length (records s)) (updateGlobal h x value)
     = map (fun s => List.length (records s)) h.
Proof.
  rewrite updateGlobal_sessions.
  repeat split; [ apply length_map | | | ]; rewrite map_map;
    apply map_ext; intros s; simpl; [ reflexivity | reflexivity | ].
  apply length_map.
Qed.

(** The record at place [j] of session [i] after the update. *)
Lemma updateGlobal_at h x value i j s r :
  nth_error h i = Some s -> nth_error (records s) j = Some r ->
  exists s',
    nth_error (updateGlobal h x value) i = Some s'
    /\ nth_error (records s') j = Some (retarget x value r).
Proof.
  intros Hs Hr. rewrite updateGlobal_sessions.
  eexists. split.
  - rewrite nth_error_map, Hs. reflexivity.
  - simpl. now rewrite nth_error_map, Hr.
Qed.

End UpdateFacts.

(* ================================================================= *)
(** ** Entries of the consolidated maps *)

Section EntryFacts.
Context {Item : Type} `{Flagged Item}.
Implicit Types (r e : Item) (g : string)
               (h : list (Session Item)) (s : Session Item).

Lemma overwrite_entry g h e :
  mapGet g (uniqueMapOverwrite h) = Some e -> mergedEntry g h e.
Proof.
  intros He. pose proof He as He'. rewrite uniqueMapOverwrite_get in He'.
  destruct (merged_of_copies (copies_oldest g h) He') as [Hg Hf].
  repeat split; [ exact Hg | exact Hf | ].
  destruct (merged_head _ He') as [r [older [E [Hc _]]]].
  destruct (@last_copy_newest _ _ _ _ _ _ (oldestFirst_sorted h) E)
    as [s [Hs [Hr Hmax]]].
  assert (Hin : In r (filter (hasSig g) (allRecords (oldestFirst h))))
    by (apply in_rev; rewrite E; now left).
  apply filter_In in Hin. destruct Hin as [_ Hgr].
  apply String.eqb_eq in Hgr.
  exists s, r. repeat split; auto; [ now apply sortBy_In in Hs | ].
  intros s' r' Hs' Hr' Hg'. apply (Hmax s' r'); auto. now apply sortBy_In.
Qed.

Lemma keepFirst_entry g h e :
  mapGet g (uniqueMapKeepFirst h) = Some e -> mergedEntry g h e.
Proof.
  intros He. pose proof He as He'. rewrite uniqueMapKeepFirst_get in He'.
  destruct (merged_of_copies (copies_newest g h) He') as [Hg Hf].
  repeat split; [ exact Hg | exact Hf | ].
  destruct (merged_head _ He') as [r [older [E [Hc _]]]].
  destruct (@first_copy_newest _ _ _ _ _ _ (newestFirst_sorted h) E)
    as [s [Hs [Hr Hmax]]].
  assert (Hin : In r (filter (hasSig g) (allRecords (newestFirst h))))
    by (rewrite E; now left).
  apply filter_In in Hin. destruct Hin as [_ Hgr].
  apply String.eqb_eq in Hgr.
  exists s, r. repeat split; auto; [ now apply sortBy_In in Hs | ].
  intros s' r' Hs' Hr' Hg'. apply (Hmax s' r'); auto. now apply sortBy_In.
Qed.

Lemma overwrite_occurs g h :
  occursIn g h -> exists e, mapGet g (uniqueMapOverwrite h) = Some e.
Proof.
  intros Ho. rewrite uniqueMapOverwrite_get. apply merged_some.
  exact (copies_occur (copies_oldest g h) Ho).
Qed.

Lemma keepFirst_occurs g h :
  occursIn g h -> exists e, mapGet g (uniqueMapKeepFirst h) = Some e.
Proof.
  intros Ho. rewrite uniqueMapKeepFirst_get. apply merged_some.
  exact (copies_occur (copies_newest g h) Ho).
Qed.

Lemma overwrite_value h e :
  In e (mapValues (uniqueMapOverwrite h))
  <-> mapGet (signature e) (uniqueMapOverwrite h) = Some e.
Proof.
  apply values_by_signature;
    [ apply uniqueMapOverwrite_keys | apply uniqueMapOverwrite_keyed ].
Qed.

Lemma keepFirst_value h e :
  In e (mapValues (uniqueMapKeepFirst h))
  <-> mapGet (signature e) (uniqueMapKeepFirst h) = Some e.
Proof.
  apply values_by_signature;
    [ apply uniqueMapKeepFirst_keys | apply uniqueMapKeepFirst_keyed ].
Qed.

End EntryFacts.

(* ================================================================= *)
(** ** The consolidated views *)

Lemma event_sameContent (a b : EventClock.EventItem) :
  sameContent a b <-> EventClock.sameButFlag a b.
Proof.
  unfold sameContent, EventClock.sameButFlag. simpl.
  unfold EventClock.withAdded. split.
  - intros [= -> -> -> -> -> -> ->]. repeat split.
  - destruct a, b; simpl; intros (-> & -> & -> & -> & -> & -> & ->).
    reflexivity.
Qed.

Lemma news_sameContent (a b : Radar.NewsItem) :
  sameContent a b <-> Radar.sameButFlag a b.
Proof.
  unfold sameContent, Radar.sameButFlag. simpl.
  unfold Radar.withRead. split.
  - intros [= -> -> -> -> -> -> -> ->]. repeat split.
  - destruct a, b; simpl; intros (-> & -> & -> & -> & -> & -> & -> & ->).
    reflexivity.
Qed.

Lemma masterEvents_subset now hidePastEvents history e :
  In e (EventClock.masterEvents now hidePastEvents history) ->
  In e (mapValues (uniqueMapOverwrite history)).
Proof.
  unfold EventClock.masterEvents. intros Hin.
  assert (In e (sortBy (EventClock.byStart now)
                       (mapValues (uniqueMapOverwrite history)))) as Hs.
  { destruct hidePastEvents; [ | exact Hin ].
    apply filter_In in Hin. tauto. }
  now apply sortBy_In in Hs.
Qed.

Lemma masterEvents_unfiltered now history e :
  In e (mapValues (uniqueMapOverwrite history)) ->
  In e (EventClock.masterEvents now false history).
Proof. unfold EventClock.masterEvents. intros Hin. now apply sortBy_In. Qed.

Lemma masterItems_subset onlyHighPriority history i :
  In i (Radar.masterItems onlyHighPriority history) ->
  In i (mapValues (uniqueMapKeepFirst history)).
Proof.
  unfold Radar.masterItems. destruct onlyHighPriority; [ | auto ].
  intros Hin. apply filter_In in Hin. tauto.
Qed.

Lemma masterEvents_signatures now hidePastEvents history :
  NoDup (map EventClock.getEventSignature
             (EventClock.masterEvents now hidePastEvents history)).
Proof.
  unfold EventClock.masterEvents.
  assert (NoDup (map EventClock.getEventSignature
                     (sortBy (EventClock.byStart now)
                             (mapValues (uniqueMapOverwrite history))))) as Hs.
  { eapply Permutation_NoDup.
    - apply Permutation_map. apply sortBy_perm.
    - exact (values_signatures (uniqueMapOverwrite_keys history)
                               (uniqueMapOverwrite_keyed history)). }
  destruct hidePastEvents; [ now apply NoDup_map_filter | exact Hs ].
Qed.

Lemma masterItems_signatures onlyHighPriority history :
  NoDup (map Radar.getNewsSignature
             (Radar.masterItems onlyHighPriority history)).
Proof.
  unfold Radar.masterItems.
  pose proof (values_signatures (uniqueMapKeepFirst_keys history)
                                (uniqueMapKeepFirst_keyed history)) as Hs.
  destruct onlyHighPriority; [ now apply NoDup_map_filter | exact Hs ].
Qed.

(** C1.  In either consolidated view a record's flag is true exactly
    when some record of its signature, in any session, has a true flag;
    a view holds at most one record of a signature, and the unfiltered
    views hold one for every signature of the history. *)
Theorem consolidated_flag_is_or (now : Z)
    (hidePastEvents onlyHighPriority : bool)
    (eventHistory : list EventClock.ScanSession)
    (newsHistory : list Radar.ScanSession) :
  (forall e,
      In e (EventClock.masterEvents now hidePastEvents eventHistory) ->
      truthy (EventClock.addedToCalendar e)
      = flagAnywhere (EventClock.getEventSignature e) eventHistory)
  /\ (forall g,
         occursIn g eventHistory ->
         exists e,
           In e (EventClock.masterEvents now false eventHistory)
           /\ EventClock.getEventSignature e = g
           /\ truthy (EventClock.addedToCalendar e)
              = flagAnywhere g eventHistory)
  /\ NoDup (map EventClock.getEventSignature
                (EventClock.masterEvents now hidePastEvents eventHistory))
  /\ (forall i,
         In i (Radar.masterItems onlyHighPriority newsHistory) ->
         truthy (Radar.read i)
         = flagAnywhere (Radar.getNewsSignature i) newsHistory)
  /\ (forall g,
         occursIn g newsHistory ->
         exists i,
           In i (Radar.masterItems false newsHistory)
           /\ Radar.getNewsSignature i = g
           /\ truthy (Radar.read i) = flagAnywhere g newsHistory)
  /\ NoDup (map Radar.getNewsSignature
                (Radar.masterItems onlyHighPriority newsHistory)).
Proof.
  repeat apply conj.
  - intros e He. apply masterEvents_subset, overwrite_value in He.
    apply overwrite_entry in He. exact (proj1 (proj2 He)).
  - intros g Hg. destruct (overwrite_occurs Hg) as [e He].
    destruct (overwrite_entry _ _ He) as [Hsig [Hflag _]].
    exists e. repeat split; [ | exact Hsig | exact Hflag ].
    apply masterEvents_unfiltered, overwrite_value.
    change (signature e) with (EventClock.getEventSignature e) in *.
    now rewrite Hsig.
  - apply masterEvents_signatures.
  - intros i Hi. apply masterItems_subset, keepFirst_value in Hi.
    apply keepFirst_entry in Hi. exact (proj1 (proj2 Hi)).
  - intros g Hg. destruct (keepFirst_occurs Hg) as [i Hi].
    destruct (keepFirst_entry _ _ Hi) as [Hsig [Hflag _]].
    exists i. repeat split; [ | exact Hsig | exact Hflag ].
    unfold Radar.masterItems. apply keepFirst_value.
    change (signature i) with (Radar.getNewsSignature i) in *.
    now rewrite Hsig.
  - apply masterItems_signatures.
Qed.

(** C2.  The consolidated record of a signature has the content, all
    fields but the flag, of a record of that signature in a session
    that no session holding the signature is newer than.  So when a
    record [r] of a session [s] is such that every record of its
    signature lies in a session older than [s] or has the content of
    [r], the consolidated record has the content of [r]: of two
    sessions that differ in their descriptive text the newer one's text
    is kept. *)
Theorem consolidated_content_is_newest (now : Z)
    (hidePastEvents onlyHighPriority : bool)
    (eventHistory : list EventClock.ScanSession)
    (newsHistory : list Radar.ScanSession) :
  (forall e,
      In e (EventClock.masterEvents now hidePastEvents eventHistory) ->
      exists s r,
        In s eventHistory /\ In r (EventClock.events s)
        /\ EventClock.getEventSignature r = EventClock.getEventSignature e
        /\ EventClock.sameButFlag e r
        /\ forall s' r',
             In s' eventHistory -> In r' (EventClock.events s') ->
             EventClock.getEventSignature r'
             = EventClock.getEventSignature e ->
             id s' <= id s)
  /\ (forall s r e,
         In s eventHistory -> In r (EventClock.events s) ->
         (forall s' r',
             In s' eventHistory -> In r' (EventClock.events s') ->
             EventClock.getEventSignature r'
             = EventClock.getEventSignature r ->
             id s' < id s \/ EventClock.sameButFlag r' r) ->
         In e (EventClock.masterEvents now hidePastEvents eventHistory) ->
         EventClock.getEventSignature e = EventClock.getEventSignature r ->
         EventClock.sameButFlag e r)
  /\ (forall i,
         In i (Radar.masterItems onlyHighPriority newsHistory) ->
         exists s r,
           In s newsHistory /\ In r (Radar.items s)
           /\ Radar.getNewsSignature r = Radar.getNewsSignature i
           /\ Radar.sameButFlag i r
           /\ forall s' r',
                In s' newsHistory -> In r' (Radar.items s') ->
                Radar.getNewsSignature r' = Radar.getNewsSignature i ->
                id s' <= id s)
  /\ (forall s r i,
         In s newsHistory -> In r (Radar.items s) ->
         (forall s' r',
             In s' newsHistory -> In r' (Radar.items s') ->
             Radar.getNewsSignature r' = Radar.getNewsSignature r ->
             id s' < id s \/ Radar.sameButFlag r' r) ->
         In i (Radar.masterItems onlyHighPriority newsHistory) ->
         Radar.getNewsSignature i = Radar.getNewsSignature r ->
         Radar.sameButFlag i r).
Proof.
  split; [ | split; [ | split ] ].
  - intros e He. apply masterEvents_subset, overwrite_value in He.
    destruct (overwrite_entry _ _ He)
      as (_ & _ & s & r & Hs & Hr & Hsig & Hc & Hmax).
    exists s, r.
    split; [ exact Hs | split; [ exact Hr | split; [ exact Hsig | split ] ] ].
    + now apply event_sameContent.
    + intros s' r' Hs' Hr' Hg. apply (Hmax s' r' Hs' Hr').
      now apply String.eqb_eq.
  - intros s r e Hs Hr Hothers He Hsig.
    apply masterEvents_subset, overwrite_value in He.
    change (signature e) with (EventClock.getEventSignature e) in He.
    rewrite Hsig in He.
    apply event_sameContent.
    eapply newest_content_overwrite; [ exact He | exact Hs | exact Hr | ].
    intros s' r' Hs' Hr' Hg. rewrite event_sameContent. now apply Hothers.
  - intros i Hi. apply masterItems_subset, keepFirst_value in Hi.
    destruct (keepFirst_entry _ _ Hi)
      as (_ & _ & s & r & Hs & Hr & Hsig & Hc & Hmax).
    exists s, r.
    split; [ exact Hs | split; [ exact Hr | split; [ exact Hsig | split ] ] ].
    + now apply news_sameContent.
    + intros s' r' Hs' Hr' Hg. apply (Hmax s' r' Hs' Hr').
      now apply String.eqb_eq.
  - intros s r i Hs Hr Hothers Hi Hsig.
    apply masterItems_subset, keepFirst_value in Hi.
    change (signature i) with (Radar.getNewsSignature i) in Hi.
    rewrite Hsig in Hi.
    apply news_sameContent.
    eapply newest_content_keepFirst; [ exact Hi | exact Hs | exact Hr | ].
    intros s' r' Hs' Hr' Hg. rewrite news_sameContent. now apply Hothers.
Qed.

(** C3.  Applying the signature-addressed update a second time with the
    same record and value leaves the stored history as the first
    application made it. *)
Theorem targeted_update_idempotent
    (eventHistory : list EventClock.ScanSession)
    (event : EventClock.EventItem) (added : bool)
    (newsHistory : list Radar.ScanSession)
    (item : Radar.NewsItem) (read : bool) :
  EventClock.updateEventGlobal
    (EventClock.updateEventGlobal eventHistory event added) event added
  = EventClock.updateEventGlobal eventHistory event added
  /\ Radar.updateItemGlobal
       (Radar.updateItemGlobal newsHistory item read) item read
     = Radar.updateItemGlobal newsHistory item read.
Proof.
  split; apply updateGlobal_idempotent.
Qed.

(** C4.  The update keeps the number of sessions, their identifiers,
    labels and order and the number of records of each session; the
    record at any place is unchanged when its signature differs from
    the given record's, and otherwise keeps every field but the flag,
    which becomes the new value. *)
Theorem targeted_update_frame
    (eventHistory : list EventClock.ScanSession)
    (event : EventClock.EventItem) (added : bool)
    (newsHistory : list Radar.ScanSession)
    (item : Radar.NewsItem) (read : bool) :
  let eventHistory' := EventClock.updateEventGlobal eventHistory event added in
  let newsHistory' := Radar.updateItemGlobal newsHistory item read in
  (List.length eventHistory' = List.length eventHistory
   /\ map id eventHistory' = map id eventHistory
   /\ map dateStr eventHistory' = map dateStr eventHistory
   /\ map (fun s => List.length (EventClock.events s)) eventHistory'
      = map (fun s => List.length (EventClock.events s)) eventHistory
   /\ forall i j s r,
        nth_error eventHistory i = Some s ->
        nth_error (EventClock.events s) j = Some r ->
        exists s' r',
          nth_error eventHistory' i = Some s'
          /\ nth_error (EventClock.events s') j = Some r'
          /\ (EventClock.getEventSignature r
              <> EventClock.getEventSignature event -> r' = r)
          /\ (EventClock.getEventSignature r
              = EventClock.getEventSignature event ->
              EventClock.sameButFlag r' r
              /\ EventClock.addedToCalendar r' = Some added))
  /\ (List.length newsHistory' = List.length newsHistory
      /\ map id newsHistory' = map id newsHistory
      /\ map dateStr newsHistory' = map dateStr newsHistory
      /\ map (fun s => List.length (Radar.items s)) newsHistory'
         = map (fun s => List.length (Radar.items s)) newsHistory
      /\ forall i j s r,
           nth_error newsHistory i = Some s ->
           nth_error (Radar.items s) j = Some r ->
           exists s' r',
             nth_error newsHistory' i = Some s'
             /\ nth_error (Radar.items s') j = Some r'
             /\ (Radar.getNewsSignature r
                 <> Radar.getNewsSignature item -> r' = r)
             /\ (Radar.getNewsSignature r = Radar.getNewsSignature item ->
                 Radar.sameButFlag r' r /\ Radar.read r' = Some read)).
Proof.
  intros eventHistory' newsHistory'. split.
  - destruct (updateGlobal_shape eventHistory event added)
      as (Hn & Hid & Hlabel & Hcount).
    repeat split; [ exact Hn | exact Hid | exact Hlabel | exact Hcount | ].
    intros i j s r Hs Hr.
    destruct (updateGlobal_at eventHistory event added i j Hs Hr)
      as [s' [Hs' Hr']].
    exists s', (retarget event added r).
    split; [ exact Hs' | split; [ exact Hr' | ] ].
    unfold retarget; simpl. split; intros Hsig.
    + apply String.eqb_neq in Hsig. now rewrite Hsig.
    + apply String.eqb_eq in Hsig. rewrite Hsig. now repeat split.
  - destruct (updateGlobal_shape newsHistory item read)
      as (Hn & Hid & Hlabel & Hcount).
    repeat split; [ exact Hn | exact Hid | exact Hlabel | exact Hcount | ].
    intros i j s r Hs Hr.
    destruct (updateGlobal_at newsHistory item read i j Hs Hr)
      as [s' [Hs' Hr']].
    exists s', (retarget item read r).
    split; [ exact Hs' | split; [ exact Hr' | ] ].
    unfold retarget; simpl. split; intros Hsig.
    + apply String.eqb_neq in Hsig. now rewrite Hsig.
    + apply String.eqb_eq in Hsig. rewrite Hsig. now repeat split.
Qed.

Lemma newest_text_wins_example :
  (In (EventClock.withAdded (Some true) eventNew)
      (EventClock.masterEvents sampleNow false eventHistory2)
   /\ EventClock.sameButFlag (EventClock.withAdded (Some true) eventNew)
                             eventNew)
  /\ (In (Radar.withRead (Some true) newsNew)
         (Radar.masterItems false newsHistory2)
      /\ Radar.sameButFlag (Radar.withRead (Some true) newsNew) newsNew).
Proof.
  destruct (consolidated_content_is_newest sampleNow false false
              eventHistory2 newsHistory2) as (_ & Hevents & _ & Hnews).
  assert (He : In (EventClock.withAdded (Some true) eventNew)
                  (EventClock.masterEvents sampleNow false eventHistory2))
    by (vm_compute; tauto).
  assert (Hi : In (Radar.withRead (Some true) newsNew)
                  (Radar.masterItems false newsHistory2))
    by (vm_compute; tauto).
  split; (split; [ assumption | ]).
  - apply (Hevents eventSessionNew eventNew);
      [ simpl; tauto | simpl; tauto | | exact He | reflexivity ].
    intros s' r' [<- | [<- | []]] Hr' Hsig; simpl in Hr'.
    + destruct Hr' as [<- | []]. right. now repeat split.
    + left. simpl. lia.
  - apply (Hnews newsSessionNew newsNew);
      [ simpl; tauto | simpl; tauto | | exact Hi | reflexivity ].
    intros s' r' [<- | [<- | []]] Hr' Hsig; simpl in Hr'.
    + destruct Hr' as [<- | []]. right. now repeat split.
    + left. simpl. lia.
Defined.

(** C10, as the code has it.  On a history whose session identifiers
    are pairwise distinct and none of whose sessions holds two records
    of one signature, the overwriting fold over the sessions oldest
    first and the keeping fold over the sessions newest first store the
    same record under every signature: the newest copy up to the flag,
    flagged when some copy is. *)
Theorem merge_variants_agree (Item : Type) (F : Flagged Item)
    (history : list (Session Item)) :
  NoDup (map id history) ->
  (forall s, In s history -> NoDup (map signature (records s))) ->
  forall g,
    mapGet g (uniqueMapOverwrite history)
    = mapGet g (uniqueMapKeepFirst history)
    /\ (forall e, mapGet g (uniqueMapKeepFirst history) = Some e ->
                  mergedEntry g history e).
Proof.
  intros Hid Hsess g. split.
  - now apply merges_agree.
  - apply keepFirst_entry.
Qed.

Lemma merge_variants_agree_example :
  mapGet "pitchnight" (uniqueMapOverwrite newsHistory2)
  = mapGet "pitchnight" (uniqueMapKeepFirst newsHistory2)
  /\ mapGet "pitchnight" (uniqueMapKeepFirst newsHistory2)
     = Some (Radar.withRead (Some true) newsNew).
Proof.
  split; [ | reflexivity ].
  apply (merge_variants_agree Radar.NewsItem_Flagged newsHistory2).
  - repeat constructor; simpl; intuition discriminate.
  - intros s [<- | [<- | []]]; vm_compute;
      repeat constructor; simpl; intuition discriminate.
Defined.

Lemma merge_variants_differ :
  mapGet "pitchnight" (uniqueMapOverwrite newsHistoryTwice)
  <> mapGet "pitchnight" (uniqueMapKeepFirst newsHistoryTwice)
  /\ mapGet "pitchnight" (uniqueMapOverwrite newsHistoryTied)
     <> mapGet "pitchnight" (uniqueMapKeepFirst newsHistoryTied).
Proof.
  split; vm_compute; discriminate.
Qed.

(* ================================================================= *)
(** ** The order of the consolidated views *)

Section OrderFacts.
Context {Item : Type} `{Flagged Item}.
Implicit Types (m : UMap Item) (r : Item) (h : list (Session Item)).






End OrderFacts.




(* ================================================================= *)
(** ** Dates *)

Section DateFacts.

Lemma MonthFromDay_range d : 0 <= MonthFromDay d <= 11.
Proof.
  unfold MonthFromDay.
  repeat match goal with
         | |- context [ if ?b then _ else _ ] => destruct b
         end; lia.
Qed.

(** Counting days from the date of a day number lands [k] days later. *)
Lemma MakeDay_from_date d k :
  MakeDay (YearFromDay d) (MonthFromDay d) (DateFromDay d + k) = d + k.
Proof.
  pose proof (MonthFromDay_range d) as Hm.
  unfold MakeDay, DateFromDay, DayWithinYear.
  rewrite Z.div_small, Z.mod_small, Z.add_0_r by lia.
  lia.
Qed.

Lemma setDate_shift t k : setDate t (getDate t + k) = t + k * msPerDay.
Proof.
  unfold setDate, getDate, getFullYear, getMonth.
  rewrite MakeDay_from_date.
  unfold MakeDate, Day, TimeWithinDay, msPerDay.
  pose proof (Z.div_mod t 86400000). lia.
Qed.

Lemma Day_MakeDate D tm : 0 <= tm < msPerDay -> Day (MakeDate D tm) = D.
Proof.
  unfold Day, MakeDate, msPerDay. intros Htm.
  rewrite Z.div_add_l by lia. rewrite Z.div_small by lia. lia.
Qed.

Lemma midnight_parts y m d :
  Day (newDate y m d 0 0 0)
  = MakeDay (if (0 <=? y) && (y <=? 99) then 1900 + y else y) m d
  /\ getMilliseconds (newDate y m d 0 0 0) = 0.
Proof.
  unfold newDate. split.
  - apply Day_MakeDate. unfold MakeTime, msPerDay. lia.
  - unfold getMilliseconds, MakeDate, MakeTime, msPerDay, msPerHour,
      msPerMinute, msPerSecond.
    match goal with
    | |- (?D * 86400000 + _) mod 1000 = 0 =>
        replace (D * 86400000 + (0 * 3600000 + 0 * 60000 + 0 * 1000 + 0))
          with (0 + (D * 86400) * 1000) by lia
    end.
    now rewrite Z.mod_add by lia.
Qed.

(** Setting the time of a midnight is building the date at that time. *)
Lemma setHours_midnight y m d hh mm :
  setHours (newDate y m d 0 0 0) hh mm 0
           (getMilliseconds (newDate y m d 0 0 0))
  = newDate y m d hh mm 0.
Proof.
  destruct (midnight_parts y m d) as [HD Hms].
  unfold setHours. rewrite HD, Hms. reflexivity.
Qed.

(** [YearFromDay] is ECMAScript's [YearFromTime]: the largest year
    whose first day is not after the day. *)
Lemma YearFromDay_spec d :
  DayFromYear (YearFromDay d) <= d < DayFromYear (YearFromDay d + 1).
Proof.
  unfold DayFromYear, YearFromDay. cbv zeta.
  Z.div_mod_to_equations. lia.
Qed.

Lemma DayFromYear_increasing y y' :
  y < y' -> DayFromYear y < DayFromYear y'.
Proof.
  unfold DayFromYear. intros Hlt.
  Z.div_mod_to_equations. lia.
Qed.

Lemma YearFromDay_largest d y : DayFromYear y <= d <-> y <= YearFromDay d.
Proof.
  pose proof (YearFromDay_spec d) as Hd.
  split; intros Hy.
  - destruct (Z_le_gt_dec y (YearFromDay d)) as [Hle | Hgt];
      [ exact Hle | ].
    assert (DayFromYear (YearFromDay d + 1) <= DayFromYear y).
    { destruct (Z.eq_dec (YearFromDay d + 1) y) as [-> | Hne]; [ lia | ].
      apply Z.lt_le_incl, DayFromYear_increasing. lia. }
    lia.
  - destruct (Z.eq_dec y (YearFromDay d)) as [-> | Hne]; [ lia | ].
    assert (DayFromYear y < DayFromYear (YearFromDay d))
      by (apply DayFromYear_increasing; lia).
    lia.
Qed.

Lemma DayFromYear_next y :
  DayFromYear (y + 1) = DayFromYear y + 365 + leapDay y.
Proof.
  unfold DayFromYear, leapDay, InLeapYear.
  replace (y + 1 - 1969) with (y - 1968) by lia.
  replace (y + 1 - 1901) with (y - 1900) by lia.
  replace (y + 1 - 1601) with (y - 1600) by lia.
  assert (H4 : (y - 1968) / 4
               = (y - 1969) / 4 + (if y mod 4 =? 0 then 1 else 0))
    by (destruct (Z.eqb_spec (y mod 4) 0); Z.div_mod_to_equations; lia).
  assert (H100 : (y - 1900) / 100
                 = (y - 1901) / 100 + (if y mod 100 =? 0 then 1 else 0))
    by (destruct (Z.eqb_spec (y mod 100) 0); Z.div_mod_to_equations; lia).
  assert (H400 : (y - 1600) / 400
                 = (y - 1601) / 400 + (if y mod 400 =? 0 then 1 else 0))
    by (destruct (Z.eqb_spec (y mod 400) 0); Z.div_mod_to_equations; lia).
  rewrite H4, H100, H400.
  assert (D1 : y mod 100 = 0 -> y mod 4 = 0)
    by (Z.div_mod_to_equations; lia).
  assert (D2 : y mod 400 = 0 -> y mod 100 = 0)
    by (Z.div_mod_to_equations; lia).
  destruct (Z.eqb_spec (y mod 4) 0), (Z.eqb_spec (y mod 100) 0),
    (Z.eqb_spec (y mod 400) 0); cbn [negb andb orb]; lia.
Qed.

Lemma YearFromDay_within y n :
  0 <= n < 365 + leapDay y -> YearFromDay (DayFromYear y + n) = y.
Proof.
  intros Hn. pose proof (DayFromYear_next y) as Hnext.
  pose proof (YearFromDay_spec (DayFromYear y + n)) as Hs.
  assert (Hle : y <= YearFromDay (DayFromYear y + n))
    by (apply YearFromDay_largest; lia).
  destruct (Z.eq_dec (YearFromDay (DayFromYear y + n)) y) as [E | Hne];
    [ exact E | ].
  assert (DayFromYear (y + 1) <= DayFromYear (YearFromDay (DayFromYear y + n))).
  { destruct (Z.eq_dec (y + 1) (YearFromDay (DayFromYear y + n)))
      as [<- | Hne']; [ lia | ].
    apply Z.lt_le_incl, DayFromYear_increasing. lia. }
  lia.
Qed.

Ltac table_values :=
  repeat match goal with
         | |- context [ monthStart ?a ?b ] =>
             let v := eval vm_compute in (monthStart a b) in
             change (monthStart a b) with v
         | H : context [ monthLength ?a ?b ] |- _ =>
             let v := eval vm_compute in (monthLength a b) in
             change (monthLength a b) with v in H
         end.

(** A calendar date is read back from the day number built from it. *)
Lemma MakeDay_read_back y m dt :
  0 <= m <= 11 -> 1 <= dt <= monthLength m (leapDay y) ->
  YearFromDay (MakeDay y m dt) = y
  /\ MonthFromDay (MakeDay y m dt) = m
  /\ DateFromDay (MakeDay y m dt) = dt.
Proof.
  intros Hm Hdt.
  assert (HD : MakeDay y m dt
               = DayFromYear y + (monthStart m (leapDay y) + dt - 1)).
  { unfold MakeDay. rewrite Z.div_small, Z.mod_small, Z.add_0_r by lia. lia. }
  assert (Hl : leapDay y = 0 \/ leapDay y = 1)
    by (unfold leapDay; destruct (InLeapYear y); lia).
  assert (Hcases : m = 0 \/ m = 1 \/ m = 2 \/ m = 3 \/ m = 4 \/ m = 5 \/
                   m = 6 \/ m = 7 \/ m = 8 \/ m = 9 \/ m = 10 \/ m = 11)
    by lia.
  assert (Hy : YearFromDay (MakeDay y m dt) = y).
  { rewrite HD. apply YearFromDay_within.
    destruct Hl as [Hl | Hl]; rewrite Hl in *;
      repeat (destruct Hcases as [-> | Hcases]); try subst m;
      table_values; lia. }
  assert (Hmonth : MonthFromDay (MakeDay y m dt) = m).
  { unfold MonthFromDay, DayWithinYear. rewrite Hy, HD.
    replace (DayFromYear y + (monthStart m (leapDay y) + dt - 1)
             - DayFromYear y)
      with (monthStart m (leapDay y) + dt - 1) by lia.
    destruct Hl as [Hl | Hl]; rewrite Hl in *;
      repeat (destruct Hcases as [-> | Hcases]); try subst m;
      table_values;
      repeat match goal with
             | |- context [ ?a <? ?b ] =>
                 first [ replace (a <? b) with true
                           by (symmetry; apply Z.ltb_lt; lia)
                       | replace (a <? b) with false
                           by (symmetry; apply Z.ltb_ge; lia) ];
                 cbv iota
             end;
      reflexivity. }
  split; [ exact Hy | split; [ exact Hmonth | ] ].
  unfold DateFromDay, DayWithinYear. rewrite Hmonth, Hy, HD. lia.
Qed.

(** The getters of a date built from a calendar date and a time of day. *)
Lemma newDate_getters y m dt hh mm :
  ~ (0 <= y <= 99) -> 0 <= m <= 11 ->
  1 <= dt <= monthLength m (leapDay y) ->
  0 <= hh -> 0 <= mm -> 60 * hh + mm < 1440 ->
  getFullYear (newDate y m dt hh mm 0) = y
  /\ getMonth (newDate y m dt hh mm 0) = m
  /\ getDate (newDate y m dt hh mm 0) = dt.
Proof.
  intros Hy Hm Hdt Hh Hmm Hlt.
  unfold getFullYear, getMonth, getDate, newDate.
  replace ((0 <=? y) && (y <=? 99)) with false
    by (symmetry; apply andb_false_iff;
        destruct (Z.leb_spec 0 y), (Z.leb_spec y 99); auto; lia).
  rewrite Day_MakeDate
    by (unfold MakeTime, msPerDay, msPerHour, msPerMinute, msPerSecond; lia).
  now apply MakeDay_read_back.
Qed.

End DateFacts.

(* ================================================================= *)
(** ** [parseEventDateInfo] *)

Section ParseFacts.
Import EventClock.

Lemma digitsValue_nonneg s acc :
  allDigits s = true -> 0 <= acc -> 0 <= digitsValue acc s.
Proof.
  revert acc.
  induction s as [ | c s IH ]; cbn [digitsValue allDigits];
    intros acc Hs Hacc; [ exact Hacc | ].
  apply andb_true_iff in Hs. destruct Hs as [Hc Hs].
  apply IH; [ exact Hs | ].
  unfold isDigit, inRange in Hc. apply andb_true_iff in Hc.
  destruct Hc as [Hlo _]. apply Z.leb_le in Hlo. lia.
Qed.

Lemma parseInt_nonneg s : allDigits s = true -> 0 <= parseInt s.
Proof. intros Hs. apply digitsValue_nonneg; [ exact Hs | lia ]. Qed.

Lemma minutesOf_nonneg s : allDigits s = true -> 0 <= minutesOf s.
Proof.
  destruct s; simpl; [ lia | ]. intros Hs.
  now apply (parseInt_nonneg (String a s)).
Qed.

Lemma takeDigits_allDigits n s : allDigits (fst (takeDigits n s)) = true.
Proof.
  revert s. induction n as [ | n IH ]; intros s; simpl;
    [ now destruct s | ].
  destruct s as [ | c s ]; simpl; [ reflexivity | ].
  destruct (isDigit c) eqn:E; [ | reflexivity ].
  specialize (IH s). destruct (takeDigits n s) as [ds rest]. simpl in *.
  now rewrite E, IH.
Qed.

Lemma timeTail_digits s mm rest :
  timeTail s = Some (mm, rest) -> allDigits mm = true.
Proof.
  unfold timeTail. destruct (skipSpaces s) as [ | c s' ]; [ discriminate | ].
  destruct (isTimeSep c); [ | discriminate ].
  pose proof (takeDigits_allDigits 2 (skipSpaces s')) as Hd.
  destruct (takeDigits 2 (skipSpaces s')) as [ds r].
  intros [= <- <-]. exact Hd.
Qed.

Lemma timeAt_digits s hh mm rest :
  timeAt s = Some (hh, mm, rest) -> digitPair (hh, mm).
Proof.
  unfold timeAt.
  assert (Htry : forall n,
    match takeDigits n s with
    | (EmptyString, _) => None
    | (h0, r0) =>
        match timeTail r0 with
        | Some (m0, r1) => Some (h0, m0, r1)
        | None => None
        end
    end = Some (hh, mm, rest) -> digitPair (hh, mm)).
  { intros n. pose proof (takeDigits_allDigits n s) as Hd.
    destruct (takeDigits n s) as [h0 r0]. simpl in Hd.
    destruct h0 as [ | c h0 ]; [ discriminate | ].
    destruct (timeTail r0) as [ [m0 r1] | ] eqn:Et; [ | discriminate ].
    intros [= <- <- <-]. split; [ exact Hd | ].
    exact (timeTail_digits _ Et). }
  destruct (match takeDigits 2 s with
            | (EmptyString, _) => None
            | (h0, r0) =>
                match timeTail r0 with
                | Some (m0, r1) => Some (h0, m0, r1)
                | None => None
                end
            end) as [ [[h2 m2] r2] | ] eqn:E2.
  - intros [= <- <- <-]. now apply (Htry 2%nat).
  - apply (Htry 1%nat).
Qed.

Lemma timeMatchesFrom_digits s skip :
  Forall digitPair (timeMatchesFrom skip s).
Proof.
  revert skip. induction s as [ | c s IH ]; intros skip; simpl;
    [ constructor | ].
  destruct skip as [ | k ]; [ | apply IH ].
  destruct (timeAt (String c s)) as [ [[hh mm] rest] | ] eqn:E; [ | apply IH ].
  constructor; [ exact (timeAt_digits _ E) | apply IH ].
Qed.

Lemma timeMatches_digits s : Forall digitPair (timeMatches s).
Proof. apply timeMatchesFrom_digits. Qed.

(** The two dates in terms of the fields. *)
Lemma buildDates_start f :
  start (buildDates f)
  = newDate (year f) (month f) (day f) (startHour f) (startMin f) 0.
Proof.
  unfold buildDates.
  destruct (negb (endHour f =? -1)); [ | reflexivity ].
  now destruct (_ <? _).
Qed.

Lemma endSameDay_built f :
  endSameDay f = newDate (year f) (month f) (day f) (endHour f) (endMin f) 0.
Proof. apply setHours_midnight. Qed.

Lemma buildDates_end_found f :
  endHour f <> -1 ->
  end_ (buildDates f)
  = if endSameDay f <? start (buildDates f)
    then endSameDay f + msPerDay else endSameDay f.
Proof.
  intros Hfound. rewrite buildDates_start. unfold buildDates.
  apply Z.eqb_neq in Hfound. rewrite Hfound. cbn [negb].
  destruct (endSameDay f <? _); cbn [end_]; [ | reflexivity ].
  rewrite setDate_shift. lia.
Qed.

(** A start time before 24:00 stays on the day the dates are built on,
    and then the default end is two hours after the start. *)
Lemma start_on_its_day y m d hh mm :
  0 <= hh -> 0 <= mm -> 60 * hh + mm < 1440 ->
  Day (newDate y m d hh mm 0) = Day (newDate y m d 0 0 0).
Proof.
  intros Hh Hm Hlt. unfold newDate.
  rewrite !Day_MakeDate; [ reflexivity | | ];
    unfold MakeTime, msPerDay, msPerHour, msPerMinute, msPerSecond; lia.
Qed.

Lemma clock_of_start y m d hh mm :
  0 <= hh -> 0 <= mm -> 60 * hh + mm < 1440 ->
  getHours (newDate y m d hh mm 0) = hh + mm / 60
  /\ getMinutes (newDate y m d hh mm 0) = mm mod 60.
Proof.
  intros Hh Hm Hlt.
  unfold getHours, getMinutes, newDate, MakeDate, MakeTime,
    msPerDay, msPerHour, msPerMinute, msPerSecond.
  match goal with
  | |- context [ MakeDay ?a ?b ?c ] => generalize (MakeDay a b c) as D
  end.
  intros D. split.
  - replace (D * 86400000 + (hh * 3600000 + mm * 60000 + 0 * 1000 + 0))
      with (mm * 60000 + (D * 24 + hh) * 3600000) by lia.
    rewrite Z.div_add by lia.
    replace (mm * 60000 / 3600000) with (mm / 60).
    2:{ replace 3600000 with (60 * 60000) by lia.
        now rewrite Z.div_mul_cancel_r by lia. }
    pose proof (Z.div_mod mm 60). pose proof (Z.mod_pos_bound mm 60).
    replace (mm / 60 + (D * 24 + hh)) with (hh + mm / 60 + D * 24) by lia.
    rewrite Z.mod_add by lia. apply Z.mod_small. lia.
  - replace (D * 86400000 + (hh * 3600000 + mm * 60000 + 0 * 1000 + 0))
      with ((D * 1440 + hh * 60 + mm) * 60000) by lia.
    rewrite Z.div_mul by lia.
    replace (D * 1440 + hh * 60 + mm) with (mm + (D * 24 + hh) * 60) by lia.
    now rewrite Z.mod_add by lia.
Qed.

Lemma buildDates_end_default f :
  endHour f = -1 ->
  0 <= startHour f -> 0 <= startMin f ->
  60 * startHour f + startMin f < 1440 ->
  end_ (buildDates f) = start (buildDates f) + 2 * msPerHour.
Proof.
  intros Hnone Hh Hm Hlt. rewrite buildDates_start.
  unfold buildDates. rewrite Hnone.
  change (-1 =? -1) with true. cbn [negb end_].
  destruct (clock_of_start (year f) (month f) (day f) Hh Hm Hlt)
    as [-> ->].
  rewrite setHours_midnight.
  unfold newDate, MakeDate, MakeTime, msPerHour, msPerMinute, msPerSecond.
  pose proof (Z.div_mod (startMin f) 60). lia.
Qed.

End ParseFacts.

Section ExtractorFacts.
Import EventClock.

Lemma parseFields_times now s :
  let f := parseFields now s in
  match timeMatches (toLowerCase s) with
  | [] => startHour f = 9 /\ startMin f = 0 /\ endHour f = -1
  | [(h0, m0)] =>
      startHour f = parseInt h0 /\ startMin f = minutesOf m0
      /\ endHour f = -1
  | (h0, m0) :: (h1, m1) :: _ =>
      startHour f = parseInt h0 /\ startMin f = minutesOf m0
      /\ endHour f = parseInt h1 /\ endMin f = minutesOf m1
  end.
Proof.
  unfold parseFields. cbv zeta.
  destruct (timeMatches (toLowerCase s)) as [ | [h0 m0] [ | [h1 m1] rest ] ];
    cbn [startHour startMin endHour endMin]; repeat split.
Qed.

Lemma parseFields_date now s :
  let f := parseFields now s in
  month f = match detectMonth months (toLowerCase s) with
            | Some mIdx => mIdx
            | None => getMonth now
            end
  /\ day f = match dayMatches (maskTimes (toLowerCase s)) with
             | Some d => parseInt d
             | None => getDate now + 1
             end
  /\ year f = if month f <? getMonth now then getFullYear now + 1
              else getFullYear now.
Proof.
  unfold parseFields. cbv zeta.
  destruct (timeMatches (toLowerCase s)) as [ | [h0 m0] [ | [h1 m1] rest ] ];
    cbn [day month year]; repeat split.
Qed.

(** The start time read from the text is not negative. *)
Lemma start_time_nonneg now s :
  0 <= startHour (parseFields now s) /\ 0 <= startMin (parseFields now s).
Proof.
  pose proof (parseFields_times now s) as Ht. cbv zeta in Ht.
  pose proof (timeMatches_digits (toLowerCase s)) as Hd.
  destruct (timeMatches (toLowerCase s)) as [ | [h0 m0] [ | [h1 m1] rest ] ].
  - destruct Ht as (-> & -> & _). lia.
  - destruct Ht as (-> & -> & _).
    inversion Hd as [ | ? ? [Hh Hm] _ ]; subst.
    split; [ now apply parseInt_nonneg | now apply minutesOf_nonneg ].
  - destruct Ht as (-> & -> & _).
    inversion Hd as [ | ? ? [Hh Hm] _ ]; subst.
    split; [ now apply parseInt_nonneg | now apply minutesOf_nonneg ].
Qed.

(** What [parseEventDateInfo] puts in the place of a component the text
    does not give; the default end is two hours after the start when
    the start time read is before 24:00. *)
Lemma parse_defaults now s :
  let f := parseFields now s in
  let d := parseEventDateInfo now s in
  (detectMonth months (toLowerCase s) = None -> month f = getMonth now)
  /\ (dayMatches (maskTimes (toLowerCase s)) = None ->
      day f = getDate now + 1)
  /\ (timeMatches (toLowerCase s) = [] ->
      startHour f = 9 /\ startMin f = 0
      /\ end_ d = start d + 2 * msPerHour)
  /\ (forall p, timeMatches (toLowerCase s) = [p] ->
      60 * startHour f + startMin f < 1440 ->
      end_ d = start d + 2 * msPerHour).
Proof.
  cbv zeta. unfold parseEventDateInfo.
  destruct (parseFields_date now s) as (Hmonth & Hday & _).
  pose proof (parseFields_times now s) as Ht. cbv zeta in Ht.
  destruct (start_time_nonneg now s) as [Hh Hm].
  split; [ | split; [ | split ] ].
  - intros E. now rewrite E in Hmonth.
  - intros E. now rewrite E in Hday.
  - intros E. rewrite E in Ht. destruct Ht as (Hsh & Hsm & Heh).
    split; [ exact Hsh | split; [ exact Hsm | ] ].
    apply buildDates_end_default; [ exact Heh | lia | lia | lia ].
  - intros [h0 m0] E Hlt. rewrite E in Ht. destruct Ht as (_ & _ & Heh).
    apply buildDates_end_default; assumption.
Qed.

Lemma newDate_next_day y m d hh mm :
  newDate y m (d + 1) hh mm 0 = newDate y m d hh mm 0 + msPerDay.
Proof. unfold newDate, MakeDate, MakeDay, msPerDay. lia. Qed.

Lemma newDate_next_hours y m d hh mm :
  newDate y m d (hh + 24) mm 0 = newDate y m (d + 1) hh mm 0.
Proof.
  rewrite newDate_next_day.
  unfold newDate, MakeDate, MakeTime, msPerDay, msPerHour. lia.
Qed.

(** Worked inputs, with the clock at noon of the first of October
    2025. *)
Example masks_times_before_the_day :
  maskTimes "jeudi 24 oct, 09h00 - 18h00" = "jeudi 24 oct, TIME - TIME"
  /\ dayMatches (maskTimes "jeudi 24 oct, 09h00 - 18h00") = Some "24"
  /\ timeMatches "jeudi 24 oct, 09h00 - 18h00" = [("09", "00"); ("18", "00")].
Proof. repeat split. Qed.

Example colon_after_a_year_reads_as_a_time :
  maskTimes "24 oct 2025: 9h" = "24 oct 20TIMEh"
  /\ timeMatches "24 oct 2025: 9h" = [("25", "9")].
Proof. split; reflexivity. Qed.

Example month_names_in_table_order :
  detectMonth months (toLowerCase "Mardi 24 Oct") = Some 2
  /\ detectMonth months (toLowerCase "24/10 09:00 - 21:00") = None.
Proof. split; reflexivity. Qed.

Example no_time_defaults :
  let d := parseEventDateInfo sampleNow "15 nov" in
  (getFullYear (start d), getMonth (start d), getDate (start d),
   getHours (start d), getMinutes (start d)) = (2025, 10, 15, 9, 0)
  /\ end_ d = start d + 2 * msPerHour.
Proof. split; vm_compute; reflexivity. Qed.

Example no_day_defaults_to_tomorrow :
  let d := parseEventDateInfo sampleNow "reunion a 14h" in
  (getFullYear (start d), getMonth (start d), getDate (start d),
   getHours (start d), getMinutes (start d)) = (2025, 9, 2, 14, 0).
Proof. vm_compute. reflexivity. Qed.

(** The overnight rule on the day the fields name.  When the text holds
    a second time, the end is first built at that time on the day the
    start is built on (the start's calendar day, for a start time
    before 24:00); when that instant is strictly before the start the
    end returned is exactly one day later, and otherwise it is that
    instant.  Whatever the clock reads, the end of "24 oct, 22h-02h" is
    at 02:00 on the day after the start's. *)
Theorem overnight_span :
  (forall now dateStr,
      let f := parseFields now dateStr in
      let d := parseEventDateInfo now dateStr in
      (2 <= List.length (timeMatches (toLowerCase dateStr)))%nat ->
      start d
      = newDate (year f) (month f) (day f) (startHour f) (startMin f) 0
      /\ endSameDay f
         = newDate (year f) (month f) (day f) (endHour f) (endMin f) 0
      /\ (60 * startHour f + startMin f < 1440 ->
          endSameDay f = setHours (start d) (endHour f) (endMin f) 0 0)
      /\ (endSameDay f < start d -> end_ d = endSameDay f + msPerDay)
      /\ (start d <= endSameDay f -> end_ d = endSameDay f))
  /\ (forall now,
         let d := parseEventDateInfo now "24 oct, 22h-02h" in
         getHours (start d) = 22 /\ getMinutes (start d) = 0
         /\ Day (end_ d) = Day (start d) + 1
         /\ getHours (end_ d) = 2 /\ getMinutes (end_ d) = 0).
Proof.
  split.
  - intros now dateStr. cbv zeta. unfold parseEventDateInfo.
    set (f := parseFields now dateStr). intros Htwo.
    pose proof (parseFields_times now dateStr) as Ht. cbv zeta in Ht.
    pose proof (timeMatches_digits (toLowerCase dateStr)) as Hd.
    destruct (start_time_nonneg now dateStr) as [Hh Hm].
    fold f in Ht, Hh, Hm.
    destruct (timeMatches (toLowerCase dateStr))
      as [ | [h0 m0] [ | [h1 m1] rest ] ]; simpl in Htwo; try lia.
    destruct Ht as (_ & _ & Heh & _).
    assert (Hfound : endHour f <> -1).
    { inversion Hd as [ | ? ? _ Hd' ]; subst.
      inversion Hd' as [ | ? ? [Hh1 _] _ ]; subst.
      pose proof (parseInt_nonneg _ Hh1). simpl in *. lia. }
    assert (Hstart : start (buildDates f)
                     = newDate (year f) (month f) (day f)
                               (startHour f) (startMin f) 0)
      by apply buildDates_start.
    pose proof (buildDates_end_found f Hfound) as Hend.
    clearbody f.
    split; [ | split; [ | split; [ | split ] ] ].
    + exact Hstart.
    + apply endSameDay_built.
    + intros Hlt. rewrite endSameDay_built. unfold setHours.
      rewrite Hstart, (start_on_its_day _ _ _ Hh Hm Hlt).
      destruct (midnight_parts (year f) (month f) (day f)) as [-> _].
      reflexivity.
    + intros Hlt. apply Z.ltb_lt in Hlt. now rewrite Hlt in Hend.
    + intros Hge. apply Z.ltb_ge in Hge. now rewrite Hge in Hend.
  - intros now d.
    set (y := if 9 <? getMonth now then getFullYear now + 1
              else getFullYear now).
    assert (Hf : parseFields now "24 oct, 22h-02h"
                 = mkFields 24 9 y 22 0 2 0).
    { unfold parseFields. cbv zeta.
      replace (detectMonth months (toLowerCase "24 oct, 22h-02h"))
        with (Some 9) by (vm_compute; reflexivity).
      replace (dayMatches (maskTimes (toLowerCase "24 oct, 22h-02h")))
        with (Some "24") by (vm_compute; reflexivity).
      replace (timeMatches (toLowerCase "24 oct, 22h-02h"))
        with [("22", ""); ("02", "")] by (vm_compute; reflexivity).
      reflexivity. }
    assert (Hstart : start d = newDate y 9 24 22 0 0).
    { subst d. unfold parseEventDateInfo.
      now rewrite buildDates_start, Hf. }
    assert (Hend : end_ d = newDate y 9 25 2 0 0).
    { subst d. unfold parseEventDateInfo.
      rewrite buildDates_end_found by (rewrite Hf; simpl; lia).
      rewrite buildDates_start, endSameDay_built, Hf.
      cbn [year month day startHour startMin endHour endMin].
      change 25 with (24 + 1). rewrite newDate_next_day.
      assert (Hlt : newDate y 9 24 2 0 0 < newDate y 9 24 22 0 0)
        by (unfold newDate, MakeDate, MakeTime, msPerHour; lia).
      apply Z.ltb_lt in Hlt. now rewrite Hlt. }
    rewrite Hstart, Hend.
    destruct (clock_of_start y 9 24 (hh := 22) (mm := 0))
      as [Hh22 Hm22]; try lia.
    destruct (clock_of_start y 9 25 (hh := 2) (mm := 0))
      as [Hh2 Hm2]; try lia.
    rewrite Hh22, Hm22, Hh2, Hm2.
    rewrite (@start_on_its_day y 9 24 22 0), (@start_on_its_day y 9 25 2 0)
      by lia.
    change 25 with (24 + 1). rewrite newDate_next_day.
    unfold newDate, Day, MakeDate, MakeTime, msPerDay.
    match goal with
    | |- context [ MakeDay ?a ?b ?c ] => generalize (MakeDay a b c) as D
    end.
    intros D. repeat split.
    replace (D * 86400000 + (0 * msPerHour + 0 * msPerMinute
                             + 0 * msPerSecond + 0) + 86400000)
      with ((D + 1) * 86400000) by lia.
    replace (D * 86400000 + (0 * msPerHour + 0 * msPerMinute
                             + 0 * msPerSecond + 0))
      with (D * 86400000) by lia.
    now rewrite !Z.div_mul by lia.
Qed.

Lemma overnight_span_example :
  let d := parseEventDateInfo sampleNow "24 oct, 22h-02h" in
  (getFullYear (start d), getMonth (start d), getDate (start d),
   getHours (start d), getMinutes (start d)) = (2025, 9, 24, 22, 0)
  /\ (getFullYear (end_ d), getMonth (end_ d), getDate (end_ d),
      getHours (end_ d), getMinutes (end_ d)) = (2025, 9, 25, 2, 0)
  /\ end_ d = endSameDay (parseFields sampleNow "24 oct, 22h-02h") + msPerDay.
Proof.
  intros d. subst d.
  split; [ vm_compute; reflexivity | split; [ vm_compute; reflexivity | ] ].
  destruct (proj1 overnight_span sampleNow "24 oct, 22h-02h")
    as (_ & _ & _ & Hnext & _); [ vm_compute; lia | ].
  apply Hnext. vm_compute. reflexivity.
Defined.

(** C6, at an input the code mishandles.  Whatever the clock reads, the
    text "24 oct 2025: 9h" holds one time, which the pattern reads as
    25:09 (the digits "25" before the colon), and no second time; the
    start falls on the 25th at 01:09 and the default end on the 24th at
    03:09, twenty-two hours before the start and not two hours after
    it.  The same happens with "15 nov, 24h". *)
Theorem default_end_before_start (now : Z) :
  (let f := parseFields now "24 oct 2025: 9h" in
   let d := parseEventDateInfo now "24 oct 2025: 9h" in
   (startHour f, startMin f, endHour f) = (25, 9, -1)
   /\ start d = end_ d + 22 * msPerHour)
  /\ (let f := parseFields now "15 nov, 24h" in
      let d := parseEventDateInfo now "15 nov, 24h" in
      (startHour f, startMin f, endHour f) = (24, 0, -1)
      /\ start d = end_ d + 22 * msPerHour).
Proof.
  split.
  - set (y := if 9 <? getMonth now then getFullYear now + 1
              else getFullYear now).
    assert (Hf : parseFields now "24 oct 2025: 9h"
                 = mkFields 24 9 y 25 9 (-1) 0).
    { unfold parseFields. cbv zeta.
      replace (detectMonth months (toLowerCase "24 oct 2025: 9h"))
        with (Some 9) by (vm_compute; reflexivity).
      replace (dayMatches (maskTimes (toLowerCase "24 oct 2025: 9h")))
        with (Some "24") by (vm_compute; reflexivity).
      replace (timeMatches (toLowerCase "24 oct 2025: 9h"))
        with [("25", "9")] by (vm_compute; reflexivity).
      reflexivity. }
    cbv zeta. unfold parseEventDateInfo. rewrite Hf.
    split; [ reflexivity | ].
    rewrite buildDates_start. unfold buildDates.
    cbn [year month day startHour startMin endHour endMin].
    change (-1 =? -1) with true. cbn [negb end_].
    change 25 with (1 + 24). rewrite newDate_next_hours.
    destruct (clock_of_start y 9 (24 + 1) (hh := 1) (mm := 9))
      as [-> ->]; try lia.
    rewrite setHours_midnight, newDate_next_day.
    unfold newDate, MakeDate, MakeTime, msPerDay, msPerHour, msPerMinute.
    change (9 / 60) with 0. change (9 mod 60) with 9. lia.
  - set (y := if 10 <? getMonth now then getFullYear now + 1
              else getFullYear now).
    assert (Hf : parseFields now "15 nov, 24h"
                 = mkFields 15 10 y 24 0 (-1) 0).
    { unfold parseFields. cbv zeta.
      replace (detectMonth months (toLowerCase "15 nov, 24h"))
        with (Some 10) by (vm_compute; reflexivity).
      replace (dayMatches (maskTimes (toLowerCase "15 nov, 24h")))
        with (Some "15") by (vm_compute; reflexivity).
      replace (timeMatches (toLowerCase "15 nov, 24h"))
        with [("24", "")] by (vm_compute; reflexivity).
      reflexivity. }
    cbv zeta. unfold parseEventDateInfo. rewrite Hf.
    split; [ reflexivity | ].
    rewrite buildDates_start. unfold buildDates.
    cbn [year month day startHour startMin endHour endMin].
    change (-1 =? -1) with true. cbn [negb end_].
    change 24 with (0 + 24). rewrite newDate_next_hours.
    destruct (clock_of_start y 10 (15 + 1) (hh := 0) (mm := 0))
      as [-> ->]; try lia.
    rewrite setHours_midnight, newDate_next_day.
    unfold newDate, MakeDate, MakeTime, msPerDay, msPerHour, msPerMinute.
    change (0 / 60) with 0. change (0 mod 60) with 0. lia.
Qed.

(** The text "24 oct 2025: 9h - 0h30": the pattern reads the digits
    "25" before the colon as an hour, so the times read are 25:09 and
    0:30 on the 24th of October. *)
Lemma rolled_text_fields now :
  parseFields now "24 oct 2025: 9h - 0h30"
  = mkFields 24 9 (if 9 <? getMonth now then getFullYear now + 1
                   else getFullYear now) 25 9 0 30.
Proof.
  unfold parseFields. cbv zeta.
  replace (detectMonth months (toLowerCase "24 oct 2025: 9h - 0h30"))
    with (Some 9) by (vm_compute; reflexivity).
  replace (dayMatches (maskTimes (toLowerCase "24 oct 2025: 9h - 0h30")))
    with (Some "24") by (vm_compute; reflexivity).
  replace (timeMatches (toLowerCase "24 oct 2025: 9h - 0h30"))
    with [("25", "9"); ("0", "30")] by (vm_compute; reflexivity).
  reflexivity.
Qed.

Lemma rolled_text_times :
  (List.length (timeMatches (toLowerCase "24 oct 2025: 9h - 0h30")) = 2)%nat.
Proof. vm_compute. reflexivity. Qed.

(** A start at 25:09 on the 24th is 01:09 on the 25th. *)
Lemma rolled_start y :
  start (buildDates (mkFields 24 9 y 25 9 0 30))
  = newDate y 9 (24 + 1) 1 9 0.
Proof.
  rewrite buildDates_start. cbn [year month day startHour startMin].
  change 25 with (1 + 24). now rewrite newDate_next_hours.
Qed.

(** The end at 0:30 on the 24th is before that start and is moved to
    the 25th. *)
Lemma rolled_end y :
  end_ (buildDates (mkFields 24 9 y 25 9 0 30))
  = newDate y 9 (24 + 1) 0 30 0.
Proof.
  rewrite buildDates_end_found by (cbn [endHour]; lia).
  rewrite rolled_start, endSameDay_built.
  cbn [year month day endHour endMin]. rewrite !newDate_next_day.
  replace (newDate y 9 24 0 30 0 <? newDate y 9 24 1 9 0 + msPerDay)
    with true; [ reflexivity | ].
  symmetry. apply Z.ltb_lt.
  unfold newDate, MakeDate, MakeTime, msPerDay, msPerHour, msPerMinute,
    msPerSecond. lia.
Qed.

Lemma rolled_start_clock y :
  (getHours (newDate y 9 (24 + 1) 1 9 0),
   getMinutes (newDate y 9 (24 + 1) 1 9 0)) = (1, 9).
Proof.
  destruct (@clock_of_start y 9 (24 + 1) 1 9) as [Hh Hm]; try lia.
  rewrite Hh, Hm. reflexivity.
Qed.

Lemma rolled_start_day y :
  Day (newDate y 9 (24 + 1) 1 9 0) = Day (newDate y 9 24 0 0 0) + 1.
Proof.
  rewrite (@start_on_its_day y 9 (24 + 1) 1 9) by lia.
  rewrite newDate_next_day. unfold Day, msPerDay.
  replace (newDate y 9 24 0 0 0 + 86400000)
    with (newDate y 9 24 0 0 0 + 1 * 86400000) by lia.
  now rewrite Z.div_add by lia.
Qed.

(** The end time set on the calendar day of the rolled start. *)
Lemma end_on_rolled_day y :
  setHours (newDate y 9 (24 + 1) 1 9 0) 0 30 0 0
  = newDate y 9 (24 + 1) 0 30 0.
Proof.
  unfold setHours. rewrite (@start_on_its_day y 9 (24 + 1) 1 9) by lia.
  destruct (midnight_parts y 9 (24 + 1)) as [-> _]. reflexivity.
Qed.

Lemma rolled_instants y :
  newDate y 9 (24 + 1) 0 30 0 < newDate y 9 (24 + 1) 1 9 0
  /\ newDate y 9 (24 + 1) 0 30 0 = newDate y 9 (24 + 1) 0 30 0
  /\ newDate y 9 (24 + 1) 0 30 0
     <> newDate y 9 (24 + 1) 0 30 0 + msPerDay
  /\ newDate y 9 (24 + 1) 1 9 0
     = newDate y 9 (24 + 1) 0 30 0 + 39 * msPerMinute.
Proof.
  unfold newDate, MakeDate, MakeTime, msPerDay, msPerHour, msPerMinute,
    msPerSecond.
  repeat split; lia.
Qed.

(** The two dates built from those fields, in any year. *)
Lemma rolled_dates y :
  let f := mkFields 24 9 y 25 9 0 30 in
  let d := buildDates f in
  let onStartDay := setHours (start d) (endHour f) (endMin f) 0 0 in
  (startHour f, startMin f, endHour f, endMin f) = (25, 9, 0, 30)
  /\ (getHours (start d), getMinutes (start d)) = (1, 9)
  /\ Day (start d)
     = Day (newDate (year f) (month f) (day f) 0 0 0) + 1
  /\ onStartDay < start d
  /\ end_ d = onStartDay
  /\ end_ d <> onStartDay + msPerDay
  /\ start d = end_ d + 39 * msPerMinute.
Proof.
  intros f d onStartDay. subst onStartDay d f.
  rewrite rolled_start, rolled_end.
  cbn [year month day startHour startMin endHour endMin].
  rewrite end_on_rolled_day.
  split; [ reflexivity | ].
  split; [ apply rolled_start_clock | ].
  split; [ apply rolled_start_day | ].
  apply rolled_instants.
Qed.

(** C7, at an input the code mishandles.  Whatever the clock reads, the
    text "24 oct 2025: 9h - 0h30" holds two times, which the pattern
    reads as 25:09 (the digits "25" before the colon) and 0:30.  The
    start rolls over to the 25th at 01:09.  The end is built at 0:30 on
    the 24th, the day the fields name, is found before the start and is
    moved to the 25th.  So the end built at 0:30 on the start's
    calendar day is strictly before the start, and yet the end returned
    is that very instant and not the one a day later: the event ends 39
    minutes before it starts. *)
Theorem overnight_end_before_start (now : Z) :
  let f := parseFields now "24 oct 2025: 9h - 0h30" in
  let d := parseEventDateInfo now "24 oct 2025: 9h - 0h30" in
  let onStartDay := setHours (start d) (endHour f) (endMin f) 0 0 in
  (List.length (timeMatches (toLowerCase "24 oct 2025: 9h - 0h30")) = 2)%nat
  /\ (startHour f, startMin f, endHour f, endMin f) = (25, 9, 0, 30)
  /\ (getHours (start d), getMinutes (start d)) = (1, 9)
  /\ Day (start d)
     = Day (newDate (year f) (month f) (day f) 0 0 0) + 1
  /\ onStartDay < start d
  /\ end_ d = onStartDay
  /\ end_ d <> onStartDay + msPerDay
  /\ start d = end_ d + 39 * msPerMinute.
Proof.
  split; [ exact rolled_text_times | ].
  unfold parseEventDateInfo. rewrite rolled_text_fields.
  apply rolled_dates.
Qed.

End ExtractorFacts.

(* ================================================================= *)
(** ** One scan *)

Section ScanFacts.
Import Scan.
Variable JSON_parse : string -> option json.
Variable objectLengthPositive : list (string * json) -> bool.

Let scan' := scan JSON_parse objectLengthPositive.

Lemma scan_thrown now label message st :
  scan' now label (Thrown message) st
  = mkApp (JArray []) (Some (GeneratorError message)) (history st).
Proof. reflexivity. Qed.

(** A scan that ends in the [catch] keeps the history. *)
Lemma afterResponse_failed now label text st :
  (match parseResponse JSON_parse text with
   | inl _ => True
   | inr v => match lengthPositive objectLengthPositive v with
              | inr true => False
              | _ => True
              end
   end) ->
  error (afterResponse JSON_parse objectLengthPositive now label text st)
  <> None
  /\ history (afterResponse JSON_parse objectLengthPositive now label text st)
     = history st.
Proof.
  unfold afterResponse.
  destruct (parseResponse JSON_parse text) as [e | v]; simpl.
  - intros _. split; [ discriminate | reflexivity ].
  - destruct (lengthPositive objectLengthPositive v) as [e | [ | ]]; simpl;
      intros Hno; try contradiction; split; (discriminate || reflexivity).
Qed.

(** With such a generator the failure of a scan is atomic. *)
Lemma scan_failure_atomic_for_arrays now label g st :
  parsesArraysOnly JSON_parse ->
  scanShouldFail JSON_parse g = true ->
  error (scan' now label g st) <> None
  /\ history (scan' now label g st) = history st.
Proof.
  intros Harr Hfail. unfold scan', scan.
  destruct g as [message | text]; simpl;
    [ split; [ discriminate | reflexivity ] | ].
  set (t := match text with Some t => t | None => "" end).
  assert (Hco : coercible JSON_parse t = false).
  { subst t. destruct text; simpl in Hfail;
      now apply negb_true_iff in Hfail. }
  clearbody t. clear Hfail.
  change (history st) with (history (mkApp (JArray []) None (history st))).
  apply afterResponse_failed.
  unfold coercible in Hco. apply orb_false_iff in Hco.
  destruct Hco as [Hfenced Hbrackets].
  unfold parseResponse.
  destruct (parseFenced JSON_parse t) as [v | ] eqn:Ef.
  - unfold parseFenced in Ef. destruct (Harr _ _ Ef) as [l ->].
    destruct l; [ exact I | discriminate ].
  - destruct (parseBrackets JSON_parse t) as [e | v] eqn:Eb; [ exact I | ].
    assert (exists l, v = JArray l) as [l ->].
    { unfold parseBrackets in Eb.
      destruct (indexOf "[" t), (lastIndexOf "]" t); try discriminate.
      destruct (JSON_parse _) eqn:Ep; [ | discriminate ].
      injection Eb as <-. eapply Harr, Ep. }
    destruct l; [ exact I | discriminate ].
Qed.

End ScanFacts.

(** C8, at an input the code mishandles.  When the generator's text is
    a JSON string (here three letters between double quotes), neither
    strategy yields a non-empty array, and yet the scan reports no
    error and stores a new session whose record list is that string:
    the test [parsed.length > 0] holds for a string as well. *)
Theorem scan_commits_a_string
    (JSON_parse : string -> option Scan.json)
    (objectLengthPositive : list (string * Scan.json) -> bool)
    (now : Z) (label : string) (st : Scan.AppState) :
  JSON_parse quotedText = Some (Scan.JString "abc") ->
  let generated := Scan.Response (Some quotedText) in
  let afterEvents :=
    Scan.scanEvents JSON_parse objectLengthPositive now label generated st in
  let afterRadar :=
    Scan.scanRadar JSON_parse objectLengthPositive now label generated st in
  Scan.scanShouldFail JSON_parse generated = true
  /\ Scan.error afterEvents = None
  /\ Scan.history afterEvents
     = Scan.mkStored now label (Scan.JString "abc") :: Scan.history st
  /\ Scan.error afterRadar = None
  /\ Scan.history afterRadar
     = Scan.mkStored now label (Scan.JString "abc") :: Scan.history st.
Proof.
  intros Hparse generated afterEvents afterRadar.
  subst generated afterEvents afterRadar.
  assert (Hfenced : Scan.parseFenced JSON_parse quotedText
                    = Some (Scan.JString "abc")).
  { unfold Scan.parseFenced.
    replace (Scan.jsonMatch quotedText) with (@None string)
      by (vm_compute; reflexivity).
    exact Hparse. }
  assert (Hbrackets : Scan.parseBrackets JSON_parse quotedText
                      = inl Scan.InvalidFormat).
  { unfold Scan.parseBrackets.
    replace (Scan.indexOf "[" quotedText) with (@None nat)
      by (vm_compute; reflexivity).
    reflexivity. }
  split.
  - unfold Scan.scanShouldFail, Scan.coercible.
    now rewrite Hfenced, Hbrackets.
  - unfold Scan.scanEvents, Scan.scanRadar, Scan.scan, Scan.afterResponse,
      Scan.parseResponse.
    rewrite Hfenced. repeat split.
Qed.

Lemma scan_commits_a_string_example :
  Scan.scanShouldFail parseQuotedOnly (Scan.Response (Some quotedText)) = true
  /\ Scan.error (Scan.scanEvents parseQuotedOnly (fun _ => false)
                                 1761300000000 "jeudi 23 octobre 2025"
                                 (Scan.Response (Some quotedText)) emptyApp)
     = None
  /\ Scan.history (Scan.scanEvents parseQuotedOnly (fun _ => false)
                                   1761300000000 "jeudi 23 octobre 2025"
                                   (Scan.Response (Some quotedText)) emptyApp)
     = [Scan.mkStored 1761300000000 "jeudi 23 octobre 2025"
                      (Scan.JString "abc")].
Proof.
  destruct (scan_commits_a_string parseQuotedOnly (fun _ => false)
              1761300000000 "jeudi 23 octobre 2025" emptyApp eq_refl)
    as (Hfail & Herror & Hhistory & _).
  repeat split; assumption.
Defined.

(* ================================================================= *)
(** * Further properties *)

(** ** Toggling a flag by place *)

Section ToggleFacts.
Import Handlers.
Context {Item : Type} `{Flagged Item}.
Implicit Types (st : View Item) (s : Session Item) (r : Item).

Lemma writeIfPresent_nth (f : Item -> Item) (l : list Item) index j :
  nth_error (writeIfPresent index f l) j
  = option_map (fun r => if Nat.eqb j index then f r else r) (nth_error l j).
Proof.
  revert index j. induction l as [ | x l IH ]; intros index j.
  - destruct index, j; reflexivity.
  - destruct index as [ | n ], j as [ | j ]; simpl; try reflexivity.
    + clear IH. revert j. induction l as [ | y l IHl ]; intros j.
      * now destruct j.
      * destruct j; simpl; [ reflexivity | apply IHl ].
    + apply IH.
Qed.

Lemma writeIfPresent_length (f : Item -> Item) (l : list Item) index :
  List.length (writeIfPresent index f l) = List.length l.
Proof.
  revert index. induction l as [ | x l IH ]; intros [ | n ]; simpl;
    try reflexivity. now rewrite IH.
Qed.

Lemma writeIfPresent_past_end (f : Item -> Item) (l : list Item) index :
  (List.length l <= index)%nat -> writeIfPresent index f l = l.
Proof.
  revert index. induction l as [ | x l IH ]; intros [ | n ] Hlen; simpl in *;
    try reflexivity; try lia.
  rewrite IH by lia. reflexivity.
Qed.

(** X1.  Toggling by place ([updateEventInHistory],
    [updateItemInHistory]) keeps the selection, the sessions'
    identifiers, labels and order and the number of records of each
    session.  A record changes only when the target identifier is
    neither null nor 0, its session has that identifier and its place
    is the given index; then every field but the flag is kept and the
    flag becomes the new value.  When the index is past the end of
    every target session, or the target is null or 0, the stored
    history is what it was. *)
Theorem toggle_by_place_frame st (index : nat) (value isCurrentScan : bool) :
  let st' := updateInHistory st index value isCurrentScan in
  let target := targetHistoryId st isCurrentScan in
  selectedHistoryId st' = selectedHistoryId st
  /\ map id (history st') = map id (history st)
  /\ map dateStr (history st') = map dateStr (history st)
  /\ map (fun s => List.length (records s)) (history st')
     = map (fun s => List.length (records s)) (history st)
  /\ (forall i j s r,
         nth_error (history st) i = Some s ->
         nth_error (records s) j = Some r ->
         exists s',
           nth_error (history st') i = Some s'
           /\ nth_error (records s') j
              = Some (if truthyId target && isTarget target s
                         && Nat.eqb j index
                      then setFlag (Some value) r else r))
  /\ ((forall s, In s (history st) -> isTarget target s = true ->
                 (List.length (records s) <= index)%nat) ->
      history st' = history st)
  /\ (truthyId target = false -> history st' = history st).
Proof.
  intros st' target. subst st'. unfold updateInHistory. fold target.
  destruct (truthyId target) eqn:Etruthy; cbn [history selectedHistoryId].
  - split; [ reflexivity | ].
    split; [ rewrite map_map; apply map_ext; intros s;
             now destruct (isTarget target s) | ].
    split; [ rewrite map_map; apply map_ext; intros s;
             now destruct (isTarget target s) | ].
    split; [ rewrite map_map; apply map_ext; intros s;
             destruct (isTarget target s); simpl;
             [ apply writeIfPresent_length | reflexivity ] | ].
    split; [ | split; [ | discriminate ] ].
    + intros i j s r Hs Hr. eexists. split.
      * rewrite nth_error_map, Hs. reflexivity.
      * destruct (isTarget target s); cbn [andb records].
        -- rewrite writeIfPresent_nth, Hr. reflexivity.
        -- exact Hr.
    + intros Hpast. rewrite <- (map_id (history st)) at 2.
      apply map_ext_in. intros s Hs.
      destruct (isTarget target s) eqn:Et; [ | reflexivity ].
      rewrite writeIfPresent_past_end by auto. now destruct s.
  - repeat split; try reflexivity.
    intros i j s r Hs Hr. exists s. split; assumption.
Qed.

Lemma toggled_record_in st index value isCurrentScan s j r :
  truthyId (targetHistoryId st isCurrentScan) = true ->
  In s (history st) -> nth_error (records s) j = Some r ->
  In (if isTarget (targetHistoryId st isCurrentScan) s && Nat.eqb j index
      then setFlag (Some value) r else r)
     (allRecords (history (updateInHistory st index value isCurrentScan))).
Proof.
  intros Htruthy Hs Hr. unfold updateInHistory. rewrite Htruthy.
  cbn [history]. apply allRecords_In. eexists. split.
  - apply in_map. exact Hs.
  - destruct (isTarget (targetHistoryId st isCurrentScan) s);
      cbn [andb records].
    + apply nth_error_In with (n := j).
      rewrite writeIfPresent_nth, Hr. reflexivity.
    + eapply nth_error_In. exact Hr.
Qed.

Lemma toggled_record_from st index value isCurrentScan r' :
  truthyId (targetHistoryId st isCurrentScan) = true ->
  In r' (allRecords (history (updateInHistory st index value isCurrentScan))) ->
  exists s j r,
    In s (history st) /\ nth_error (records s) j = Some r
    /\ r' = (if isTarget (targetHistoryId st isCurrentScan) s
                 && Nat.eqb j index
             then setFlag (Some value) r else r).
Proof.
  intros Htruthy. unfold updateInHistory. rewrite Htruthy. cbn [history].
  intros Hin. apply allRecords_In in Hin. destruct Hin as [s' [Hs' Hr']].
  apply in_map_iff in Hs'. destruct Hs' as [s [<- Hs]].
  apply In_nth_error in Hr'. destruct Hr' as [j Hj].
  exists s, j.
  destruct (isTarget (targetHistoryId st isCurrentScan) s) eqn:Et;
    cbn [andb records] in *.
  - rewrite writeIfPresent_nth in Hj.
    destruct (nth_error (records s) j) as [r | ] eqn:Er; [ | discriminate ].
    injection Hj as <-. exists r.
    split; [ exact Hs | split; reflexivity ].
  - exists r'.
    split; [ exact Hs | split; [ exact Hj | reflexivity ] ].
Qed.

(** The OR of the flags of a signature after a toggle by place. *)
Lemma toggle_flagAnywhere st index value isCurrentScan g :
  truthyId (targetHistoryId st isCurrentScan) = true ->
  flagAnywhere g (history (updateInHistory st index value isCurrentScan))
  = true
  <-> (value = true
       /\ exists s r, In s (history st)
                      /\ isTarget (targetHistoryId st isCurrentScan) s = true
                      /\ nth_error (records s) index = Some r
                      /\ signature r = g)
      \/ (exists s j r,
             In s (history st) /\ nth_error (records s) j = Some r
             /\ (isTarget (targetHistoryId st isCurrentScan) s = false
                 \/ j <> index)
             /\ signature r = g /\ flagSet r = true).
Proof.
  intros Htruthy. unfold flagAnywhere. rewrite existsb_exists. split.
  - intros [r' [Hin Hr']]. apply andb_true_iff in Hr'.
    destruct Hr' as [Hsig Hflag]. apply String.eqb_eq in Hsig.
    destruct (@toggled_record_from st index value isCurrentScan r' Htruthy Hin)
      as [s [j [r [Hs [Hr ->]]]]].
    destruct (isTarget (targetHistoryId st isCurrentScan) s) eqn:Et;
      [ destruct (Nat.eqb_spec j index) as [-> | Hne] | ]; cbn [andb] in *.
    + left. rewrite signature_setFlag in Hsig.
      rewrite flagOf_setFlag in Hflag. split.
      * now destruct value.
      * exists s, r. repeat split; assumption.
    + right. exists s, j, r. unfold flagSet.
      split; [ exact Hs | split; [ exact Hr | split; [ now right | ] ] ].
      split; assumption.
    + right. exists s, j, r. unfold flagSet.
      split; [ exact Hs | split; [ exact Hr | split; [ now left | ] ] ].
      split; assumption.
  - intros [[-> [s [r [Hs [Et [Hr Hsig]]]]]]
           | [s [j [r [Hs [Hr [Hwhere [Hsig Hflag]]]]]]]].
    + pose proof (@toggled_record_in st index true isCurrentScan s index
                    r Htruthy Hs Hr) as Hin.
      rewrite Et, Nat.eqb_refl in Hin. cbn [andb] in Hin.
      eexists. split; [ exact Hin | ].
      rewrite signature_setFlag, flagOf_setFlag, Hsig, String.eqb_refl.
      reflexivity.
    + pose proof (@toggled_record_in st index value isCurrentScan s j
                    r Htruthy Hs Hr) as Hin.
      assert (Hoff : isTarget (targetHistoryId st isCurrentScan) s
                     && Nat.eqb j index = false).
      { destruct Hwhere as [-> | Hne]; [ reflexivity | ].
        apply andb_false_iff. right. now apply Nat.eqb_neq. }
      rewrite Hoff in Hin. eexists. split; [ exact Hin | ].
      rewrite Hsig, String.eqb_refl. exact Hflag.
Qed.

End ToggleFacts.

(** X2.  After a toggle by place, the consolidated record of a
    signature is flagged exactly when the toggle set the flag on a
    record of that signature, or some copy that the toggle did not touch
    is flagged: turning a flag off in the scanner or the history tab
    does not turn the consolidated record off while another stored copy
    is on. *)
Theorem toggle_by_place_in_consolidated_views :
  (forall (now : Z) (hidePastEvents : bool)
          (st : Handlers.View EventClock.EventItem)
          (index : nat) (value isCurrentScan : bool)
          (e : EventClock.EventItem),
      let target := Handlers.targetHistoryId st isCurrentScan in
      Handlers.truthyId target = true ->
      In e (EventClock.masterEvents now hidePastEvents
              (Handlers.history
                 (Handlers.updateInHistory st index value isCurrentScan))) ->
      truthy (EventClock.addedToCalendar e) = true
      <-> (value = true
           /\ exists s r, In s (Handlers.history st)
                          /\ Handlers.isTarget target s = true
                          /\ nth_error (EventClock.events s) index = Some r
                          /\ EventClock.getEventSignature r
                             = EventClock.getEventSignature e)
          \/ (exists s j r,
                 In s (Handlers.history st)
                 /\ nth_error (EventClock.events s) j = Some r
                 /\ (Handlers.isTarget target s = false \/ j <> index)
                 /\ EventClock.getEventSignature r
                    = EventClock.getEventSignature e
                 /\ truthy (EventClock.addedToCalendar r) = true))
  /\ (forall (onlyHighPriority : bool)
             (st : Handlers.View Radar.NewsItem)
             (index : nat) (value isCurrentScan : bool)
             (e : Radar.NewsItem),
         let target := Handlers.targetHistoryId st isCurrentScan in
         Handlers.truthyId target = true ->
         In e (Radar.masterItems onlyHighPriority
                 (Handlers.history
                    (Handlers.updateInHistory st index value isCurrentScan))) ->
         truthy (Radar.read e) = true
         <-> (value = true
              /\ exists s r, In s (Handlers.history st)
                             /\ Handlers.isTarget target s = true
                             /\ nth_error (Radar.items s) index = Some r
                             /\ Radar.getNewsSignature r
                                = Radar.getNewsSignature e)
             \/ (exists s j r,
                    In s (Handlers.history st)
                    /\ nth_error (Radar.items s) j = Some r
                    /\ (Handlers.isTarget target s = false \/ j <> index)
                    /\ Radar.getNewsSignature r = Radar.getNewsSignature e
                    /\ truthy (Radar.read r) = true)).
Proof.
  split.
  - intros now hidePastEvents st index value isCurrentScan e target
           Htruthy Hin.
    apply masterEvents_subset, overwrite_value, overwrite_entry in Hin.
    destruct Hin as [_ [Hflag _]]. unfold flagSet in Hflag.
    change (flagOf e) with (EventClock.addedToCalendar e) in Hflag.
    rewrite Hflag.
    exact (toggle_flagAnywhere st index value isCurrentScan
             (signature e) Htruthy).
  - intros onlyHighPriority st index value isCurrentScan e target
           Htruthy Hin.
    apply masterItems_subset, keepFirst_value, keepFirst_entry in Hin.
    destruct Hin as [_ [Hflag _]]. unfold flagSet in Hflag.
    change (flagOf e) with (Radar.read e) in Hflag.
    rewrite Hflag.
    exact (toggle_flagAnywhere st index value isCurrentScan
             (signature e) Htruthy).
Qed.

(** ** The targeted update seen through the consolidated views *)

Lemma insertSorted_map (A B : Type) (f : A -> B) (cmp : A -> A -> Z)
    (cmp' : B -> B -> Z) (x : A) (l : list A) :
  (forall a b, cmp' (f a) (f b) = cmp a b) ->
  insertSorted cmp' (f x) (map f l) = map f (insertSorted cmp x l).
Proof.
  intros Hcmp. induction l as [ | y l IH ]; simpl; [ reflexivity | ].
  rewrite Hcmp. destruct (cmp y x <? 0); simpl; [ now rewrite IH | reflexivity ].
Qed.

Lemma sortBy_map (A B : Type) (f : A -> B) (cmp : A -> A -> Z)
    (cmp' : B -> B -> Z) (l : list A) :
  (forall a b, cmp' (f a) (f b) = cmp a b) ->
  sortBy cmp' (map f l) = map f (sortBy cmp l).
Proof.
  intros Hcmp. induction l as [ | x l IH ]; simpl; [ reflexivity | ].
  rewrite IH. now apply insertSorted_map.
Qed.

Lemma filter_map_same (A : Type) (f : A -> A) (p : A -> bool) (l : list A) :
  (forall a, p (f a) = p a) -> filter p (map f l) = map f (filter p l).
Proof.
  intros Hp. induction l as [ | x l IH ]; simpl; [ reflexivity | ].
  rewrite Hp. destruct (p x); simpl; now rewrite IH.
Qed.

Lemma mapSet_same (V : Type) (k : string) (v : V) (m : UMap V) :
  mapGet k m = Some v -> mapSet k v m = m.
Proof.
  induction m as [ | [k' v'] m IH ]; simpl; [ discriminate | ].
  destruct (String.eqb_spec k k') as [-> | Hne].
  - now intros [= ->].
  - intros Hget. now rewrite IH.
Qed.

Section OnEntries.
Variables (V : Type) (f : V -> V).

Let onEntries (m : UMap V) : UMap V := map (fun p => (fst p, f (snd p))) m.

Lemma mapGet_onEntries k m :
  mapGet k (onEntries m) = option_map f (mapGet k m).
Proof.
  induction m as [ | [k' v] m IH ]; simpl; [ reflexivity | ].
  destruct (String.eqb k k'); [ reflexivity | exact IH ].
Qed.

Lemma mapSet_onEntries k v m :
  mapSet k (f v) (onEntries m) = onEntries (mapSet k v m).
Proof.
  induction m as [ | [k' v'] m IH ]; simpl; [ reflexivity | ].
  destruct (String.eqb k k'); simpl; [ reflexivity | now rewrite IH ].
Qed.

Lemma mapHas_onEntries k m : mapHas k (onEntries m) = mapHas k m.
Proof.
  unfold mapHas. rewrite mapGet_onEntries. now destruct (mapGet k m).
Qed.

Lemma mapValues_onEntries m : mapValues (onEntries m) = map f (mapValues m).
Proof. unfold mapValues, onEntries. now rewrite !map_map. Qed.

End OnEntries.

Section CommuteFacts.
Context {Item : Type} `{Flagged Item}.
Variables (x : Item) (value : bool).
Implicit Types (m : UMap Item) (r e : Item) (h : list (Session Item)).

Let moved (m : UMap Item) : UMap Item :=
  map (fun p => (fst p, retarget x value (snd p))) m.

Lemma keyed_mergeOverwrite m r :
  keyedBySignature m -> keyedBySignature (mergeOverwrite m r).
Proof.
  intros Hk k e. rewrite mapGet_mergeOverwrite. unfold stepOverwrite, hasSig.
  destruct (String.eqb_spec (signature r) k) as [<- | Hne]; [ | apply Hk ].
  destruct (mapGet (signature r) m); intros [= <-];
    [ apply signature_setFlag | reflexivity ].
Qed.

Lemma keyed_mergeKeepFirst m r :
  keyedBySignature m -> keyedBySignature (mergeKeepFirst m r).
Proof.
  intros Hk k e. rewrite mapGet_mergeKeepFirst.
  unfold stepKeepFirst, hasSig.
  destruct (String.eqb_spec (signature r) k) as [<- | Hne]; [ | apply Hk ].
  destruct (mapGet (signature r) m) as [existing | ] eqn:G.
  - destruct (flagSet r && negb (flagSet existing)).
    + intros [= <-]. rewrite signature_setFlag. now apply Hk.
    + intros [= <-]. now apply Hk.
  - now intros [= <-].
Qed.

Lemma jsOr_same (b : option bool) : jsOr b b = b.
Proof. unfold jsOr. now destruct (truthy b). Qed.

Lemma mergeOverwrite_moved m r :
  keyedBySignature m ->
  mergeOverwrite (moved m) (retarget x value r) = moved (mergeOverwrite m r).
Proof.
  intros Hk. unfold mergeOverwrite. cbv zeta.
  rewrite retarget_signature. unfold moved.
  rewrite mapGet_onEntries.
  destruct (mapGet (signature r) m) as [existing | ] eqn:G; simpl.
  - rewrite <- mapSet_onEntries. f_equal.
    unfold retarget. rewrite signature_setFlag, (Hk _ _ G).
    destruct (String.eqb (signature r) (signature x)).
    + now rewrite !flagOf_setFlag, !setFlag_setFlag, jsOr_same.
    + reflexivity.
  - now rewrite <- mapSet_onEntries.
Qed.

Lemma mergeKeepFirst_moved m r :
  keyedBySignature m ->
  mergeKeepFirst (moved m) (retarget x value r) = moved (mergeKeepFirst m r).
Proof.
  intros Hk. unfold mergeKeepFirst. cbv zeta.
  rewrite retarget_signature. unfold moved.
  rewrite mapHas_onEntries, mapGet_onEntries. unfold mapHas.
  destruct (mapGet (signature r) m) as [existing | ] eqn:G; simpl.
  - unfold retarget at 1 2. rewrite (Hk _ _ G).
    destruct (String.eqb (signature r) (signature x)) eqn:E.
    + rewrite !flagOf_setFlag.
      replace (truthy (Some value) && negb (truthy (Some value)))
        with false by now destruct value.
      destruct (truthy (flagOf r) && negb (truthy (flagOf existing)));
        [ | reflexivity ].
      rewrite <- mapSet_onEntries. symmetry. apply mapSet_same.
      rewrite mapGet_onEntries, G. simpl. f_equal.
      unfold retarget. rewrite signature_setFlag, (Hk _ _ G), E.
      now rewrite setFlag_setFlag.
    + destruct (truthy (flagOf r) && negb (truthy (flagOf existing)));
        [ | reflexivity ].
      rewrite <- mapSet_onEntries. f_equal.
      unfold retarget. now rewrite signature_setFlag, (Hk _ _ G), E.
  - now rewrite <- mapSet_onEntries.
Qed.

Lemma fold_moved (step : UMap Item -> Item -> UMap Item) :
  (forall m r, keyedBySignature m -> keyedBySignature (step m r)) ->
  (forall m r, keyedBySignature m ->
               step (moved m) (retarget x value r) = moved (step m r)) ->
  forall L m, keyedBySignature m ->
    fold_left step (map (retarget x value) L) (moved m)
    = moved (fold_left step L m).
Proof.
  intros Hkeep Hstep. induction L as [ | r L IH ]; intros m Hk; simpl;
    [ reflexivity | ].
  rewrite Hstep by exact Hk. apply IH. now apply Hkeep.
Qed.

Lemma allRecords_updateGlobal h :
  allRecords (updateGlobal h x value)
  = map (retarget x value) (allRecords h).
Proof.
  rewrite updateGlobal_sessions. unfold allRecords.
  induction h as [ | s h IH ]; simpl; [ reflexivity | ].
  now rewrite map_app, IH.
Qed.

Lemma sorted_updateGlobal (cmp : Z -> Z -> Z) h :
  sortBy (fun a b : Session Item => cmp (id a) (id b))
         (updateGlobal h x value)
  = updateGlobal (sortBy (fun a b : Session Item => cmp (id a) (id b)) h)
                 x value.
Proof.
  rewrite !updateGlobal_sessions.
  now apply sortBy_map.
Qed.

Lemma empty_keyed : keyedBySignature (@nil (string * Item)).
Proof. intros k e. discriminate. Qed.

Lemma uniqueMapOverwrite_updateGlobal h :
  uniqueMapOverwrite (updateGlobal h x value) = moved (uniqueMapOverwrite h).
Proof.
  unfold uniqueMapOverwrite, foldSessions, oldestFirst.
  rewrite (sorted_updateGlobal Z.sub).
  rewrite !foldSessions_flat, allRecords_updateGlobal.
  exact (@fold_moved mergeOverwrite keyed_mergeOverwrite
           mergeOverwrite_moved _ [] empty_keyed).
Qed.

Lemma uniqueMapKeepFirst_updateGlobal h :
  uniqueMapKeepFirst (updateGlobal h x value) = moved (uniqueMapKeepFirst h).
Proof.
  unfold uniqueMapKeepFirst, foldSessions, newestFirst.
  rewrite (sorted_updateGlobal (fun a b => b - a)).
  rewrite !foldSessions_flat, allRecords_updateGlobal.
  exact (@fold_moved mergeKeepFirst keyed_mergeKeepFirst
           mergeKeepFirst_moved _ [] empty_keyed).
Qed.

Lemma values_overwrite_updateGlobal h :
  mapValues (uniqueMapOverwrite (updateGlobal h x value))
  = map (retarget x value) (mapValues (uniqueMapOverwrite h)).
Proof.
  rewrite uniqueMapOverwrite_updateGlobal. apply mapValues_onEntries.
Qed.

Lemma values_keepFirst_updateGlobal h :
  mapValues (uniqueMapKeepFirst (updateGlobal h x value))
  = map (retarget x value) (mapValues (uniqueMapKeepFirst h)).
Proof.
  rewrite uniqueMapKeepFirst_updateGlobal. apply mapValues_onEntries.
Qed.

End CommuteFacts.

(** X3.  The consolidated view of the history written by
    [updateEventGlobal] (by [updateItemGlobal]) is the consolidated view
    of the history before, with the flag set on the record of the
    clicked signature and every other record, the order and the
    filtering as they were. *)
Theorem consolidated_view_after_targeted_update :
  (forall (now : Z) (hidePastEvents : bool)
          (history : list EventClock.ScanSession)
          (event : EventClock.EventItem) (added : bool),
      EventClock.masterEvents now hidePastEvents
        (EventClock.updateEventGlobal history event added)
      = map (retarget event added)
            (EventClock.masterEvents now hidePastEvents history))
  /\ (forall (onlyHighPriority : bool) (history : list Radar.ScanSession)
             (item : Radar.NewsItem) (read : bool),
         Radar.masterItems onlyHighPriority
           (Radar.updateItemGlobal history item read)
         = map (retarget item read)
               (Radar.masterItems onlyHighPriority history)).
Proof.
  split.
  - intros now hidePastEvents history event added.
    unfold EventClock.masterEvents, EventClock.updateEventGlobal. cbv zeta.
    rewrite values_overwrite_updateGlobal.
    assert (Hdate : forall e : EventClock.EventItem,
               EventClock.date (retarget event added e) = EventClock.date e).
    { intros e. unfold retarget.
      now destruct (String.eqb (signature e) (signature event)). }
    rewrite (sortBy_map (retarget event added) (EventClock.byStart now)
               (EventClock.byStart now)).
    + destruct hidePastEvents; [ | reflexivity ].
      apply filter_map_same. intros e. now rewrite Hdate.
    + intros a b. unfold EventClock.byStart. now rewrite !Hdate.
  - intros onlyHighPriority history item read.
    unfold Radar.masterItems, Radar.updateItemGlobal. cbv zeta.
    rewrite values_keepFirst_updateGlobal.
    destruct onlyHighPriority; [ | reflexivity ].
    apply filter_map_same. intros e. unfold retarget, Radar.isHigh.
    now destruct (String.eqb (signature e) (signature item)).
Qed.

(** ** The handlers of the session list *)

Section SelectionFacts.
Import Handlers.
Context {Item : Type} `{Flagged Item}.
Implicit Types (st : View Item) (s : Session Item).

Lemma selection_after_delete st id0 :
  selectionValid st -> selectionValid (deleteHistoryItem st id0).
Proof.
  unfold selectionValid, deleteHistoryItem. cbn [selectedHistoryId history].
  destruct (selectedHistoryId st) as [z | ]; [ | trivial ].
  intros [s [Hs Hid]].
  destruct (Z.eqb_spec z id0) as [-> | Hne].
  - destruct (filter (fun item => negb (id item =? id0)) (history st))
      as [ | s0 rest ] eqn:E; [ trivial | ].
    exists s0. split; [ now left | reflexivity ].
  - exists s. split; [ | exact Hid ].
    apply filter_In. split; [ exact Hs | ].
    apply negb_true_iff, Z.eqb_neq. congruence.
Qed.

Lemma selection_after_toggle st index value isCurrentScan :
  selectionValid st ->
  selectionValid (updateInHistory st index value isCurrentScan).
Proof.
  unfold selectionValid, updateInHistory.
  destruct (truthyId (targetHistoryId st isCurrentScan));
    cbn [selectedHistoryId history]; [ | trivial ].
  destruct (selectedHistoryId st) as [z | ]; [ | trivial ].
  intros [s [Hs Hid]]. eexists. split.
  - apply in_map. exact Hs.
  - now destruct (isTarget (targetHistoryId st isCurrentScan) s).
Qed.

Lemma writeSlot_filled (index : nat) (f : Item -> Item) (l : list Item) :
  (index < List.length l)%nat ->
  writeSlot index
            (fun slot => match slot with
                         | Filled e => Filled (f e)
                         | FlagOnly b => FlagOnly b
                         | Missing => Missing
                         end)
            (map Filled l)
  = map Filled (writeIfPresent index f l).
Proof.
  revert index. induction l as [ | x l IH ]; intros [ | n ] Hlt; simpl in *;
    try lia; [ reflexivity | ].
  rewrite IH by lia. reflexivity.
Qed.

Lemma writeSlot_on_filled (index : nat) (f g : Slot Item -> Slot Item)
    (l : list Item) :
  (index < List.length l)%nat ->
  (forall e, f (Filled e) = g (Filled e)) ->
  writeSlot index f (map Filled l) = writeSlot index g (map Filled l).
Proof.
  revert index. induction l as [ | x l IH ]; intros [ | n ] Hlt Hfg;
    simpl in *; try lia.
  - now rewrite Hfg.
  - rewrite (IH n) by (lia || assumption). reflexivity.
Qed.

End SelectionFacts.

(** X4.  The selection of the history tab is null or the identifier of
    a stored session when the application has loaded its history, and
    every handler keeps it so: a click on a listed session, deleting a
    session (the selection moves to the first remaining session, or to
    null, when the selected one goes), clearing the history, storing a
    scan and toggling a flag by place.  After a deletion no stored
    session and no selection has the deleted identifier. *)
Theorem selection_stays_valid (Item : Type) (F : Flagged Item) :
  (forall savedHistory : option (option (list (Session Item))),
      Handlers.selectionValid (Handlers.loadHistory savedHistory))
  /\ (forall (st : Handlers.View Item),
         Handlers.selectionValid st ->
         (forall session,
             In session (Handlers.history st) ->
             Handlers.selectionValid (Handlers.selectSession st session))
         /\ (forall id0,
                Handlers.selectionValid (Handlers.deleteHistoryItem st id0)
                /\ Handlers.selectedHistoryId
                     (Handlers.deleteHistoryItem st id0) <> Some id0
                /\ forall s,
                     In s (Handlers.history
                             (Handlers.deleteHistoryItem st id0))
                     <-> In s (Handlers.history st) /\ id s <> id0)
         /\ (forall confirmed,
                Handlers.selectionValid (Handlers.clearHistory st confirmed))
         /\ (forall now label newRecords,
                Handlers.selectionValid
                  (Handlers.saveScanToHistory st now label newRecords))
         /\ (forall index value isCurrentScan,
                Handlers.selectionValid
                  (Handlers.updateInHistory st index value isCurrentScan))).
Proof.
  split.
  { intros [[[ | s parsed] | ] | ]; try exact I.
    exists s. split; [ now left | reflexivity ]. }
  intros st Hvalid. split; [ | split; [ | split; [ | split ] ] ].
  - intros session Hin. exists session. split; [ exact Hin | reflexivity ].
  - intros id0. split; [ now apply selection_after_delete | split ].
    + unfold Handlers.deleteHistoryItem. cbn [Handlers.selectedHistoryId].
      destruct (Handlers.selectedHistoryId st) as [z | ]; [ | discriminate ].
      destruct (Z.eqb_spec z id0) as [-> | Hne]; [ | congruence ].
      destruct (filter (fun item => negb (id item =? id0))
                       (Handlers.history st)) as [ | s0 rest ] eqn:E;
        [ discriminate | ].
      assert (Hin : In s0 (filter (fun item => negb (id item =? id0))
                                  (Handlers.history st)))
        by (rewrite E; now left).
      apply filter_In in Hin. destruct Hin as [_ Hkeep].
      apply negb_true_iff, Z.eqb_neq in Hkeep. congruence.
    + intros s. unfold Handlers.deleteHistoryItem. cbn [Handlers.history].
      rewrite filter_In, negb_true_iff, Z.eqb_neq. reflexivity.
  - intros [ | ]; [ exact I | exact Hvalid ].
  - intros now label newRecords. unfold Handlers.selectionValid in *.
    cbn [Handlers.saveScanToHistory Handlers.selectedHistoryId
         Handlers.history].
    destruct (Handlers.selectedHistoryId st) as [z | ]; [ | trivial ].
    destruct Hvalid as [s [Hs Hid]]. exists s. split; [ now right | exact Hid ].
  - intros index value isCurrentScan. now apply selection_after_toggle.
Qed.

Lemma selection_stays_valid_example :
  Handlers.selectionValid eventViewSelected
  /\ Handlers.selectedHistoryId
       (Handlers.deleteHistoryItem eventViewSelected 2000) = Some 1000
  /\ Handlers.selectionValid
       (Handlers.deleteHistoryItem eventViewSelected 2000).
Proof.
  assert (Hvalid : Handlers.selectionValid eventViewSelected).
  { exists eventSessionNew. split; [ now left | reflexivity ]. }
  split; [ exact Hvalid | split; [ reflexivity | ] ].
  exact (proj1 (proj1 (proj2 (proj2 (@selection_stays_valid _ _)
                                     eventViewSelected Hvalid))
                     2000)).
Defined.

(** X5.  After a scan whose time value is not 0 the screen of the
    scanner holds the records of the first stored session, and a toggle
    from the scanner at a place on screen keeps it so: the record on
    screen and the stored record change together. *)
Theorem scanner_screen_follows_first_session (Item : Type) (F : Flagged Item)
    (st : Handlers.View Item) :
  (forall now label parsed,
      now <> 0 ->
      Handlers.screenIsFirstSession
        (Handlers.commitScan st now label parsed))
  /\ (forall index value,
         Handlers.screenIsFirstSession st ->
         (index < List.length (Handlers.onScreen st))%nat ->
         Handlers.screenIsFirstSession
           (Handlers.updateInHistory st index value true)).
Proof.
  split.
  - intros now label parsed Hnow. eexists. eexists.
    split; [ reflexivity | split; [ exact Hnow | reflexivity ] ].
  - intros index value [s [rest [Hh [Hid Hscreen]]]] Hlt.
    unfold Handlers.updateInHistory, Handlers.targetHistoryId.
    rewrite Hh. cbn [List.length Nat.ltb Nat.leb andb Handlers.truthyId].
    apply Z.eqb_neq in Hid. rewrite Hid. cbn [negb map Handlers.isTarget].
    rewrite Z.eqb_refl.
    eexists. eexists.
    split; [ reflexivity | split; [ now apply Z.eqb_neq | ] ].
    cbn [Handlers.onScreen records]. rewrite Hscreen in *.
    rewrite length_map in Hlt.
    rewrite <- (@writeSlot_filled _ index (setFlag (Some value)) (records s)
                 Hlt).
    apply writeSlot_on_filled; [ exact Hlt | reflexivity ].
Qed.

Section PlaceFacts.
Import Handlers.
Context {Item : Type} `{Flagged Item}.

Lemma find_by_id_map (g : Session Item -> Session Item) (z : Z)
    (h : list (Session Item)) :
  (forall s, id (g s) = id s) ->
  find (fun s => id s =? z) (map g h)
  = option_map g (find (fun s => id s =? z) h).
Proof.
  intros Hid. induction h as [ | s h IH ]; simpl; [ reflexivity | ].
  rewrite Hid. destruct (id s =? z); [ reflexivity | exact IH ].
Qed.

End PlaceFacts.

(** X22.  A toggle from the history tab reaches the record it was made
    on: when the tab shows a session whose identifier is not 0, after
    the toggle the tab shows the same session with the flag of the
    record at the given place set to the new value and nothing else
    changed. *)
Theorem history_tab_toggle_reaches_shown_record (Item : Type)
    (F : Flagged Item) (st : Handlers.View Item) (s : Session Item)
    (index : nat) (value : bool) :
  Handlers.selectedSession st = Some s ->
  id s <> 0 ->
  Handlers.selectedSession (Handlers.updateInHistory st index value false)
  = Some (mkSession (id s) (dateStr s)
            (Handlers.writeIfPresent index (setFlag (Some value))
                                     (records s))).
Proof.
  unfold Handlers.selectedSession, Handlers.updateInHistory,
    Handlers.targetHistoryId. cbn [andb].
  destruct (Handlers.selectedHistoryId st) as [z | ] eqn:Esel;
    [ | discriminate ].
  intros Hfind Hid.
  assert (Hz : id s = z).
  { apply find_some in Hfind. destruct Hfind as [_ Hz].
    now apply Z.eqb_eq in Hz. }
  subst z. cbn [Handlers.truthyId].
  apply Z.eqb_neq in Hid. rewrite Hid. cbn [negb].
  cbn [Handlers.selectedHistoryId Handlers.history]. rewrite ?Esel.
  rewrite find_by_id_map.
  - rewrite Hfind. cbn [option_map Handlers.isTarget].
    now rewrite Z.eqb_refl.
  - intros s0. now destruct (Handlers.isTarget (Some (id s)) s0).
Qed.

Lemma history_tab_toggle_example :
  Handlers.selectedSession eventViewSelected = Some eventSessionNew
  /\ id eventSessionNew <> 0
  /\ Handlers.selectedSession
       (Handlers.updateInHistory eventViewSelected 0 true false)
     = Some (mkSession 2000 "jeudi 2 octobre 2025"
               [EventClock.withAdded (Some true) eventNew]).
Proof.
  assert (Hsel : Handlers.selectedSession eventViewSelected
                 = Some eventSessionNew) by reflexivity.
  assert (Hid : id eventSessionNew <> 0) by discriminate.
  split; [ exact Hsel | split; [ exact Hid | ] ].
  exact (@history_tab_toggle_reaches_shown_record _ _ eventViewSelected
           eventSessionNew 0 true Hsel Hid).
Defined.

(** X23.  The scanner's toggle goes to whatever session is first in the
    history.  When the first session is deleted while its records are
    still on screen, the screen keeps them, and a toggle from the
    scanner then writes to the record at the same place of the next
    session, which is now the first one. *)
Theorem scanner_toggle_after_delete (Item : Type) (F : Flagged Item)
    (st : Handlers.View Item) (s next : Session Item)
    (rest : list (Session Item)) (index : nat) (value : bool) :
  Handlers.history st = s :: next :: rest ->
  id next <> id s ->
  id next <> 0 ->
  let deleted := Handlers.deleteHistoryItem st (id s) in
  let toggled := Handlers.updateInHistory deleted index value true in
  Handlers.onScreen deleted = Handlers.onScreen st
  /\ (forall kept, In kept (Handlers.history deleted) -> id kept <> id s)
  /\ exists others,
       Handlers.history toggled
       = mkSession (id next) (dateStr next)
           (Handlers.writeIfPresent index (setFlag (Some value))
                                    (records next))
         :: others.
Proof.
  intros Hh Hne Hnz deleted toggled. subst deleted toggled.
  split; [ reflexivity | split ].
  - intros kept Hin. unfold Handlers.deleteHistoryItem in Hin.
    cbn [Handlers.history] in Hin. apply filter_In in Hin.
    destruct Hin as [_ Hkeep]. now apply negb_true_iff, Z.eqb_neq in Hkeep.
  - unfold Handlers.updateInHistory, Handlers.targetHistoryId,
      Handlers.deleteHistoryItem. cbn [Handlers.history].
    rewrite Hh. cbn [filter]. rewrite Z.eqb_refl. cbn [negb].
    replace (id next =? id s) with false
      by (symmetry; now apply Z.eqb_neq).
    cbn [negb List.length Nat.ltb Nat.leb andb Handlers.truthyId].
    replace (id next =? 0) with false by (symmetry; now apply Z.eqb_neq).
    cbn [negb Handlers.history map Handlers.isTarget].
    rewrite Z.eqb_refl. eexists. reflexivity.
Qed.

Lemma scanner_toggle_after_delete_example :
  Handlers.history eventViewSelected
  = eventSessionNew :: eventSessionOld :: []
  /\ Handlers.onScreen (Handlers.deleteHistoryItem eventViewSelected 2000)
     = [Handlers.Filled eventNew]
  /\ exists others,
       Handlers.history
         (Handlers.updateInHistory
            (Handlers.deleteHistoryItem eventViewSelected 2000) 0 false true)
       = mkSession 1000 "mercredi 1 octobre 2025"
           [EventClock.withAdded (Some false) eventOld; eventOther]
         :: others.
Proof.
  split; [ reflexivity | split; [ reflexivity | ] ].
  destruct (@scanner_toggle_after_delete _ _ eventViewSelected
              eventSessionNew eventSessionOld [] 0%nat false eq_refl)
    as (_ & _ & Hfirst); [ discriminate | discriminate | ].
  exact Hfirst.
Defined.

(** ** A new scan seen through the consolidated views *)

Section NewSessionFacts.
Context {Item : Type} `{Flagged Item}.
Implicit Types (h : list (Session Item)) (s : Session Item) (g : string).

Lemma filter_insertSorted (cmp : Session Item -> Session Item -> Z)
    (p : Item -> bool) s h :
  filter p (records s) = [] ->
  filter p (allRecords (insertSorted cmp s h)) = filter p (allRecords h).
Proof.
  intros Hnone. unfold allRecords.
  induction h as [ | s0 h IH ]; simpl.
  - now rewrite app_nil_r.
  - destruct (cmp s0 s <? 0); simpl.
    + now rewrite !filter_app, IH.
    + now rewrite !filter_app, Hnone.
Qed.

Lemma no_copy_no_filter g (l : list Item) :
  (forall r, In r l -> signature r <> g) -> filter (hasSig g) l = [].
Proof.
  intros Hnone. induction l as [ | r l IH ]; simpl; [ reflexivity | ].
  unfold hasSig at 1.
  destruct (String.eqb_spec (signature r) g) as [E | _].
  - exfalso. apply (Hnone r); [ now left | exact E ].
  - apply IH. intros r' Hr'. apply Hnone. now right.
Qed.

Lemma overwrite_get_new_session g s h :
  (forall r, In r (records s) -> signature r <> g) ->
  mapGet g (uniqueMapOverwrite (s :: h)) = mapGet g (uniqueMapOverwrite h).
Proof.
  intros Hnone. rewrite !uniqueMapOverwrite_get. unfold oldestFirst.
  cbn [sortBy]. now rewrite filter_insertSorted by now apply no_copy_no_filter.
Qed.

Lemma keepFirst_get_new_session g s h :
  (forall r, In r (records s) -> signature r <> g) ->
  mapGet g (uniqueMapKeepFirst (s :: h)) = mapGet g (uniqueMapKeepFirst h).
Proof.
  intros Hnone. rewrite !uniqueMapKeepFirst_get. unfold newestFirst.
  cbn [sortBy]. now rewrite filter_insertSorted by now apply no_copy_no_filter.
Qed.

Lemma flagAnywhere_new_session g s h :
  flagAnywhere g (s :: h)
  = existsb (fun r => String.eqb (signature r) g && truthy (flagOf r))
            (records s)
    || flagAnywhere g h.
Proof. unfold flagAnywhere, allRecords. simpl. apply existsb_app. Qed.

Lemma newest_session_rules s h r r' s' :
  (forall s0, In s0 h -> id s0 < id s) ->
  (forall r0, In r0 (records s) -> signature r0 = signature r ->
              sameContent r0 r) ->
  In s' (s :: h) -> In r' (records s') -> signature r' = signature r ->
  id s' < id s \/ sameContent r' r.
Proof.
  intros Hnewer Hsame [<- | Hs'] Hr' Hsig; [ right | left ]; auto.
Qed.

End NewSessionFacts.

Lemma masterEvents_In now hidePastEvents history e :
  In e (EventClock.masterEvents now hidePastEvents history)
  <-> mapGet (EventClock.getEventSignature e) (uniqueMapOverwrite history)
      = Some e
      /\ (hidePastEvents = true ->
          EventClock.yesterdayMidnight now
          <= EventClock.start
               (EventClock.parseEventDateInfo now (EventClock.date e))).
Proof.
  pose proof (overwrite_value history e) as Hv.
  change (signature e) with (EventClock.getEventSignature e) in Hv.
  rewrite <- Hv. clear Hv. unfold EventClock.masterEvents.
  cbv zeta. destruct hidePastEvents.
  - rewrite filter_In, Z.leb_le.
    rewrite (sortBy_In (EventClock.byStart now)). tauto.
  - rewrite (sortBy_In (EventClock.byStart now)).
    split; [ intros Hin; split; [ exact Hin | discriminate ] | tauto ].
Qed.

Lemma masterItems_In onlyHighPriority history i :
  In i (Radar.masterItems onlyHighPriority history)
  <-> mapGet (Radar.getNewsSignature i) (uniqueMapKeepFirst history) = Some i
      /\ (onlyHighPriority = true -> Radar.criticality i = Radar.HIGH).
Proof.
  pose proof (keepFirst_value history i) as Hv.
  change (signature i) with (Radar.getNewsSignature i) in Hv.
  rewrite <- Hv. clear Hv. unfold Radar.masterItems.
  cbv zeta. destruct onlyHighPriority.
  - rewrite filter_In. unfold Radar.isHigh.
    destruct (Radar.criticality i); split; intros [Hin Hc];
      split; auto; try discriminate; now specialize (Hc eq_refl).
  - split; [ intros Hin; split; [ exact Hin | discriminate ] | tauto ].
Qed.

(** X6.  Storing a scan and looking at the consolidated events: a
    record whose signature the new scan does not hold is in the view
    after exactly when it was before; and when the new session is newer
    than every stored one, the record of a signature that the new scan
    holds has the new scan's text, and is flagged exactly when a copy in
    the new scan or a stored copy is, so a mark made before is not lost
    by scanning again. *)
Theorem events_view_after_new_scan (now : Z) (hidePastEvents : bool)
    (st : Handlers.View EventClock.EventItem) (t : Z) (label : string)
    (parsed : list EventClock.EventItem) (e : EventClock.EventItem) :
  let st' := Handlers.saveScanToHistory st t label parsed in
  ((forall r, In r parsed ->
              EventClock.getEventSignature r
              <> EventClock.getEventSignature e) ->
   (In e (EventClock.masterEvents now hidePastEvents (Handlers.history st'))
    <-> In e (EventClock.masterEvents now hidePastEvents
                (Handlers.history st))))
  /\ (forall r,
         (forall s, In s (Handlers.history st) -> id s < t) ->
         In e (EventClock.masterEvents now hidePastEvents
                 (Handlers.history st')) ->
         In r parsed ->
         EventClock.getEventSignature r = EventClock.getEventSignature e ->
         (forall r', In r' parsed ->
                     EventClock.getEventSignature r'
                     = EventClock.getEventSignature r ->
                     EventClock.sameButFlag r' r) ->
         EventClock.sameButFlag e r
         /\ truthy (EventClock.addedToCalendar e)
            = existsb (fun r' =>
                         String.eqb (EventClock.getEventSignature r')
                                    (EventClock.getEventSignature e)
                         && truthy (EventClock.addedToCalendar r'))
                      parsed
              || flagAnywhere (EventClock.getEventSignature e)
                              (Handlers.history st)).
Proof.
  intros st'. subst st'. cbn [Handlers.saveScanToHistory Handlers.history].
  split.
  - intros Hnone. rewrite !masterEvents_In.
    change (EventClock.getEventSignature e) with (signature e).
    rewrite overwrite_get_new_session; [ reflexivity | exact Hnone ].
  - intros r Hnewer Hin Hr Hsig Hsame.
    apply masterEvents_In in Hin. destruct Hin as [Hget _].
    change (EventClock.getEventSignature e) with (signature e) in *.
    change (EventClock.getEventSignature r) with (signature r) in *.
    split.
    + apply event_sameContent. rewrite <- Hsig in Hget.
      apply (@newest_content_overwrite _ _ _ e (mkSession t label parsed) r
               Hget); [ now left | exact Hr | ].
      intros s' r' Hs' Hr' Hsig'.
      apply (@newest_session_rules _ _ (mkSession t label parsed)
               (Handlers.history st) r r' s'); auto.
      intros r0 Hr0 Hsig0. apply event_sameContent. now apply Hsame.
    + apply overwrite_entry in Hget. destruct Hget as [_ [Hflag _]].
      unfold flagSet in Hflag. rewrite flagAnywhere_new_session in Hflag.
      exact Hflag.
Qed.

(** X7.  The same for the radar: a headline the new scan does not
    hold is in the consolidated view after exactly when it was before;
    when the new session is newer than every stored one, the record of
    a headline of the new scan has the new scan's text and is read
    exactly when a copy in the new scan or a stored copy is. *)
Theorem items_view_after_new_scan (onlyHighPriority : bool)
    (st : Handlers.View Radar.NewsItem) (t : Z) (label : string)
    (parsed : list Radar.NewsItem) (e : Radar.NewsItem) :
  let st' := Handlers.saveScanToHistory st t label parsed in
  ((forall r, In r parsed ->
              Radar.getNewsSignature r <> Radar.getNewsSignature e) ->
   (In e (Radar.masterItems onlyHighPriority (Handlers.history st'))
    <-> In e (Radar.masterItems onlyHighPriority (Handlers.history st))))
  /\ (forall r,
         (forall s, In s (Handlers.history st) -> id s < t) ->
         In e (Radar.masterItems onlyHighPriority (Handlers.history st')) ->
         In r parsed ->
         Radar.getNewsSignature r = Radar.getNewsSignature e ->
         (forall r', In r' parsed ->
                     Radar.getNewsSignature r' = Radar.getNewsSignature r ->
                     Radar.sameButFlag r' r) ->
         Radar.sameButFlag e r
         /\ truthy (Radar.read e)
            = existsb (fun r' =>
                         String.eqb (Radar.getNewsSignature r')
                                    (Radar.getNewsSignature e)
                         && truthy (Radar.read r'))
                      parsed
              || flagAnywhere (Radar.getNewsSignature e)
                              (Handlers.history st)).
Proof.
  intros st'. subst st'. cbn [Handlers.saveScanToHistory Handlers.history].
  split.
  - intros Hnone. rewrite !masterItems_In.
    change (Radar.getNewsSignature e) with (signature e).
    rewrite keepFirst_get_new_session; [ reflexivity | exact Hnone ].
  - intros r Hnewer Hin Hr Hsig Hsame.
    apply masterItems_In in Hin. destruct Hin as [Hget _].
    change (Radar.getNewsSignature e) with (signature e) in *.
    change (Radar.getNewsSignature r) with (signature r) in *.
    split.
    + apply news_sameContent. rewrite <- Hsig in Hget.
      apply (@newest_content_keepFirst _ _ _ e (mkSession t label parsed) r
               Hget); [ now left | exact Hr | ].
      intros s' r' Hs' Hr' Hsig'.
      apply (@newest_session_rules _ _ (mkSession t label parsed)
               (Handlers.history st) r r' s'); auto.
      intros r0 Hr0 Hsig0. apply news_sameContent. now apply Hsame.
    + apply keepFirst_entry in Hget. destruct Hget as [_ [Hflag _]].
      unfold flagSet in Hflag. rewrite flagAnywhere_new_session in Hflag.
      exact Hflag.
Qed.

(** ** The order in which the sessions are stored *)

Section StoredOrderFacts.
Context {Item : Type} `{Flagged Item}.
Implicit Types (h : list (Session Item)).

Lemma oldestFirst_of_permutation h h' :
  Permutation h h' -> NoDup (map id h) -> oldestFirst h = oldestFirst h'.
Proof.
  intros Hp Hnd.
  assert (Hnd' : NoDup (map id h'))
    by (eapply Permutation_NoDup; [ apply Permutation_map; exact Hp | exact Hnd ]).
  apply strictly_sorted_unique with (key := fun s : Session Item => id s).
  - apply sorted_nodup_strict; [ apply oldestFirst_sorted | ].
    eapply Permutation_NoDup; [ | exact Hnd ].
    apply Permutation_map. apply sortBy_perm.
  - apply sorted_nodup_strict; [ apply oldestFirst_sorted | ].
    eapply Permutation_NoDup; [ | exact Hnd' ].
    apply Permutation_map. apply sortBy_perm.
  - transitivity h; [ symmetry; apply sortBy_perm | ].
    transitivity h'; [ exact Hp | apply sortBy_perm ].
Qed.

Lemma newestFirst_of_permutation h h' :
  Permutation h h' -> NoDup (map id h) -> newestFirst h = newestFirst h'.
Proof.
  intros Hp Hnd.
  assert (Hnd' : NoDup (map id h'))
    by (eapply Permutation_NoDup; [ apply Permutation_map; exact Hp | exact Hnd ]).
  rewrite (newestFirst_rev h Hnd), (newestFirst_rev h' Hnd').
  f_equal. now apply oldestFirst_of_permutation.
Qed.

End StoredOrderFacts.

(** X8.  When no two stored sessions have the same identifier, both
    consolidated views depend on which sessions are stored and not on
    the order in which the history lists them. *)
Theorem consolidated_views_ignore_stored_order :
  (forall (now : Z) (hidePastEvents : bool)
          (h h' : list EventClock.ScanSession),
      Permutation h h' -> NoDup (map id h) ->
      EventClock.masterEvents now hidePastEvents h
      = EventClock.masterEvents now hidePastEvents h')
  /\ (forall (onlyHighPriority : bool) (h h' : list Radar.ScanSession),
         Permutation h h' -> NoDup (map id h) ->
         Radar.masterItems onlyHighPriority h
         = Radar.masterItems onlyHighPriority h').
Proof.
  split.
  - intros now hidePastEvents h h' Hp Hnd.
    unfold EventClock.masterEvents, uniqueMapOverwrite.
    now rewrite (oldestFirst_of_permutation Hp Hnd).
  - intros onlyHighPriority h h' Hp Hnd.
    unfold Radar.masterItems, uniqueMapKeepFirst.
    now rewrite (newestFirst_of_permutation Hp Hnd).
Qed.

(** ** The two dates read from a text *)

Section SpanFacts.
Import EventClock.

Lemma end_time_nonneg now s :
  endHour (parseFields now s) = -1
  \/ (0 <= endHour (parseFields now s) /\ 0 <= endMin (parseFields now s)).
Proof.
  pose proof (parseFields_times now s) as Ht. cbv zeta in Ht.
  pose proof (timeMatches_digits (toLowerCase s)) as Hd.
  destruct (timeMatches (toLowerCase s)) as [ | [h0 m0] [ | [h1 m1] rest ] ].
  - left. tauto.
  - left. tauto.
  - right. destruct Ht as (_ & _ & -> & ->).
    inversion Hd as [ | ? ? _ Hd' ]; subst.
    inversion Hd' as [ | ? ? [Hh1 Hm1] _ ]; subst.
    split; [ now apply parseInt_nonneg | now apply minutesOf_nonneg ].
Qed.

Lemma newDate_clock y m d hh mm :
  newDate y m d hh mm 0
  = newDate y m d 0 0 0 + hh * msPerHour + mm * msPerMinute.
Proof.
  unfold newDate, MakeDate, MakeTime, msPerHour, msPerMinute, msPerSecond.
  lia.
Qed.

(** X9.  When the times read from the text are before 24:00, the
    event never ends before it starts and lasts less than a day: with
    no second time the end is two hours after the start, with a second
    time not before the first it is that time on the same day, and
    with an earlier second time it is that time on the next day. *)
Theorem event_span_within_a_day (now : Z) (dateStr : string) :
  let f := parseFields now dateStr in
  let d := parseEventDateInfo now dateStr in
  60 * startHour f + startMin f < 1440 ->
  60 * endHour f + endMin f < 1440 ->
  start d <= end_ d < start d + msPerDay
  /\ end_ d - start d
     = (if endHour f =? -1 then 120
        else (60 * endHour f + endMin f - (60 * startHour f + startMin f))
             mod 1440)
       * msPerMinute.
Proof.
  cbv zeta. unfold parseEventDateInfo.
  destruct (start_time_nonneg now dateStr) as [Hh Hm].
  pose proof (end_time_nonneg now dateStr) as He.
  set (f := parseFields now dateStr) in *. clearbody f.
  intros Hs Hend.
  destruct (Z.eqb_spec (endHour f) (-1)) as [Hnone | Hfound].
  - rewrite (buildDates_end_default f Hnone Hh Hm Hs).
    unfold msPerDay, msPerHour, msPerMinute. lia.
  - destruct He as [He | [Heh Hem]]; [ contradiction | ].
    rewrite (buildDates_end_found f Hfound), buildDates_start,
      endSameDay_built.
    rewrite (newDate_clock _ _ _ (startHour f)),
      (newDate_clock _ _ _ (endHour f)).
    generalize (newDate (year f) (month f) (day f) 0 0 0) as D. intros D.
    unfold msPerDay, msPerHour, msPerMinute.
    destruct (Z.ltb_spec (D + endHour f * 3600000 + endMin f * 60000)
                (D + startHour f * 3600000 + startMin f * 60000))
      as [Hlt | Hge].
    + replace ((60 * endHour f + endMin f
                - (60 * startHour f + startMin f)) mod 1440)
        with (60 * endHour f + endMin f
              - (60 * startHour f + startMin f) + 1440).
      * lia.
      * apply Z.mod_unique with (q := -1); lia.
    + rewrite Z.mod_small by lia. lia.
Qed.

Lemma event_span_example :
  let f := parseFields sampleNow "jeudi 24 oct, 18h30 - 21h" in
  let d := parseEventDateInfo sampleNow "jeudi 24 oct, 18h30 - 21h" in
  (60 * startHour f + startMin f < 1440
   /\ 60 * endHour f + endMin f < 1440)
  /\ start d <= end_ d < start d + msPerDay
  /\ end_ d - start d
     = (if endHour f =? -1 then 120
        else (60 * endHour f + endMin f - (60 * startHour f + startMin f))
             mod 1440)
       * msPerMinute.
Proof.
  intros f d. subst f d.
  split; [ split; vm_compute; reflexivity | ].
  apply (event_span_within_a_day sampleNow "jeudi 24 oct, 18h30 - 21h");
    vm_compute; reflexivity.
Defined.

End SpanFacts.

Section RangeFacts.
Import EventClock.

Lemma detectMonth_in table s m :
  detectMonth table s = Some m -> In m (map snd table).
Proof.
  induction table as [ | [mName mIdx] table IH ]; simpl; [ discriminate | ].
  destruct (includes s mName); [ intros [= ->]; now left | auto ].
Qed.

Lemma detectMonth_range s m : detectMonth months s = Some m -> 0 <= m <= 11.
Proof.
  intros Hm. apply detectMonth_in in Hm. simpl in Hm.
  repeat (destruct Hm as [<- | Hm]; [ lia | ]). contradiction.
Qed.

Lemma leapDay_cases y : leapDay y = 0 \/ leapDay y = 1.
Proof. unfold leapDay. destruct (InLeapYear y); auto. Qed.

Lemma DayWithinYear_range d :
  0 <= DayWithinYear d < 365 + leapDay (YearFromDay d).
Proof.
  unfold DayWithinYear. pose proof (YearFromDay_spec d) as Hy.
  rewrite DayFromYear_next in Hy. lia.
Qed.

Lemma DateFromDay_range d : 1 <= DateFromDay d <= 31.
Proof.
  unfold DateFromDay, MonthFromDay. cbv zeta.
  pose proof (DayWithinYear_range d) as Hn.
  pose proof (leapDay_cases (YearFromDay d)) as Hl.
  revert Hn Hl.
  generalize (DayWithinYear d) as n, (leapDay (YearFromDay d)) as l.
  intros n l Hn Hl.
  repeat match goal with
         | |- context [ ?a <? ?b ] => destruct (Z.ltb_spec a b)
         end;
    cbv [monthStart Z.eqb Pos.eqb]; lia.
Qed.

Lemma monthStart_increasing a b l :
  0 <= a <= b -> b <= 11 -> 0 <= l -> monthStart a l <= monthStart b l.
Proof.
  intros Ha Hb Hl.
  assert (Hcases : forall m, 0 <= m <= 11 ->
            m = 0 \/ m = 1 \/ m = 2 \/ m = 3 \/ m = 4 \/ m = 5 \/ m = 6
            \/ m = 7 \/ m = 8 \/ m = 9 \/ m = 10 \/ m = 11) by (intros; lia).
  destruct (Hcases a ltac:(lia)) as [-> | [-> | [-> | [-> | [-> | [-> | [-> |
             [-> | [-> | [-> | [-> | ->]]]]]]]]]]];
    destruct (Hcases b ltac:(lia)) as [-> | [-> | [-> | [-> | [-> | [-> | [-> |
               [-> | [-> | [-> | [-> | ->]]]]]]]]]]];
    cbv [monthStart Z.eqb Pos.eqb]; lia.
Qed.

Lemma digit_code c : isDigit c = true -> 48 <= code c <= 57.
Proof.
  unfold isDigit, inRange. intros Hc. apply andb_true_iff in Hc.
  destruct Hc as [Hlo Hhi]. apply Z.leb_le in Hlo. apply Z.leb_le in Hhi.
  lia.
Qed.

Lemma two_digits_value s :
  allDigits s = true -> (String.length s <= 2)%nat -> 0 <= parseInt s <= 99.
Proof.
  unfold parseInt.
  destruct s as [ | a [ | b [ | c s ] ] ]; cbn [allDigits digitsValue String.length];
    intros Hd Hlen; try lia.
  - rewrite andb_true_r in Hd. apply digit_code in Hd. lia.
  - apply andb_true_iff in Hd. destruct Hd as [Ha Hb].
    rewrite andb_true_r in Hb. apply digit_code in Ha, Hb. lia.
Qed.

Lemma two_digits_minutes s :
  allDigits s = true -> (String.length s <= 2)%nat -> 0 <= minutesOf s <= 99.
Proof.
  destruct s as [ | a s ]; [ simpl; lia | ].
  intros Hd Hlen. now apply (@two_digits_value (String a s)).
Qed.

Lemma takeDigits_length n s : (String.length (fst (takeDigits n s)) <= n)%nat.
Proof.
  revert s. induction n as [ | n IH ]; intros s; simpl;
    [ destruct s; simpl; lia | ].
  destruct s as [ | c s ]; simpl; [ lia | ].
  destruct (isDigit c); simpl; [ | lia ].
  specialize (IH s). destruct (takeDigits n s) as [ds rest]. simpl in *. lia.
Qed.

Lemma timeTail_short s mm rest :
  timeTail s = Some (mm, rest) -> (String.length mm <= 2)%nat.
Proof.
  unfold timeTail. destruct (skipSpaces s) as [ | c s' ]; [ discriminate | ].
  destruct (isTimeSep c); [ | discriminate ].
  pose proof (takeDigits_length 2 (skipSpaces s')) as Hd.
  destruct (takeDigits 2 (skipSpaces s')) as [ds r].
  intros [= <- <-]. exact Hd.
Qed.

Lemma timeAt_short s hh mm rest :
  timeAt s = Some (hh, mm, rest) -> shortPair (hh, mm).
Proof.
  unfold timeAt.
  assert (Htry : forall n, (n <= 2)%nat ->
    match takeDigits n s with
    | (EmptyString, _) => None
    | (h0, r0) =>
        match timeTail r0 with
        | Some (m0, r1) => Some (h0, m0, r1)
        | None => None
        end
    end = Some (hh, mm, rest) -> shortPair (hh, mm)).
  { intros n Hn. pose proof (takeDigits_length n s) as Hd.
    destruct (takeDigits n s) as [h0 r0]. cbn [fst] in Hd.
    destruct h0 as [ | c h0 ]; [ discriminate | ].
    destruct (timeTail r0) as [ [m0 r1] | ] eqn:Et; [ | discriminate ].
    intros [= <- <- <-]. split; cbn [fst snd]; [ lia | ].
    exact (timeTail_short _ Et). }
  destruct (match takeDigits 2 s with
            | (EmptyString, _) => None
            | (h0, r0) =>
                match timeTail r0 with
                | Some (m0, r1) => Some (h0, m0, r1)
                | None => None
                end
            end) as [ [[h2 m2] r2] | ] eqn:E2.
  - intros [= <- <- <-]. apply (Htry 2%nat); [ lia | exact E2 ].
  - apply (Htry 1%nat). lia.
Qed.

Lemma timeMatchesFrom_short s skip :
  Forall shortPair (timeMatchesFrom skip s).
Proof.
  revert skip. induction s as [ | c s IH ]; intros skip; simpl;
    [ constructor | ].
  destruct skip as [ | k ]; [ | apply IH ].
  destruct (timeAt (String c s)) as [ [[hh mm] rest] | ] eqn:E; [ | apply IH ].
  constructor; [ exact (timeAt_short _ E) | apply IH ].
Qed.

Lemma dayAt_range s d : dayAt s = Some d -> 1 <= parseInt d <= 39.
Proof.
  unfold dayAt.
  assert (Hone : forall a rest,
             (if inRange 49 57 a && wordBoundary (isWord a) rest
              then Some (String a EmptyString) else None) = Some d ->
             1 <= parseInt d <= 39).
  { intros a rest. destruct (inRange 49 57 a) eqn:Ea; [ | discriminate ].
    destruct (wordBoundary (isWord a) rest); [ | discriminate ].
    intros [= <-]. unfold inRange in Ea. apply andb_true_iff in Ea.
    destruct Ea as [Hlo Hhi]. apply Z.leb_le in Hlo. apply Z.leb_le in Hhi.
    unfold parseInt. cbn [digitsValue]. lia. }
  destruct s as [ | a [ | b rest ] ]; [ discriminate | apply Hone | ].
  destruct (inRange 49 51 a && isDigit b && wordBoundary (isWord b) rest)
    eqn:Etwo; [ | apply Hone ].
  intros [= <-]. apply andb_true_iff in Etwo. destruct Etwo as [Etwo _].
  apply andb_true_iff in Etwo. destruct Etwo as [Ea Eb].
  apply digit_code in Eb. unfold inRange in Ea. apply andb_true_iff in Ea.
  destruct Ea as [Hlo Hhi]. apply Z.leb_le in Hlo. apply Z.leb_le in Hhi.
  unfold parseInt. cbn [digitsValue]. lia.
Qed.

Lemma dayMatchFrom_range s prevWord d :
  dayMatchFrom prevWord s = Some d -> 1 <= parseInt d <= 39.
Proof.
  revert prevWord. induction s as [ | c s IH ]; intros prevWord.
  - cbn [dayMatchFrom]. destruct (wordBoundary prevWord EmptyString);
      cbn; discriminate.
  - cbn [dayMatchFrom].
    destruct (if wordBoundary prevWord (String c s)
              then dayAt (String c s) else None) as [d0 | ] eqn:E.
    + intros [= <-]. destruct (wordBoundary prevWord (String c s));
        [ now apply dayAt_range in E | discriminate ].
    + apply IH.
Qed.

Lemma parseFields_clock now s :
  let f := parseFields now s in
  0 <= startHour f <= 99 /\ 0 <= startMin f <= 99
  /\ -1 <= endHour f <= 99 /\ 0 <= endMin f <= 99
  /\ (endHour f = -1 <-> (List.length (timeMatches (toLowerCase s)) < 2)%nat).
Proof.
  cbv zeta. unfold parseFields. cbv zeta.
  pose proof (timeMatches_digits (toLowerCase s)) as Hd.
  pose proof (timeMatchesFrom_short (toLowerCase s) 0) as Hs.
  fold (timeMatches (toLowerCase s)) in Hs.
  destruct (timeMatches (toLowerCase s))
    as [ | [h0 m0] [ | [h1 m1] rest ] ];
    cbn [startHour startMin endHour endMin List.length].
  - repeat split; lia.
  - inversion Hd as [ | ? ? [Hh Hm] _ ]; subst.
    inversion Hs as [ | ? ? [Lh Lm] _ ]; subst. cbn [fst snd] in *.
    pose proof (@two_digits_value h0 Hh Lh).
    pose proof (@two_digits_minutes m0 Hm Lm).
    repeat split; lia.
  - inversion Hd as [ | ? ? [Hh Hm] Hd' ]; subst.
    inversion Hd' as [ | ? ? [Hh1 Hm1] _ ]; subst.
    inversion Hs as [ | ? ? [Lh Lm] Hs' ]; subst.
    inversion Hs' as [ | ? ? [Lh1 Lm1] _ ]; subst. cbn [fst snd] in *.
    pose proof (@two_digits_value h0 Hh Lh).
    pose proof (@two_digits_minutes m0 Hm Lm).
    pose proof (@two_digits_value h1 Hh1 Lh1).
    pose proof (@two_digits_minutes m1 Hm1 Lm1).
    repeat split; lia.
Qed.

Lemma parseFields_calendar now s :
  let f := parseFields now s in
  0 <= month f <= 11 /\ 1 <= day f <= 39
  /\ year f = (if month f <? getMonth now then getFullYear now + 1
               else getFullYear now).
Proof.
  cbv zeta.
  destruct (parseFields_date now s) as (Hmonth & Hday & Hyear).
  set (f := parseFields now s) in *. clearbody f.
  split; [ | split; [ | exact Hyear ] ].
  - rewrite Hmonth.
    destruct (detectMonth months (toLowerCase s)) as [m | ] eqn:E;
      [ now apply detectMonth_range in E | apply MonthFromDay_range ].
  - rewrite Hday. unfold dayMatches.
    destruct (dayMatchFrom false (maskTimes (toLowerCase s)))
      as [d | ] eqn:E; [ now apply dayMatchFrom_range in E | ].
    pose proof (DateFromDay_range (Day now)). unfold getDate. lia.
Qed.

(** X10.  The components read from any text are in range: the month is
    an index from 0 to 11, the day is from 1 to 39, the year is the
    current one or the next, the hours and minutes are from 0 to 99,
    and the end hour is -1 exactly when the text holds fewer than two
    times. *)
Theorem parsed_fields_in_range (now : Z) (dateStr : string) :
  let f := parseFields now dateStr in
  0 <= month f <= 11
  /\ 1 <= day f <= 39
  /\ (year f = getFullYear now \/ year f = getFullYear now + 1)
  /\ 0 <= startHour f <= 99 /\ 0 <= startMin f <= 99
  /\ -1 <= endHour f <= 99 /\ 0 <= endMin f <= 99
  /\ (endHour f = -1
      <-> (List.length (timeMatches (toLowerCase dateStr)) < 2)%nat).
Proof.
  cbv zeta.
  destruct (parseFields_calendar now dateStr) as (Hmonth & Hday & Hyear).
  pose proof (parseFields_clock now dateStr) as Hclock. cbv zeta in Hclock.
  split; [ exact Hmonth | split; [ exact Hday | split; [ | exact Hclock ] ] ].
  rewrite Hyear. destruct (_ <? _); auto.
Qed.

Lemma monthStart_nonneg m l : 0 <= l -> 0 <= monthStart m l.
Proof.
  intros Hl. unfold monthStart.
  repeat match goal with
         | |- context [ ?a =? ?b ] => destruct (a =? b)
         end; lia.
Qed.

Lemma DayFromYear_monotone y y' : y <= y' -> DayFromYear y <= DayFromYear y'.
Proof.
  intros Hle. destruct (Z.eq_dec y y') as [-> | Hne]; [ lia | ].
  pose proof (@DayFromYear_increasing y y'). lia.
Qed.

Lemma first_of_month_day t :
  Day (startOfMonth t) = Day t - (getDate t - 1)
  /\ startOfMonth t = (Day t - (getDate t - 1)) * msPerDay.
Proof.
  assert (Hset : setDate t 1 = t + (1 - getDate t) * msPerDay).
  { rewrite <- setDate_shift. f_equal. lia. }
  assert (Hday : Day (setDate t 1) = Day t - (getDate t - 1)).
  { rewrite Hset. unfold Day, msPerDay.
    rewrite Z.div_add by lia. lia. }
  unfold startOfMonth, setHours. rewrite Hday.
  unfold MakeDate, MakeTime, msPerHour, msPerMinute, msPerSecond.
  split; [ | lia ].
  unfold Day, msPerDay.
  replace ((t / 86400000 - (getDate t - 1)) * 86400000
           + (0 * 3600000 + 0 * 60000 + 0 * 1000 + 0))
    with ((t / 86400000 - (getDate t - 1)) * 86400000) by lia.
  now rewrite Z.div_mul by lia.
Qed.

(** X11.  The start read from any text is never before the first
    instant of the current month: a month earlier than the current one
    is taken to be next year's, and then the start is in a later year
    than the clock's. *)
Theorem start_not_before_current_month (now : Z) (dateStr : string) :
  let f := parseFields now dateStr in
  let d := parseEventDateInfo now dateStr in
  startOfMonth now <= start d
  /\ (month f < getMonth now ->
      DayFromYear (getFullYear now + 1) * msPerDay <= start d).
Proof.
  cbv zeta. unfold parseEventDateInfo. rewrite buildDates_start.
  destruct (parseFields_calendar now dateStr) as (Hmonth & Hday & Hyear).
  destruct (start_time_nonneg now dateStr) as [Hh Hm].
  set (f := parseFields now dateStr) in *. clearbody f.
  destruct (first_of_month_day now) as [_ ->].
  unfold newDate.
  set (yr := if (0 <=? year f) && (year f <=? 99) then 1900 + year f
             else year f).
  assert (Hyr : year f <= yr).
  { unfold yr. destruct ((0 <=? year f) && (year f <=? 99)) eqn:E; [ | lia ].
    apply andb_true_iff in E. destruct E as [E _]. apply Z.leb_le in E. lia. }
  assert (Hlow : (DayFromYear yr + monthStart (month f) (leapDay yr))
                 * msPerDay
                 <= MakeDate (MakeDay yr (month f) (day f))
                             (MakeTime (startHour f) (startMin f) 0 0)).
  { unfold MakeDate, MakeDay, MakeTime, msPerDay, msPerHour, msPerMinute,
      msPerSecond. cbv zeta.
    rewrite (Z.div_small (month f) 12), (Z.mod_small (month f) 12) by lia.
    rewrite Z.add_0_r. nia. }
  pose proof (leapDay_cases yr) as Hl.
  pose proof (@monthStart_nonneg (month f) (leapDay yr)) as Hms.
  pose proof (YearFromDay_spec (Day now)) as Hspec.
  fold (getFullYear now) in Hspec.
  assert (Hnext : yr >= getFullYear now + 1 ->
                  DayFromYear (getFullYear now + 1) * msPerDay
                  <= (DayFromYear yr + monthStart (month f) (leapDay yr))
                     * msPerDay).
  { intros Hge.
    pose proof (@DayFromYear_monotone (getFullYear now + 1) yr) as Hmono.
    unfold msPerDay. nia. }
  pose proof (DateFromDay_range (Day now)) as Hdate.
  fold (getDate now) in Hdate.
  split.
  - destruct (Z.ltb_spec (month f) (getMonth now)) as [Hlt | Hge].
    + unfold msPerDay in *. nia.
    + destruct (Z.eq_dec yr (getFullYear now)) as [Heq | Hne].
      * assert (Hfirst : DayFromYear (getFullYear now)
                         + monthStart (getMonth now)
                                      (leapDay (getFullYear now))
                         = Day now - (getDate now - 1)).
        { pose proof (MakeDay_from_date (Day now) (1 - getDate now)) as Hmk.
          unfold getDate in Hmk |- *.
          replace (DateFromDay (Day now) + (1 - DateFromDay (Day now)))
            with 1 in Hmk by lia.
          unfold MakeDay in Hmk. cbv zeta in Hmk.
          pose proof (MonthFromDay_range (Day now)) as Hr.
          rewrite (Z.div_small (MonthFromDay (Day now)) 12),
            (Z.mod_small (MonthFromDay (Day now)) 12), Z.add_0_r in Hmk
            by lia.
          unfold getFullYear, getMonth. lia. }
        pose proof (MonthFromDay_range (Day now)) as Hr.
        fold (getMonth now) in Hr.
        pose proof (@monthStart_increasing (getMonth now) (month f)
                      (leapDay yr)) as Hinc.
        rewrite Heq in *. unfold msPerDay in *. nia.
      * assert (yr >= getFullYear now + 1) by lia.
        unfold msPerDay in *. nia.
  - intros Hlt. apply Z.ltb_lt in Hlt. rewrite Hlt in Hyear.
    assert (yr >= getFullYear now + 1) by lia. specialize (Hnext H). lia.
Qed.

Lemma yesterdayMidnight_value now :
  yesterdayMidnight now = (Day now - 1) * msPerDay.
Proof.
  unfold yesterdayMidnight. cbv zeta.
  replace (getDate (setHours now 0 0 0 0) - 1)
    with (getDate (setHours now 0 0 0 0) + -1) by lia.
  rewrite setDate_shift.
  unfold setHours, MakeDate, MakeTime, msPerHour, msPerMinute, msPerSecond.
  lia.
Qed.

(** X12.  With the filter on, the consolidated events are those of the
    view without the filter, in the same order, whose start is on
    yesterday's date or later: the threshold is the first instant of
    the day before the clock's, also across the first day of a month
    or a year. *)
Theorem hide_past_keeps_from_yesterday (now : Z)
    (history : list ScanSession) :
  yesterdayMidnight now = (Day now - 1) * msPerDay
  /\ masterEvents now true history
     = filter (fun e => Day now - 1
                        <=? Day (start (parseEventDateInfo now (date e))))
              (masterEvents now false history).
Proof.
  split; [ apply yesterdayMidnight_value | ].
  unfold masterEvents. cbv zeta. apply filter_ext. intros e.
  rewrite yesterdayMidnight_value. unfold Day, msPerDay.
  generalize (start (parseEventDateInfo now (date e))) as t. intros t.
  destruct (Z.leb_spec ((now / 86400000 - 1) * 86400000) t),
    (Z.leb_spec (now / 86400000 - 1) (t / 86400000));
    try reflexivity; exfalso; Z.div_mod_to_equations; lia.
Qed.

(** X13.  The month is the first entry of the table, in table order,
    whose name occurs anywhere in the lowered text.  So a text that
    holds the letters "mar", as the weekday "mardi" does, is read as
    March unless it also holds "jan", "fev" or its accented form, which
    come first; the months after March are never reached. *)
Theorem month_follows_table_order (now : Z) (dateStr : string) :
  includes (toLowerCase dateStr) "mar" = true ->
  month (parseFields now dateStr)
  = (if includes (toLowerCase dateStr) "jan" then 0
     else if includes (toLowerCase dateStr)
                      (String "f" (String e_acute "v"))
             || includes (toLowerCase dateStr) "fev" then 1
     else 2).
Proof.
  intros Hmar. destruct (parseFields_date now dateStr) as (-> & _).
  unfold months. cbn [detectMonth].
  destruct (includes (toLowerCase dateStr) "jan"); [ reflexivity | ].
  destruct (includes (toLowerCase dateStr)
                     (String "f" (String e_acute "v"))); [ reflexivity | ].
  destruct (includes (toLowerCase dateStr) "fev"); [ reflexivity | ].
  now rewrite Hmar.
Qed.

Lemma month_follows_table_order_example :
  includes (toLowerCase "Mardi 14 octobre, 19h") "mar" = true
  /\ month (parseFields sampleNow "Mardi 14 octobre, 19h") = 2.
Proof.
  split; [ reflexivity | ].
  rewrite (month_follows_table_order sampleNow "Mardi 14 octobre, 19h");
    reflexivity.
Defined.

(** X20.  A text that names no month and holds no day number is put on
    the day after the clock's, also when the clock is on the last day
    of a month or of a year, at the time read from the text (9:00 when
    there is none). *)
Theorem no_date_means_tomorrow (now : Z) (dateStr : string) :
  let f := parseFields now dateStr in
  let d := parseEventDateInfo now dateStr in
  detectMonth months (toLowerCase dateStr) = None ->
  dayMatches (maskTimes (toLowerCase dateStr)) = None ->
  60 * startHour f + startMin f < 1440 ->
  ~ (0 <= getFullYear now <= 99) ->
  Day (start d) = Day now + 1
  /\ start d
     = (Day now + 1) * msPerDay
       + startHour f * msPerHour + startMin f * msPerMinute.
Proof.
  cbv zeta. unfold parseEventDateInfo. intros Hmonth Hday Hclock Hyear.
  destruct (parseFields_date now dateStr) as (Hm & Hd & Hy).
  destruct (start_time_nonneg now dateStr) as [Hh Hmin].
  rewrite Hmonth in Hm. rewrite Hday in Hd.
  set (f := parseFields now dateStr) in *. clearbody f.
  rewrite Hm, Z.ltb_irrefl in Hy.
  rewrite buildDates_start, newDate_clock, Hm, Hd, Hy.
  assert (Hmid : newDate (getFullYear now) (getMonth now) (getDate now + 1)
                         0 0 0
                 = (Day now + 1) * msPerDay).
  { unfold newDate.
    replace ((0 <=? getFullYear now) && (getFullYear now <=? 99)) with false.
    - unfold getFullYear, getMonth, getDate. rewrite MakeDay_from_date.
      unfold MakeDate, MakeTime, msPerHour, msPerMinute, msPerSecond. lia.
    - symmetry. apply andb_false_iff.
      destruct (Z.leb_spec 0 (getFullYear now)); [ right | now left ].
      apply Z.leb_gt. lia. }
  rewrite Hmid. split; [ | reflexivity ].
  unfold Day, msPerDay, msPerHour, msPerMinute in *.
  Z.div_mod_to_equations. lia.
Qed.

Lemma no_date_means_tomorrow_example :
  let f := parseFields (newDate 2025 11 31 12 0 0) "reunion a 14h" in
  let d := parseEventDateInfo (newDate 2025 11 31 12 0 0) "reunion a 14h" in
  (getFullYear (start d), getMonth (start d), getDate (start d),
   getHours (start d)) = (2026, 0, 1, 14)
  /\ Day (start d) = Day (newDate 2025 11 31 12 0 0) + 1.
Proof.
  intros f d. subst f d.
  split; [ vm_compute; reflexivity | ].
  apply (no_date_means_tomorrow (newDate 2025 11 31 12 0 0) "reunion a 14h");
    try (vm_compute; reflexivity).
  vm_compute. intros [_ H]. now apply H.
Defined.

End RangeFacts.

(** ** Signatures *)

Lemma sfilter_separator (p : ascii -> bool) (sep : ascii)
    (a b t1 t2 : string) :
  p sep = false ->
  (sfilter p a ++ String sep t1)%string = (sfilter p b ++ String sep t2)%string ->
  sfilter p a = sfilter p b /\ t1 = t2.
Proof.
  intros Hsep. revert b.
  induction a as [ | c a IHa ]; intros b; cbn [sfilter].
  - induction b as [ | d b IHb ]; cbn [sfilter String.append].
    + intros [= ->]. auto.
    + destruct (p d) eqn:Ed; [ | exact IHb ].
      cbn [String.append]. intros [= <- _]. congruence.
  - destruct (p c) eqn:Ec; [ | apply IHa ].
    induction b as [ | d b IHb ]; cbn [sfilter String.append].
    + intros [= -> _]. congruence.
    + destruct (p d) eqn:Ed; [ | exact IHb ].
      cbn [String.append]. intros [= <- Hrest].
      destruct (IHa b Hrest) as [-> ->]. auto.
Qed.

(** X14.  Two events have the same signature exactly when their
    titles agree and their dates agree once lowered and stripped of
    every character but a-z and 0-9: the underscore between the two
    parts is never a character of either part, so no title and date
    can be mistaken for another title and date. *)
Theorem event_signature_identifies_clean_texts
    (a b : EventClock.EventItem) :
  EventClock.getEventSignature a = EventClock.getEventSignature b
  <-> clean (EventClock.title a) = clean (EventClock.title b)
      /\ clean (EventClock.date a) = clean (EventClock.date b).
Proof.
  unfold EventClock.getEventSignature, clean, stripNonAlnum. cbv zeta.
  split.
  - intros Hsig. apply (sfilter_separator isLowerAlnum "_"%char);
      [ reflexivity | exact Hsig ].
  - intros [-> ->]. reflexivity.
Qed.

(** ** One scan, whatever the generator returns *)

Section ScanOutcome.
Import Scan.
Variable JSON_parse : string -> option json.
Variable objectLengthPositive : list (string * json) -> bool.

Lemma afterResponse_outcome now label text st :
  (exists e, afterResponse JSON_parse objectLengthPositive now label text st
             = mkApp (current st) (Some e) (history st))
  \/ (exists parsed,
        parseResponse JSON_parse text = inr parsed
        /\ lengthPositive objectLengthPositive parsed = inr true
        /\ afterResponse JSON_parse objectLengthPositive now label text st
           = mkApp parsed (error st)
                   (mkStored now label parsed :: history st)).
Proof.
  unfold afterResponse.
  destruct (parseResponse JSON_parse text) as [e | parsed] eqn:Ep;
    [ left; now exists e | ].
  destruct (lengthPositive objectLengthPositive parsed) as [e | [ | ]] eqn:El.
  - left. now exists e.
  - right. exists parsed.
    split; [ reflexivity | split; [ exact El | reflexivity ] ].
  - left. now exists NothingFound.
Qed.

End ScanOutcome.

(** X15.  A scan ends in one of two ways.  Either it fails: the screen
    is empty, an error is set and the stored history is what it was.
    Or it succeeds: no error is set, what the parse returned is on
    screen, and the history is the old one with one session put in
    front, which holds the same value under the scan's time and label.
    A scan never removes or changes a stored session. *)
Theorem scan_outcome
    (JSON_parse : string -> option Scan.json)
    (objectLengthPositive : list (string * Scan.json) -> bool)
    (now : Z) (label : string) (g : Scan.Generated) (st : Scan.AppState) :
  let st' := Scan.scan JSON_parse objectLengthPositive now label g st in
  (exists e, st' = Scan.mkApp (Scan.JArray []) (Some e) (Scan.history st))
  \/ (exists text parsed,
        g = Scan.Response text
        /\ Scan.parseResponse JSON_parse
             (match text with Some t => t | None => "" end) = inr parsed
        /\ Scan.lengthPositive objectLengthPositive parsed = inr true
        /\ st' = Scan.mkApp parsed None
                   (Scan.mkStored now label parsed :: Scan.history st)).
Proof.
  cbv zeta. unfold Scan.scan. cbv zeta.
  destruct g as [message | text].
  - left. eexists. reflexivity.
  - destruct (afterResponse_outcome JSON_parse objectLengthPositive now label
                (match text with Some t => t | None => "" end)
                (Scan.mkApp (Scan.JArray []) None (Scan.history st)))
      as [[e He] | [parsed [Hp [Hl He]]]].
    + left. exists e. exact He.
    + right. exists text, parsed.
      split; [ reflexivity | split; [ exact Hp | split; [ exact Hl | exact He ] ] ].
Qed.

(** ** The fenced block of a response *)

Section FenceFacts.
Import Scan.

Lemma substring_all (m : nat) (r : string) :
  (String.length r <= m)%nat -> String.substring 0 m r = r.
Proof.
  revert m. induction r as [ | c r IH ]; intros [ | m ] Hlen; simpl in *;
    try reflexivity; try lia.
  rewrite IH by lia. reflexivity.
Qed.

Lemma substring_skip (p r : string) (m : nat) :
  String.substring (String.length p) m (p ++ r) = String.substring 0 m r.
Proof. induction p as [ | c p IH ]; simpl; [ reflexivity | exact IH ]. Qed.

Lemma startsWith_split (p s : string) :
  startsWith p s = true -> exists r, s = (p ++ r)%string.
Proof.
  revert s. induction p as [ | a p IH ]; intros s; simpl.
  - intros _. now exists s.
  - destruct s as [ | b s ]; [ discriminate | ].
    intros Hp. apply andb_true_iff in Hp. destruct Hp as [Hab Hp].
    apply Ascii.eqb_eq in Hab. subst b.
    destruct (IH s Hp) as [r ->]. now exists r.
Qed.

Lemma startsWith_append (p r : string) : startsWith p (p ++ r) = true.
Proof.
  induction p as [ | a p IH ]; simpl; [ reflexivity | ].
  now rewrite Ascii.eqb_refl, IH.
Qed.

Lemma length_append (a b : string) :
  String.length (a ++ b) = (String.length a + String.length b)%nat.
Proof. induction a as [ | c a IH ]; simpl; [ reflexivity | now rewrite IH ]. Qed.

Lemma startsWith_rest (p s : string) :
  startsWith p s = true ->
  s = (p ++ String.substring (String.length p) (String.length s) s)%string.
Proof.
  intros E. destruct (startsWith_split _ _ E) as [r ->].
  rewrite substring_skip, substring_all; [ reflexivity | ].
  rewrite length_append. lia.
Qed.

Lemma append_assoc' (a b c : string) :
  ((a ++ b) ++ c)%string = (a ++ b ++ c)%string.
Proof. induction a as [ | x a IH ]; simpl; [ reflexivity | now rewrite IH ]. Qed.

Lemma append_split (a b c d : string) :
  (a ++ b)%string = (c ++ d)%string ->
  (String.length a <= String.length c)%nat ->
  exists x, c = (a ++ x)%string /\ b = (x ++ d)%string.
Proof.
  revert c. induction a as [ | y a IH ]; intros c Heq Hlen.
  - exists c. simpl in *. auto.
  - destruct c as [ | z c ]; simpl in *; [ lia | ].
    injection Heq as -> Heq.
    destruct (IH c Heq) as [x [-> ->]]; [ lia | ].
    exists x. auto.
Qed.

Lemma splitAtFirst_some (p s before after : string) :
  splitAtFirst p s = Some (before, after) ->
  s = (before ++ p ++ after)%string
  /\ forall before' after',
       s = (before' ++ p ++ after')%string ->
       (String.length before <= String.length before')%nat.
Proof.
  revert before. induction s as [ | c s IH ]; intros before; cbn [splitAtFirst].
  - destruct (startsWith p EmptyString) eqn:E; [ | discriminate ].
    intros [= <- <-].
    split; [ exact (startsWith_rest _ _ E) | simpl; intros; lia ].
  - destruct (startsWith p (String c s)) eqn:E.
    + intros [= <- <-].
      split; [ exact (startsWith_rest _ _ E) | simpl; intros; lia ].
    + destruct (splitAtFirst p s) as [[b0 a0] | ] eqn:Es; [ | discriminate ].
      intros [= <- <-]. destruct (IH b0 eq_refl) as [Hs Hfirst].
      split; [ simpl; now rewrite <- Hs | ].
      intros before' after' Heq.
      destruct before' as [ | c' before' ].
      * simpl in Heq. rewrite Heq, startsWith_append in E. discriminate.
      * simpl in Heq. injection Heq as _ Heq. simpl.
        specialize (Hfirst _ _ Heq). lia.
Qed.

Lemma splitAtFirst_none (p s before after : string) :
  splitAtFirst p s = None -> s <> (before ++ p ++ after)%string.
Proof.
  revert before. induction s as [ | c s IH ]; intros before;
    cbn [splitAtFirst].
  - destruct (startsWith p EmptyString) eqn:E; [ discriminate | ].
    intros _ Heq. destruct before; [ | discriminate ].
    simpl in Heq. rewrite Heq, startsWith_append in E. discriminate.
  - destruct (startsWith p (String c s)) eqn:E; [ discriminate | ].
    destruct (splitAtFirst p s) as [[b0 a0] | ] eqn:Es; [ discriminate | ].
    intros _ Heq. destruct before as [ | c' before ].
    + simpl in Heq. rewrite Heq, startsWith_append in E. discriminate.
    + simpl in Heq. injection Heq as _ Heq. exact (IH before eq_refl Heq).
Qed.

(** What [between] returns lies between the first opening delimiter
    and the first closing delimiter after it. *)
Lemma between_some (open close text inner : string) :
  between open close text = Some inner ->
  exists pre post,
    text = (pre ++ open ++ inner ++ close ++ post)%string
    /\ (forall pre' rest,
          text = (pre' ++ open ++ rest)%string ->
          (String.length pre <= String.length pre')%nat)
    /\ (forall inner' post',
          (inner ++ close ++ post)%string = (inner' ++ close ++ post')%string ->
          (String.length inner <= String.length inner')%nat).
Proof.
  unfold between.
  destruct (splitAtFirst open text) as [[pre after] | ] eqn:Eo;
    [ | discriminate ].
  destruct (splitAtFirst close after) as [[inner0 post] | ] eqn:Ec;
    [ | discriminate ].
  intros [= <-].
  destruct (splitAtFirst_some _ _ Eo) as [Htext Hpre].
  destruct (splitAtFirst_some _ _ Ec) as [Hafter Hinner].
  exists pre, post. rewrite <- Hafter.
  split; [ exact Htext | split; [ exact Hpre | exact Hinner ] ].
Qed.

Lemma between_none (open close text : string) :
  between open close text = None ->
  forall pre inner post,
    text <> (pre ++ open ++ inner ++ close ++ post)%string.
Proof.
  unfold between. intros Hnone pre inner post Heq.
  destruct (splitAtFirst open text) as [[pre0 after] | ] eqn:Eo.
  - destruct (splitAtFirst close after) as [[inner0 post0] | ] eqn:Ec;
      [ discriminate | ].
    destruct (splitAtFirst_some _ _ Eo) as [Htext Hpre].
    specialize (Hpre pre (inner ++ close ++ post)%string Heq).
    rewrite Htext in Heq.
    replace (pre ++ open ++ inner ++ close ++ post)%string
      with ((pre ++ open ++ inner) ++ close ++ post)%string in Heq
      by now rewrite !append_assoc'.
    replace (pre0 ++ open ++ after)%string
      with ((pre0 ++ open) ++ after)%string in Heq
      by now rewrite !append_assoc'.
    destruct (append_split (pre0 ++ open) after (pre ++ open ++ inner)
                (close ++ post) Heq) as [x [_ Hafter]].
    { rewrite !length_append. lia. }
    exact (@splitAtFirst_none _ _ x post Ec Hafter).
  - exact (@splitAtFirst_none _ _ pre (inner ++ close ++ post)%string Eo Heq).
Qed.

End FenceFacts.

(** X16.  The text handed to the parser from a response with a fenced
    block: when the response holds a block opened by the fence with
    the tag json and a line break and closed by a line break and the
    fence, it is the text between the first such opening and the first
    such closing after it; otherwise it is the text between the first
    fence and the next one.  No block is found exactly when the
    response holds no two fences one after the other. *)
Theorem fenced_block_extraction (textResponse : string) :
  match Scan.jsonMatch textResponse with
  | Some inner =>
      exists open close pre post,
        ((open = (Scan.fence ++ "json" ++ String Scan.newline "")%string
          /\ close = String Scan.newline Scan.fence)
         \/ (open = Scan.fence /\ close = Scan.fence
             /\ Scan.between
                  (Scan.fence ++ "json" ++ String Scan.newline "")%string
                  (String Scan.newline Scan.fence) textResponse = None))
        /\ textResponse = (pre ++ open ++ inner ++ close ++ post)%string
        /\ (forall pre' rest,
               textResponse = (pre' ++ open ++ rest)%string ->
               (String.length pre <= String.length pre')%nat)
        /\ (forall inner' post',
               (inner ++ close ++ post)%string
               = (inner' ++ close ++ post')%string ->
               (String.length inner <= String.length inner')%nat)
  | None =>
      forall pre inner post,
        textResponse
        <> (pre ++ Scan.fence ++ inner ++ Scan.fence ++ post)%string
  end.
Proof.
  unfold Scan.jsonMatch.
  destruct (Scan.between (Scan.fence ++ "json" ++ String Scan.newline "")
              (String Scan.newline Scan.fence) textResponse)
    as [inner | ] eqn:Etag.
  - destruct (between_some _ _ _ Etag) as [pre [post H]].
    exists (Scan.fence ++ "json" ++ String Scan.newline "")%string,
      (String Scan.newline Scan.fence), pre, post.
    split; [ left; split; reflexivity | exact H ].
  - destruct (Scan.between Scan.fence Scan.fence textResponse)
      as [inner | ] eqn:Eany.
    + destruct (between_some _ _ _ Eany) as [pre [post H]].
      exists Scan.fence, Scan.fence, pre, post.
      split; [ right; split; [ | split ]; reflexivity | exact H ].
    + now apply between_none.
Qed.

(** ** The stamps of the calendar link *)

Section StampFacts.
Import Calendar.

Lemma code_chr z : 0 <= z < 256 -> code (chr z) = z.
Proof.
  intros Hz. unfold code, chr.
  rewrite N_ascii_embedding by lia. lia.
Qed.

Lemma digit_char d : 0 <= d <= 9 ->
  isDigit (chr (48 + d)) = true /\ code (chr (48 + d)) - 48 = d.
Proof.
  intros Hd. unfold isDigit, inRange. rewrite code_chr by lia.
  split; [ | lia ].
  apply andb_true_iff. split; apply Z.leb_le; lia.
Qed.

Lemma pad_two_digits n :
  0 <= n <= 99 ->
  pad n = String (chr (48 + n / 10)) (String (chr (48 + n mod 10)) "").
Proof.
  intros Hn. unfold pad, numberToString.
  replace (n <? 0) with false by (symmetry; apply Z.ltb_ge; lia).
  cbn [digitsOf].
  destruct (Z.ltb_spec n 10) as [Hlt | Hge].
  - replace (n / 10) with 0 by (symmetry; apply Z.div_small; lia).
    reflexivity.
  - replace (n / 10 <? 10) with true
      by (symmetry; apply Z.ltb_lt; Z.div_mod_to_equations; lia).
    replace ((n / 10) mod 10) with (n / 10)
      by (symmetry; apply Z.mod_small; Z.div_mod_to_equations; lia).
    reflexivity.
Qed.

Lemma year_four_digits y :
  1000 <= y <= 9999 ->
  numberToString y
  = String (chr (48 + y / 1000))
      (String (chr (48 + (y / 100) mod 10))
         (String (chr (48 + (y / 10) mod 10))
            (String (chr (48 + y mod 10)) ""))).
Proof.
  intros Hy. unfold numberToString.
  replace (y <? 0) with false by (symmetry; apply Z.ltb_ge; lia).
  cbn [digitsOf].
  replace (y <? 10) with false by (symmetry; apply Z.ltb_ge; lia).
  replace (y / 10 <? 10) with false
    by (symmetry; apply Z.ltb_ge; Z.div_mod_to_equations; lia).
  replace (y / 10 / 10 <? 10) with false
    by (symmetry; apply Z.ltb_ge; Z.div_mod_to_equations; lia).
  replace (y / 10 / 10 / 10 <? 10) with true
    by (symmetry; apply Z.ltb_lt; Z.div_mod_to_equations; lia).
  replace ((y / 10 / 10 / 10) mod 10) with (y / 1000)
    by (Z.div_mod_to_equations; lia).
  replace (y / 10 / 10) with (y / 100) by (Z.div_mod_to_equations; lia).
  reflexivity.
Qed.

Lemma formatLocal_chars t :
  1000 <= getFullYear t <= 9999 ->
  formatLocal t
  = String (chr (48 + getFullYear t / 1000))
     (String (chr (48 + (getFullYear t / 100) mod 10))
     (String (chr (48 + (getFullYear t / 10) mod 10))
     (String (chr (48 + getFullYear t mod 10))
     (String (chr (48 + (getMonth t + 1) / 10))
     (String (chr (48 + (getMonth t + 1) mod 10))
     (String (chr (48 + getDate t / 10))
     (String (chr (48 + getDate t mod 10))
     (String "T"
     (String (chr (48 + getHours t / 10))
     (String (chr (48 + getHours t mod 10))
     (String (chr (48 + getMinutes t / 10))
     (String (chr (48 + getMinutes t mod 10)) "00")))))))))))).
Proof.
  intros Hy. unfold formatLocal.
  pose proof (MonthFromDay_range (Day t)) as Hm. fold (getMonth t) in Hm.
  pose proof (DateFromDay_range (Day t)) as Hd. fold (getDate t) in Hd.
  assert (Hh : 0 <= getHours t <= 99)
    by (unfold getHours; pose proof (Z.mod_pos_bound (t / msPerHour) 24); lia).
  assert (Hmin : 0 <= getMinutes t <= 99)
    by (unfold getMinutes;
        pose proof (Z.mod_pos_bound (t / msPerMinute) 60); lia).
  rewrite (@year_four_digits _ Hy).
  rewrite (@pad_two_digits (getMonth t + 1)) by lia.
  rewrite (@pad_two_digits (getDate t)) by lia.
  rewrite (@pad_two_digits (getHours t)) by lia.
  rewrite (@pad_two_digits (getMinutes t)) by lia.
  reflexivity.
Qed.

(** X17.  For a date whose year has four digits the stamp of the
    calendar link has fifteen characters, eight digits, the letter T
    and six digits, and reads back as the date's local year, month
    (from 1), day, hours and minutes, with 00 for the seconds. *)
Theorem calendar_stamp_reads_back (t : Z) :
  1000 <= getFullYear t <= 9999 ->
  let s := Calendar.formatLocal t in
  String.length s = 15%nat
  /\ allDigits (String.substring 0 8 s) = true
  /\ String.substring 8 1 s = "T"
  /\ allDigits (String.substring 9 6 s) = true
  /\ parseInt (String.substring 0 4 s) = getFullYear t
  /\ parseInt (String.substring 4 2 s) = getMonth t + 1
  /\ parseInt (String.substring 6 2 s) = getDate t
  /\ parseInt (String.substring 9 2 s) = getHours t
  /\ parseInt (String.substring 11 2 s) = getMinutes t
  /\ String.substring 13 2 s = "00".
Proof.
  intros Hy s. subst s. rewrite (@formatLocal_chars t Hy).
  pose proof (MonthFromDay_range (Day t)) as Hm. fold (getMonth t) in Hm.
  pose proof (DateFromDay_range (Day t)) as Hd. fold (getDate t) in Hd.
  assert (Hh : 0 <= getHours t <= 23)
    by (unfold getHours; pose proof (Z.mod_pos_bound (t / msPerHour) 24); lia).
  assert (Hmin : 0 <= getMinutes t <= 59)
    by (unfold getMinutes;
        pose proof (Z.mod_pos_bound (t / msPerMinute) 60); lia).
  cbn [String.length String.substring].
  destruct (@digit_char (getFullYear t / 1000)) as [D1 V1];
    [ Z.div_mod_to_equations; lia | ].
  destruct (@digit_char ((getFullYear t / 100) mod 10)) as [D2 V2];
    [ Z.div_mod_to_equations; lia | ].
  destruct (@digit_char ((getFullYear t / 10) mod 10)) as [D3 V3];
    [ Z.div_mod_to_equations; lia | ].
  destruct (@digit_char (getFullYear t mod 10)) as [D4 V4];
    [ Z.div_mod_to_equations; lia | ].
  destruct (@digit_char ((getMonth t + 1) / 10)) as [D5 V5];
    [ Z.div_mod_to_equations; lia | ].
  destruct (@digit_char ((getMonth t + 1) mod 10)) as [D6 V6];
    [ Z.div_mod_to_equations; lia | ].
  destruct (@digit_char (getDate t / 10)) as [D7 V7];
    [ Z.div_mod_to_equations; lia | ].
  destruct (@digit_char (getDate t mod 10)) as [D8 V8];
    [ Z.div_mod_to_equations; lia | ].
  destruct (@digit_char (getHours t / 10)) as [D9 V9];
    [ Z.div_mod_to_equations; lia | ].
  destruct (@digit_char (getHours t mod 10)) as [D10 V10];
    [ Z.div_mod_to_equations; lia | ].
  destruct (@digit_char (getMinutes t / 10)) as [D11 V11];
    [ Z.div_mod_to_equations; lia | ].
  destruct (@digit_char (getMinutes t mod 10)) as [D12 V12];
    [ Z.div_mod_to_equations; lia | ].
  unfold parseInt. cbn [allDigits digitsValue].
  rewrite D1, D2, D3, D4, D5, D6, D7, D8, D9, D10, D11, D12.
  rewrite V1, V2, V3, V4, V5, V6, V7, V8, V9, V10, V11, V12.
  repeat split; try reflexivity; Z.div_mod_to_equations; lia.
Qed.

Lemma calendar_stamp_example :
  1000 <= getFullYear sampleNow <= 9999
  /\ Calendar.formatLocal sampleNow = "20251001T120000"
  /\ parseInt (String.substring 4 2 (Calendar.formatLocal sampleNow))
     = getMonth sampleNow + 1.
Proof.
  assert (Hy : 1000 <= getFullYear sampleNow <= 9999)
    by (vm_compute; split; discriminate).
  split; [ exact Hy | split; [ vm_compute; reflexivity | ] ].
  exact (proj1 (proj2 (proj2 (proj2 (proj2 (proj2
           (@calendar_stamp_reads_back sampleNow Hy))))))).
Defined.

Lemma year_at_least y t :
  DayFromYear y * msPerDay <= t -> y <= getFullYear t.
Proof.
  intros Ht. unfold getFullYear. apply YearFromDay_largest.
  unfold Day, msPerDay in *. Z.div_mod_to_equations. lia.
Qed.

Lemma year_at_most y t :
  t < DayFromYear (y + 1) * msPerDay -> getFullYear t <= y.
Proof.
  intros Ht. unfold getFullYear.
  destruct (Z_le_gt_dec (YearFromDay (Day t)) y) as [Hle | Hgt];
    [ exact Hle | exfalso ].
  assert (Hy : y + 1 <= YearFromDay (Day t)) by lia.
  apply YearFromDay_largest in Hy.
  unfold Day, msPerDay in *. Z.div_mod_to_equations. lia.
Qed.

(** Both dates fall on the day the fields name or on one of the five
    days after it. *)
Lemma dates_near_their_day now s :
  let f := EventClock.parseFields now s in
  let d := EventClock.parseEventDateInfo now s in
  let D := newDate (EventClock.year f) (EventClock.month f)
                   (EventClock.day f) 0 0 0 in
  D <= EventClock.start d < D + 6 * msPerDay
  /\ D <= EventClock.end_ d < D + 6 * msPerDay.
Proof.
  cbv zeta. unfold EventClock.parseEventDateInfo.
  pose proof (parseFields_clock now s) as Hclock. cbv zeta in Hclock.
  set (f := EventClock.parseFields now s) in *. clearbody f.
  destruct Hclock as (Hsh & Hsm & Heh & Hem & _).
  rewrite buildDates_start.
  assert (Hstart : newDate (EventClock.year f) (EventClock.month f)
                     (EventClock.day f) 0 0 0
                   <= newDate (EventClock.year f) (EventClock.month f)
                        (EventClock.day f) (EventClock.startHour f)
                        (EventClock.startMin f) 0
                   < newDate (EventClock.year f) (EventClock.month f)
                       (EventClock.day f) 0 0 0 + 6 * msPerDay).
  { rewrite (newDate_clock _ _ _ (EventClock.startHour f)).
    unfold msPerDay, msPerHour, msPerMinute. lia. }
  split; [ exact Hstart | ].
  destruct (Z.eq_dec (EventClock.endHour f) (-1)) as [Hnone | Hfound].
  - unfold EventClock.buildDates. rewrite Hnone.
    change (-1 =? -1) with true. cbn [negb EventClock.end_].
    rewrite setHours_midnight.
    rewrite (newDate_clock _ _ _ (getHours _ + 2)).
    set (t0 := newDate (EventClock.year f) (EventClock.month f)
                 (EventClock.day f) (EventClock.startHour f)
                 (EventClock.startMin f) 0).
    assert (0 <= getHours t0 <= 23)
      by (unfold getHours;
          pose proof (Z.mod_pos_bound (t0 / msPerHour) 24); lia).
    assert (0 <= getMinutes t0 <= 59)
      by (unfold getMinutes;
          pose proof (Z.mod_pos_bound (t0 / msPerMinute) 60); lia).
    unfold msPerDay, msPerHour, msPerMinute. lia.
  - rewrite (buildDates_end_found f Hfound), endSameDay_built.
    rewrite (newDate_clock _ _ _ (EventClock.endHour f)).
    destruct (_ <? _); unfold msPerDay, msPerHour, msPerMinute; lia.
Qed.

(** X18.  When the clock's year is from 1000 to 9997, the two dates
    read from any event are in the clock's year or one of the two
    years after it, and the dates parameter of the calendar link is
    the fifteen-character stamp of the start, a slash and the
    fifteen-character stamp of the end. *)
Theorem calendar_dates_well_formed (now : Z) (event : EventClock.EventItem) :
  1000 <= getFullYear now <= 9997 ->
  let d := EventClock.parseEventDateInfo now (EventClock.date event) in
  getFullYear now <= getFullYear (EventClock.start d) <= getFullYear now + 2
  /\ getFullYear now <= getFullYear (EventClock.end_ d)
     <= getFullYear now + 2
  /\ String.length (Calendar.datesParam now event) = 31%nat
  /\ String.substring 0 15 (Calendar.datesParam now event)
     = Calendar.formatLocal (EventClock.start d)
  /\ String.substring 15 1 (Calendar.datesParam now event) = "/"
  /\ String.substring 16 15 (Calendar.datesParam now event)
     = Calendar.formatLocal (EventClock.end_ d).
Proof.
  intros Hnow d.
  destruct (dates_near_their_day now (EventClock.date event))
    as [Hs He]. cbv zeta in Hs, He. fold d in Hs, He.
  destruct (parseFields_calendar now (EventClock.date event))
    as (Hmonth & Hday & Hyear).
  set (f := EventClock.parseFields now (EventClock.date event)) in *.
  assert (Hy : EventClock.year f = getFullYear now
               \/ EventClock.year f = getFullYear now + 1)
    by (rewrite Hyear; destruct (_ <? _); auto).
  assert (HD : DayFromYear (EventClock.year f) * msPerDay
               <= newDate (EventClock.year f) (EventClock.month f)
                          (EventClock.day f) 0 0 0
               /\ newDate (EventClock.year f) (EventClock.month f)
                          (EventClock.day f) 0 0 0 + 6 * msPerDay
                  <= DayFromYear (EventClock.year f + 1 + 1) * msPerDay).
  { unfold newDate.
    replace ((0 <=? EventClock.year f) && (EventClock.year f <=? 99))
      with false
      by (symmetry; apply andb_false_iff; right; apply Z.leb_gt; lia).
    unfold MakeDate, MakeDay, MakeTime. cbv zeta.
    rewrite (Z.div_small (EventClock.month f) 12),
      (Z.mod_small (EventClock.month f) 12) by lia.
    replace (EventClock.year f + 0) with (EventClock.year f) by lia.
    pose proof (leapDay_cases (EventClock.year f)) as Hl.
    pose proof (leapDay_cases (EventClock.year f + 1)) as Hl'.
    pose proof (@monthStart_nonneg (EventClock.month f)
                  (leapDay (EventClock.year f))) as Hlo.
    pose proof (@monthStart_increasing (EventClock.month f) 11
                  (leapDay (EventClock.year f))) as Hhi.
    change (monthStart 11 (leapDay (EventClock.year f)))
      with (334 + leapDay (EventClock.year f)) in Hhi.
    rewrite !DayFromYear_next.
    unfold msPerDay, msPerHour, msPerMinute, msPerSecond. lia. }
  destruct HD as [Hlow Hhigh].
  assert (Hys : getFullYear now <= getFullYear (EventClock.start d)
                <= getFullYear now + 2).
  { split.
    - apply Z.le_trans with (EventClock.year f); [ lia | ].
      apply year_at_least. lia.
    - apply Z.le_trans with (EventClock.year f + 1); [ | lia ].
      apply year_at_most. lia. }
  assert (Hye : getFullYear now <= getFullYear (EventClock.end_ d)
                <= getFullYear now + 2).
  { split.
    - apply Z.le_trans with (EventClock.year f); [ lia | ].
      apply year_at_least. lia.
    - apply Z.le_trans with (EventClock.year f + 1); [ | lia ].
      apply year_at_most. lia. }
  split; [ exact Hys | split; [ exact Hye | ] ].
  unfold Calendar.datesParam. cbv zeta. fold d.
  rewrite (@formatLocal_chars (EventClock.start d)) by lia.
  rewrite (@formatLocal_chars (EventClock.end_ d)) by lia.
  repeat split.
Qed.

Lemma calendar_dates_example :
  1000 <= getFullYear sampleNow <= 9997
  /\ Calendar.datesParam sampleNow eventNew
     = (Calendar.formatLocal
          (EventClock.start
             (EventClock.parseEventDateInfo sampleNow
                (EventClock.date eventNew)))
        ++ "/"
        ++ Calendar.formatLocal
             (EventClock.end_
                (EventClock.parseEventDateInfo sampleNow
                   (EventClock.date eventNew))))%string
  /\ String.length (Calendar.datesParam sampleNow eventNew) = 31%nat.
Proof.
  assert (Hy : 1000 <= getFullYear sampleNow <= 9997)
    by (vm_compute; split; discriminate).
  split; [ exact Hy | split; [ reflexivity | ] ].
  exact (proj1 (proj2 (proj2
           (@calendar_dates_well_formed sampleNow eventNew Hy)))).
Defined.

End StampFacts.

(** ** Reading the exported file back *)

Section CsvFacts.
Import Csv CsvReader.

Lemma run_append (r : Reader) (a b : string) :
  run r (a ++ b) = run (run r a) b.
Proof.
  revert r. induction a as [ | c a IH ]; intros r; simpl;
    [ reflexivity | apply IH ].
Qed.

Lemma append_char_assoc (f s : string) (c : ascii) :
  ((f ++ String c "") ++ s)%string = (f ++ String c s)%string.
Proof. induction f as [ | x f IH ]; simpl; [ reflexivity | now rewrite IH ]. Qed.

Lemma append_empty (s : string) : (s ++ "")%string = s.
Proof. induction s as [ | c s IH ]; simpl; [ reflexivity | now rewrite IH ]. Qed.

(** Inside the quotes the doubled text is read as the text. *)
Lemma run_doubleQuotes (s f : string) (rw : list string)
    (rs : list (list string)) :
  run (mkReader Quoted f rw rs) (doubleQuotes s)
  = mkReader Quoted (f ++ s) rw rs.
Proof.
  revert f. induction s as [ | c s IH ]; intros f; cbn [doubleQuotes run].
  - now rewrite append_empty.
  - destruct (Ascii.eqb c quote) eqn:E.
    + apply Ascii.eqb_eq in E. subst c. cbn [run].
      unfold step at 2. cbn [mode]. rewrite Ascii.eqb_refl.
      unfold step at 1. cbn [mode]. rewrite Ascii.eqb_refl.
      unfold addChar. cbn [field row rows].
      rewrite IH. now rewrite append_char_assoc.
    + cbn [run]. unfold step at 1. cbn [mode]. rewrite E.
      unfold addChar. cbn [field row rows].
      rewrite IH. now rewrite append_char_assoc.
Qed.

Lemma run_escape (s : string) (rw : list string) (rs : list (list string)) :
  run (mkReader FieldStart "" rw rs) (escape s)
  = mkReader QuoteInQuoted s rw rs.
Proof.
  unfold escape. cbn [run]. unfold step at 1. cbn [mode row rows].
  rewrite Ascii.eqb_refl. rewrite run_append, run_doubleQuotes.
  cbn [run String.append]. unfold step. cbn [mode field row rows].
  now rewrite Ascii.eqb_refl.
Qed.

Lemma last_after_head (A : Type) (x d : A) (l : list A) :
  last (x :: l) d = last l x.
Proof.
  revert x d. induction l as [ | y l IH ]; intros x d; [ reflexivity | ].
  change (last (x :: y :: l) d) with (last (y :: l) d).
  rewrite IH. symmetry. apply IH.
Qed.

(** A row of escaped fields is read as its fields. *)
Lemma run_row (fields : list string) (first : string) (rw : list string)
    (rs : list (list string)) :
  run (mkReader FieldStart "" rw rs)
      (join separator (map escape (first :: fields)))
  = mkReader QuoteInQuoted (last fields first)
             (rw ++ removelast (first :: fields)) rs.
Proof.
  revert first rw. induction fields as [ | g fields IH ]; intros first rw.
  - cbn [map join last removelast]. rewrite run_escape, app_nil_r.
    reflexivity.
  - change (join separator (map escape (first :: g :: fields)))
      with (escape first ++ separator
              ++ join separator (map escape (g :: fields)))%string.
    rewrite run_append, run_escape. unfold separator.
    cbn [String.append run]. unfold step at 1. cbn [mode].
    change (Ascii.eqb ";" quote) with false.
    change (Ascii.eqb ";" ";") with true. cbv iota. cbv zeta.
    unfold endField. cbn [field row rows].
    rewrite IH. f_equal.
    + symmetry. apply last_after_head.
    + change (removelast (first :: g :: fields))
        with (first :: removelast (g :: fields)).
      now rewrite <- app_assoc.
Qed.

Lemma whole_row (fields : list string) (first : string) :
  removelast (first :: fields) ++ [last fields first] = first :: fields.
Proof.
  rewrite <- (@last_after_head _ first first fields).
  symmetry. apply app_removelast_last. discriminate.
Qed.

(** A line of escaped fields and the line break after it. *)
Lemma run_line (fields : list string) (first : string)
    (rs : list (list string)) :
  run (mkReader FieldStart "" [] rs)
      (join separator (map escape (first :: fields)) ++ lineBreak)
  = mkReader FieldStart "" [] (rs ++ [first :: fields]).
Proof.
  rewrite run_append, run_row. unfold lineBreak. cbn [run].
  unfold step. cbn [mode].
  change (Ascii.eqb Scan.newline quote) with false.
  change (Ascii.eqb Scan.newline ";") with false.
  rewrite Ascii.eqb_refl. cbv iota. cbv zeta.
  unfold endRow. cbn [field row rows app].
  now rewrite whole_row.
Qed.

(** The lines of the file but the first, read after the line break
    that ends the first. *)
Lemma run_lines (lines : list (list string)) (rs : list (list string)) :
  lines <> [] ->
  Forall (fun fields => fields <> []) lines ->
  finish (run (mkReader FieldStart "" [] rs)
              (join lineBreak
                    (map (fun fields => join separator (map escape fields))
                         lines)))
  = rs ++ lines.
Proof.
  revert rs. induction lines as [ | fields lines IH ]; intros rs Hne Hall;
    [ contradiction | ].
  inversion Hall as [ | ? ? Hfields Hrest ]; subst.
  destruct fields as [ | first fields ]; [ contradiction | ].
  destruct lines as [ | next lines ].
  - change (join lineBreak
              (map (fun fields0 => join separator (map escape fields0))
                   [first :: fields]))
      with (join separator (map escape (first :: fields))).
    rewrite run_row. unfold finish. cbn [mode row rows field].
    cbn [app]. now rewrite whole_row.
  - change (join lineBreak
              (map (fun fields0 => join separator (map escape fields0))
                   ((first :: fields) :: next :: lines)))
      with (join separator (map escape (first :: fields)) ++ lineBreak
              ++ join lineBreak
                   (map (fun fields0 => join separator (map escape fields0))
                        (next :: lines)))%string.
    rewrite <- append_assoc', run_append, run_line.
    rewrite IH; [ | discriminate | exact Hrest ].
    now rewrite <- app_assoc.
Qed.

Lemma read_content (headers : list string) (lines : list (list string)) :
  lines <> [] ->
  Forall (fun fields => fields <> []) lines ->
  run start (join separator headers ++ lineBreak)
  = mkReader FieldStart "" [] [headers] ->
  readCsv (csvContent headers
             (map (fun fields => join separator (map escape fields)) lines))
  = headers :: lines.
Proof.
  intros Hne Hall Hhead. unfold readCsv, csvContent.
  destruct lines as [ | l0 lines ]; [ contradiction | ].
  change (join lineBreak
            (join separator headers
               :: map (fun fields => join separator (map escape fields))
                      (l0 :: lines)))
    with (join separator headers ++ lineBreak
            ++ join lineBreak
                 (map (fun fields => join separator (map escape fields))
                      (l0 :: lines)))%string.
  rewrite <- append_assoc', run_append, Hhead.
  now rewrite run_lines.
Qed.

End CsvFacts.

(** X19.  The exported file reads back as what was exported: a reader
    of separated values finds the header line and then, for each
    record in order, exactly its fields, whatever characters they hold
    (separators, line breaks and double quotes included).  Nothing is
    written for an empty list. *)
Theorem exported_file_reads_back :
  (forall eventsToExport : list EventClock.EventItem,
      match Csv.downloadEventsCSV eventsToExport with
      | Some content =>
          CsvReader.readCsv content
          = Csv.eventHeaders :: map Csv.eventFields eventsToExport
      | None => eventsToExport = []
      end)
  /\ (forall itemsToExport : list Radar.NewsItem,
         match Csv.downloadItemsCSV itemsToExport with
         | Some content =>
             CsvReader.readCsv content
             = Csv.newsHeaders :: map Csv.newsFields itemsToExport
         | None => itemsToExport = []
         end).
Proof.
  split.
  - intros [ | e rest ]; [ reflexivity | ].
    unfold Csv.downloadEventsCSV.
    replace (map Csv.eventRow (e :: rest))
      with (map (fun fields => Csv.join Csv.separator
                                 (map Csv.escape fields))
                (map Csv.eventFields (e :: rest)))
      by (rewrite map_map; reflexivity).
    apply read_content.
    + discriminate.
    + apply Forall_forall. intros fields Hin.
      apply in_map_iff in Hin. destruct Hin as [x [<- _]]. discriminate.
    + vm_compute. reflexivity.
  - intros [ | e rest ]; [ reflexivity | ].
    unfold Csv.downloadItemsCSV.
    replace (map Csv.newsRow (e :: rest))
      with (map (fun fields => Csv.join Csv.separator
                                 (map Csv.escape fields))
                (map Csv.newsFields (e :: rest)))
      by (rewrite map_map; reflexivity).
    apply read_content.
    + discriminate.
    + apply Forall_forall. intros fields Hin.
      apply in_map_iff in Hin. destruct Hin as [x [<- _]]. discriminate.
    + vm_compute. reflexivity.
Qed.

(** ** A scan that is to fail *)

(** X21.  A scan whose generator fails, or whose text neither strategy
    turns into a non-empty array, ends in one of two ways.  Either it
    fails: an error is set, the screen is empty and the stored history
    is what it was.  Or the value the parse returned is no array at
    all, a string that is not empty or an object whose length counts
    as positive, and that value is put on screen and stored in a new
    session with no error.  So when the value parsed from the response
    is an array, the failure is atomic. *)
Theorem should_fail_scan_fails_or_stores_no_array
    (JSON_parse : string -> option Scan.json)
    (objectLengthPositive : list (string * Scan.json) -> bool)
    (now : Z) (label : string) (g : Scan.Generated) (st : Scan.AppState) :
  Scan.scanShouldFail JSON_parse g = true ->
  let st' := Scan.scan JSON_parse objectLengthPositive now label g st in
  let failed :=
    Scan.error st' <> None /\ Scan.history st' = Scan.history st
    /\ Scan.current st' = Scan.JArray [] in
  let parsedAs (v : Scan.json) :=
    exists text,
      g = Scan.Response text
      /\ Scan.parseResponse JSON_parse
           (match text with Some t => t | None => "" end) = inr v in
  (failed
   \/ exists v,
        parsedAs v
        /\ ((exists s, v = Scan.JString s /\ s <> "")
            \/ (exists o, v = Scan.JObject o
                          /\ objectLengthPositive o = true))
        /\ st' = Scan.mkApp v None
                   (Scan.mkStored now label v :: Scan.history st))
  /\ ((forall v, parsedAs v -> exists l, v = Scan.JArray l) -> failed).
Proof.
  intros Hfail st' failed parsedAs.
  assert (Hmain :
    failed
    \/ exists v,
         parsedAs v
         /\ ((exists s, v = Scan.JString s /\ s <> "")
             \/ (exists o, v = Scan.JObject o
                           /\ objectLengthPositive o = true))
         /\ st' = Scan.mkApp v None
                    (Scan.mkStored now label v :: Scan.history st)).
  { subst st' failed parsedAs. unfold Scan.scan. cbv zeta.
    destruct g as [message | text];
      [ left; split; [ discriminate | split; reflexivity ] | ].
    set (t := match text with Some t => t | None => "" end).
    assert (Hco : Scan.coercible JSON_parse t = false).
    { subst t. destruct text; simpl in Hfail;
        now apply negb_true_iff in Hfail. }
    unfold Scan.coercible in Hco. apply orb_false_iff in Hco.
    destruct Hco as [Hfenced Hbrackets].
    unfold Scan.afterResponse. cbn [Scan.current Scan.error Scan.history].
    destruct (Scan.parseResponse JSON_parse t) as [e | v] eqn:Ep;
      [ left; split; [ discriminate | split; reflexivity ] | ].
    assert (Harr : forall l, v = Scan.JArray l -> l = []).
    { intros l ->. unfold Scan.parseResponse in Ep.
      destruct (Scan.parseFenced JSON_parse t) as [w | ] eqn:Ef.
      - injection Ep as ->. now destruct l.
      - rewrite Ep in Hbrackets. now destruct l. }
    destruct v as [ | b | n | s | l | o ]; cbn [Scan.lengthPositive].
    - left. split; [ discriminate | split; reflexivity ].
    - left. split; [ discriminate | split; reflexivity ].
    - left. split; [ discriminate | split; reflexivity ].
    - destruct s as [ | c s ]; cbn [String.length Nat.ltb Nat.leb].
      + left. split; [ discriminate | split; reflexivity ].
      + right. exists (Scan.JString (String c s)).
        split; [ exists text; split; [ reflexivity | exact Ep ] | ].
        split; [ left; eexists; split; [ reflexivity | discriminate ] | ].
        reflexivity.
    - rewrite (Harr l eq_refl). cbn [List.length Nat.ltb Nat.leb].
      left. split; [ discriminate | split; reflexivity ].
    - destruct (objectLengthPositive o) eqn:Eo.
      + right. exists (Scan.JObject o).
        split; [ exists text; split; [ reflexivity | exact Ep ] | ].
        split; [ right; eexists; split; [ reflexivity | exact Eo ] | ].
        reflexivity.
      + left. split; [ discriminate | split; reflexivity ]. }
  split; [ exact Hmain | ].
  intros Harray. destruct Hmain as [Hf | [v [Hv [Hkind _]]]]; [ exact Hf | ].
  destruct (Harray v Hv) as [l ->].
  destruct Hkind as [[s [Hs _]] | [o [Ho _]]]; discriminate.
Qed.

Lemma should_fail_scan_example :
  Scan.scanShouldFail parseKnownTexts (Scan.Response (Some "[]")) = true
  /\ Scan.error (Scan.scan parseKnownTexts (fun _ => false)
                           1761300000000 "jeudi 23 octobre 2025"
                           (Scan.Response (Some "[]")) emptyApp)
     <> None
  /\ Scan.history (Scan.scan parseKnownTexts (fun _ => false)
                             1761300000000 "jeudi 23 octobre 2025"
                             (Scan.Response (Some "[]")) emptyApp)
     = Scan.history emptyApp.
Proof.
  assert (Hfail : Scan.scanShouldFail parseKnownTexts
                    (Scan.Response (Some "[]")) = true) by reflexivity.
  split; [ exact Hfail | ].
  destruct (proj2 (@should_fail_scan_fails_or_stores_no_array
                     parseKnownTexts (fun _ => false)
                     1761300000000 "jeudi 23 octobre 2025"
                     (Scan.Response (Some "[]")) emptyApp Hfail))
    as (Herror & Hhistory & _).
  - intros v [text [Hg Hv]]. injection Hg as <-.
    exists []. vm_compute in Hv. now injection Hv as <-.
  - split; assumption.
Defined.
